(** * tabscribe: the transcription job lifecycle

    A shallow embedding of the AssemblyAI adapter
    ([src/lib/transcription/assemblyai.ts]), of the transcription manager
    ([src/lib/transcription/manager.ts]) and of the recordings store they
    write to ([src/lib/stores/recordings.ts], [src/lib/db/indexeddb.ts]),
    followed by the properties of the job lifecycle.

    JavaScript numbers that hold integers (millisecond offsets, timestamps,
    HTTP status codes) are [Z]; optional fields are [option], with [None]
    standing for both an absent property and [undefined]/[null]; promises
    are computations in a state-and-exception monad over the [World]
    (recordings store, settings, wall clock and the log of effects). *)

From Stdlib Require Import String Ascii List ZArith Lia Bool DecimalString
  Permutation.
Import ListNotations.
Local Open Scope string_scope.

(** ** JavaScript primitives *)

(** The one-character string ["\n"]. *)
Definition nl : string := String (ascii_of_nat 10) EmptyString.

(** [String(n)] for an integer [n]: decimal digits, ["-"] first when negative. *)
Definition String_of_Z (n : Z) : string := NilZero.string_of_int (Z.to_int n).

(** [s.padStart(n, c)] for a one-character pad [c]. *)
Fixpoint replicate (n : nat) (c : ascii) : string :=
  match n with
  | O => EmptyString
  | S k => String c (replicate k c)
  end.

Definition padStart (n : nat) (c : ascii) (s : string) : string :=
  replicate (n - String.length s) c ++ s.

(** Truthiness of an optional string: [undefined], [null] and [''] are falsy. *)
Definition truthy (o : option string) : bool :=
  match o with
  | Some s => negb (s =? "")
  | None => false
  end.

(** [a || b] on optional strings. *)
Definition or_else (a b : option string) : option string :=
  if truthy a then a else b.

(** [Math.floor(a / b)] for a positive [b] is [Z.div]; [a % b] takes the sign
    of the dividend, which is [Z.rem]. *)
Definition js_floor_div (a b : Z) : Z := (a / b)%Z.
Definition js_rem (a b : Z) : Z := Z.rem a b.

(** ** Types ([src/lib/types/index.ts]) *)

Inductive TranscriptionStatus : Type :=
| StPending
| StProcessing
| StCompleted
| StError.

Definition status_eqb (a b : TranscriptionStatus) : bool :=
  match a, b with
  | StPending, StPending | StProcessing, StProcessing
  | StCompleted, StCompleted | StError, StError => true
  | _, _ => false
  end.

Record TranscriptionData : Type := {
  status : TranscriptionStatus;
  text : option string;
  error : option string;
  service : string;
  jobId : option string;
  startedAt : option Z;
  completedAt : option Z
}.

Record Blob : Type := {
  blob_type : string;
  blob_size : Z
}.

Inductive RecordingMode : Type := ScreenAudio | AudioOnly.

Record Recording : Type := {
  id : string;
  filename : string;
  blob : Blob;
  mimeType : string;
  size : Z;
  duration : Z;
  createdAt : Z;
  isDownloaded : bool;
  recordingMode : RecordingMode;
  liveTranscription : option string;
  transcription : option TranscriptionData
}.

Record TranscriptionSettings : Type := {
  enabled : bool;
  autoTranscribe : bool;
  settings_service : string;
  assemblyAIKey : string;
  language : string;
  speaker_labels : bool;
  speakers_expected : Z;
  enableLiveTranscription : bool
}.

Record TranscriptionOptions : Type := {
  opt_language : option string;
  opt_speaker_labels : option bool;
  opt_speakers_expected : option Z
}.

Record TranscriptionResult : Type := {
  res_jobId : option string;
  res_status : TranscriptionStatus;
  res_text : option string;
  res_error : option string
}.

Record TranscriptionStatusResult : Type := {
  sr_status : TranscriptionStatus;
  sr_text : option string;
  sr_error : option string
}.

(** ** Provider payloads ([assemblyai.ts]) *)

Record AssemblyAIUploadResponse : Type := {
  upload_url : string
}.

(** [confidence] is a float that no code path reads; it is left out. *)
Record AssemblyAIUtterance : Type := {
  speaker : string;
  utt_text : string;
  start : Z;
  end_ : Z
}.

(** The [status] of the provider is whatever string the JSON carries. *)
Record AssemblyAITranscriptResponse : Type := {
  data_id : string;
  data_status : string;
  data_text : option string;
  data_error : option string;
  data_utterances : option (list AssemblyAIUtterance);
  data_speaker_labels : option bool
}.

(** ** The adapter's pure helpers *)

(** [AssemblyAIAdapter.mapStatus]: a [switch] on the status string. *)
Definition mapStatus (s : string) : TranscriptionStatus :=
  if s =? "completed" then StCompleted
  else if s =? "error" then StError
  else if s =? "queued" then StProcessing
  else if s =? "processing" then StProcessing
  else StPending.

(** [AssemblyAIAdapter.formatTimestamp]. *)
Definition formatTimestamp (ms : Z) : string :=
  let totalSeconds := js_floor_div ms 1000 in
  let hours := js_floor_div totalSeconds 3600 in
  let minutes := js_floor_div (js_rem totalSeconds 3600) 60 in
  let seconds := js_rem totalSeconds 60 in
  if (0 <? hours)%Z then
    String_of_Z hours ++ ":" ++ padStart 2 "0" (String_of_Z minutes)
      ++ ":" ++ padStart 2 "0" (String_of_Z seconds)
  else
    String_of_Z minutes ++ ":" ++ padStart 2 "0" (String_of_Z seconds).

(** The template literal of one utterance in [formatUtterances]. *)
Definition formatUtterance (u : AssemblyAIUtterance) : string :=
  "[" ++ formatTimestamp (start u) ++ " - " ++ formatTimestamp (end_ u)
    ++ "] Speaker " ++ speaker u ++ ":" ++ nl ++ utt_text u ++ nl.

(** [AssemblyAIAdapter.formatUtterances]: [map] then [join('\n')]. *)
Definition formatUtterances (utterances : list AssemblyAIUtterance) : string :=
  String.concat nl (map formatUtterance utterances).

(** ** Effects

    Everything the code awaits is a computation [M A]: a function of the
    [World] that returns or throws, and the world after it. *)

(** A thrown value: an [Error] instance with its message, or anything else. *)
Inductive Thrown : Type :=
| ErrorObj (message : string)
| NonError.

(** [error instanceof Error ? error.message : fallback]. *)
Definition message_or (fallback : string) (e : Thrown) : string :=
  match e with
  | ErrorObj m => m
  | NonError => fallback
  end.

Inductive Outcome (A : Type) : Type :=
| Ok (a : A)
| Throw (e : Thrown).
Arguments Ok {A} a.
Arguments Throw {A} e.

(** What [fetch] resolves to: the fields of [Response] the adapter reads.
    [text()] and [json()] are promises of their own and may reject. *)
Record Response (J : Type) : Type := {
  ok : bool;
  http_status : Z;
  statusText : string;
  body_text : Outcome string;
  body_json : Outcome J
}.
Arguments ok {J} r.
Arguments http_status {J} r.
Arguments statusText {J} r.
Arguments body_text {J} r.
Arguments body_json {J} r.

(** The JSON body of [POST /transcript]. *)
Record TranscriptBody : Type := {
  audio_url : string;
  language_detection : option bool;
  language_code : option string;
  body_speaker_labels : option bool;
  body_speakers_expected : option Z;
  punctuate : bool;
  format_text : bool;
  speech_model : string
}.

Inductive Request : Type :=
| PostUpload (authorization contentType : string) (body : Blob)
| PostTranscript (authorization : string) (body : TranscriptBody)
| GetTranscript (authorization jobId : string).

(** The provider and the network between: what the [n]-th request of the
    session is answered with. A rejected [fetch] is a [Throw]. *)
Record Network : Type := {
  net_upload : nat -> string -> string -> Blob ->
               Outcome (Response AssemblyAIUploadResponse);
  net_transcript : nat -> string -> TranscriptBody ->
                   Outcome (Response AssemblyAITranscriptResponse);
  net_poll : nat -> string -> string ->
             Outcome (Response AssemblyAITranscriptResponse)
}.

(** The observable effects, logged newest first. *)
Inductive Event : Type :=
| EvFetch (r : Request)
| EvUpdate (i : string) (t : TranscriptionData)
| EvSleep (ms : Z).

Record World : Type := {
  recordings : list Recording;
  settings : TranscriptionSettings;
  clock : Z;
  trace : list Event
}.

Definition M (A : Type) : Type := World -> Outcome A * World.

Definition ret {A} (a : A) : M A := fun w => (Ok a, w).

Definition throw {A} (e : Thrown) : M A := fun w => (Throw e, w).

Definition bind {A B} (m : M A) (k : A -> M B) : M B :=
  fun w =>
    match m w with
    | (Ok a, w') => k a w'
    | (Throw e, w') => (Throw e, w')
    end.

(** [try { body } catch (error) { handler }]. *)
Definition try_catch {A} (body : M A) (handler : Thrown -> M A) : M A :=
  fun w =>
    match body w with
    | (Ok a, w') => (Ok a, w')
    | (Throw e, w') => handler e w'
    end.

(** A promise that is started and not awaited: its effects happen, its
    rejection reaches nobody. The model runs it to its end at the place where
    it is started, so a run of the caller is the caller's own run followed by
    that of the promise it leaves behind: what holds of the world after the
    run holds once that promise has settled, which is later than the moment
    at which the caller resolves. *)
Definition detached (m : M unit) : M unit :=
  fun w => (Ok tt, snd (m w)).

(** [await] of a promise that resolved or rejected without other effect. *)
Definition await {A} (o : Outcome A) : M A := fun w => (o, w).

Declare Scope js_scope.
Delimit Scope js_scope with js.
Notation "x <- m ;; k" := (bind m (fun x => k))
  (at level 100, m at next level, right associativity) : js_scope.
Notation "m ;; k" := (bind m (fun _ => k))
  (at level 100, right associativity) : js_scope.
Local Open Scope js_scope.

Definition is_fetch (e : Event) : bool :=
  match e with
  | EvFetch _ => true
  | _ => false
  end.

(** Number of requests sent so far. *)
Definition fetches (tr : list Event) : nat := List.length (filter is_fetch tr).

Definition log (e : Event) (w : World) : World :=
  {| recordings := recordings w; settings := settings w;
     clock := clock w; trace := e :: trace w |}.

(** [Date.now()] and [new Date()]. *)
Definition Date_now : M Z := fun w => (Ok (clock w), w).

(** The world [ms] milliseconds later. *)
Definition pause (ms : Z) (w : World) : World :=
  {| recordings := recordings w; settings := settings w;
     clock := (clock w + ms)%Z; trace := EvSleep ms :: trace w |}.

(** [await new Promise(resolve => setTimeout(resolve, ms))]. *)
Definition sleep (ms : Z) : M unit := fun w => (Ok tt, pause ms w).

(** [get(settings)] and [get(recordings)]. *)
Definition get_settings : M TranscriptionSettings := fun w => (Ok (settings w), w).
Definition get_recordings : M (list Recording) := fun w => (Ok (recordings w), w).

(** ** The recordings store ([recordings.ts] over [indexeddb.ts]) *)

(** [{ ...r, transcription: t }]. *)
Definition with_transcription (r : Recording) (t : TranscriptionData) : Recording :=
  {| id := id r; filename := filename r; blob := blob r; mimeType := mimeType r;
     size := size r; duration := duration r; createdAt := createdAt r;
     isDownloaded := isDownloaded r; recordingMode := recordingMode r;
     liveTranscription := liveTranscription r; transcription := Some t |}.

Definition has_id (i : string) (r : Recording) : bool := id r =? i.

(** The [map] of the store's [update]. *)
Definition store_update (i : string) (t : TranscriptionData)
    (rs : list Recording) : list Recording :=
  map (fun r => if has_id i r then with_transcription r t else r) rs.

(** The world after a write that went through. *)
Definition write (i : string) (t : TranscriptionData) (w : World) : World :=
  {| recordings := store_update i t (recordings w); settings := settings w;
     clock := clock w; trace := EvUpdate i t :: trace w |}.

(** [recordings.update(id, { transcription: t })]: [db.updateRecording] throws
    when the id is unknown, before the in-memory list is touched. *)
Definition recordings_update (i : string) (t : TranscriptionData) : M unit :=
  fun w =>
    if existsb (has_id i) (recordings w) then (Ok tt, write i t w)
    else (Throw (ErrorObj ("Recording with id " ++ i ++ " not found")), w).

Section Program.

Variable net : Network.

(** [fetch] logs the request and resolves to the answer of the network. The
    clock of the model moves with the waits of the code only; the time that
    a request takes is not modelled. *)
Definition fetch_upload (authorization contentType : string) (body : Blob)
    : M (Response AssemblyAIUploadResponse) :=
  fun w =>
    (net_upload net (fetches (trace w)) authorization contentType body,
     log (EvFetch (PostUpload authorization contentType body)) w).

Definition fetch_transcript (authorization : string) (body : TranscriptBody)
    : M (Response AssemblyAITranscriptResponse) :=
  fun w =>
    (net_transcript net (fetches (trace w)) authorization body,
     log (EvFetch (PostTranscript authorization body)) w).

Definition fetch_poll (authorization jobId : string)
    : M (Response AssemblyAITranscriptResponse) :=
  fun w =>
    (net_poll net (fetches (trace w)) authorization jobId,
     log (EvFetch (GetTranscript authorization jobId)) w).

(** ** The adapter ([class AssemblyAIAdapter]) *)

Record AssemblyAIAdapter : Type := {
  name : string;
  apiKey : string
}.

(** [new AssemblyAIAdapter(apiKey)]. *)
Definition new_AssemblyAIAdapter (key : string) : AssemblyAIAdapter :=
  {| name := "AssemblyAI"; apiKey := key |}.

(** [uploadFile]. *)
Definition uploadFile (this : AssemblyAIAdapter) (b : Blob) : M string :=
  response <- fetch_upload (apiKey this)
                (if blob_type b =? "" then "application/octet-stream" else blob_type b) b ;;
  if negb (ok response) then
    throw (ErrorObj ("Upload failed: " ++ String_of_Z (http_status response)
                       ++ " " ++ statusText response))
  else
    data <- await (body_json response) ;;
    ret (upload_url data).

(** The request body [createTranscript] builds from the options. *)
Definition transcript_body (audioUrl : string)
    (options : option TranscriptionOptions) : TranscriptBody :=
  let lang := match options with Some o => opt_language o | None => None end in
  let labels :=
    match options with
    | Some o => match opt_speaker_labels o with Some true => true | _ => false end
    | None => false
    end in
  let expected :=
    match options with Some o => opt_speakers_expected o | None => None end in
  {| audio_url := audioUrl;
     language_detection :=
       if truthy lang then
         match lang with Some "auto" => Some true | _ => None end
       else None;
     language_code :=
       if truthy lang then
         match lang with Some "auto" => None | _ => lang end
       else None;
     body_speaker_labels := if labels then Some true else None;
     body_speakers_expected :=
       if labels then
         match expected with
         | Some n => if (n =? 0)%Z then None else Some n
         | None => None
         end
       else None;
     punctuate := true;
     format_text := true;
     speech_model := "universal-2" |}.

(** [createTranscript]. *)
Definition createTranscript (this : AssemblyAIAdapter) (audioUrl : string)
    (options : option TranscriptionOptions) : M string :=
  response <- fetch_transcript (apiKey this) (transcript_body audioUrl options) ;;
  if negb (ok response) then
    errorBody <- await (body_text response) ;;
    throw (ErrorObj ("Transcription request failed: "
                       ++ String_of_Z (http_status response) ++ " "
                       ++ statusText response ++ " - " ++ errorBody))
  else
    data <- await (body_json response) ;;
    ret (data_id data).

(** [AssemblyAIAdapter.transcribe]: the submit operation. *)
Definition adapter_transcribe (this : AssemblyAIAdapter) (audioBlob : Blob)
    (options : option TranscriptionOptions) : M TranscriptionResult :=
  try_catch
    (uploadUrl <- uploadFile this audioBlob ;;
     transcriptId <- createTranscript this uploadUrl options ;;
     ret {| res_jobId := Some transcriptId; res_status := StProcessing;
            res_text := None; res_error := None |})
    (fun e =>
       ret {| res_jobId := None; res_status := StError; res_text := None;
              res_error := Some (message_or "Transcription failed" e) |}).

(** The text [checkStatus] reports: the utterances, formatted, when speaker
    labels are on and there is at least one; otherwise [data.text]. *)
Definition formattedText (data : AssemblyAITranscriptResponse) : option string :=
  match data_speaker_labels data, data_utterances data with
  | Some true, Some (u :: us) => Some (formatUtterances (u :: us))
  | _, _ => data_text data
  end.

(** [AssemblyAIAdapter.checkStatus]. *)
Definition adapter_checkStatus (this : AssemblyAIAdapter) (jid : string)
    : M TranscriptionStatusResult :=
  try_catch
    (response <- fetch_poll (apiKey this) jid ;;
     if negb (ok response) then
       errorBody <- await (body_text response) ;;
       throw (ErrorObj ("API error: " ++ String_of_Z (http_status response) ++ " "
                          ++ statusText response ++ " - " ++ errorBody))
     else
       data <- await (body_json response) ;;
       ret {| sr_status := mapStatus (data_status data);
              sr_text := formattedText data;
              sr_error := data_error data |})
    (fun e =>
       ret {| sr_status := StError; sr_text := None;
              sr_error := Some (message_or "Failed to check status" e) |}).

(** ** The manager ([class TranscriptionManager]) *)

(** [getAdapter]. *)
Definition getAdapter : M (option AssemblyAIAdapter) :=
  currentSettings <- get_settings ;;
  if negb (enabled currentSettings) then ret None
  else if negb (settings_service currentSettings =? "assemblyai") then ret None
  else if assemblyAIKey currentSettings =? "" then ret None
  else ret (Some (new_AssemblyAIAdapter (assemblyAIKey currentSettings))).

Definition is_terminal (s : TranscriptionStatus) : bool :=
  status_eqb s StCompleted || status_eqb s StError.

Definition in_progress (s : TranscriptionStatus) : bool :=
  status_eqb s StProcessing || status_eqb s StPending.

(** The object literal that [checkStatus] and the polling loop write:
    [{ ...t, status, text: st.text || t.text, error: st.error, completedAt }]. *)
Definition mergeStatus (t : TranscriptionData) (st : TranscriptionStatusResult)
    (now : Z) : TranscriptionData :=
  {| status := sr_status st;
     text := or_else (sr_text st) (text t);
     error := sr_error st;
     service := service t;
     jobId := jobId t;
     startedAt := startedAt t;
     completedAt := if status_eqb (sr_status st) StCompleted then Some now else None |}.

(** [{ ...t, status: 'error', error: msg }]. *)
Definition finalizeError (t : TranscriptionData) (msg : string) : TranscriptionData :=
  {| status := StError;
     text := text t;
     error := Some msg;
     service := service t;
     jobId := jobId t;
     startedAt := startedAt t;
     completedAt := completedAt t |}.

Definition maxAttempts : nat := 120.
Definition timeoutMs : Z := (10 * 60 * 1000)%Z.

(** How one turn of the [while] loop ends: by [return], or by falling
    through to [attempts++]. *)
Inductive LoopStep : Type := Return | Continue.

(** The body of the loop of [pollUntilComplete]: the [try] block and its
    [catch]. *)
Definition pollAttempt (adapter : AssemblyAIAdapter) (recording : Recording)
    (t : TranscriptionData) (jid : string) : M LoopStep :=
  try_catch
    (st <- adapter_checkStatus adapter jid ;;
     now <- Date_now ;;
     recordings_update (id recording) (mergeStatus t st now) ;;
     if is_terminal (sr_status st) then ret Return
     else (sleep 5000 ;; ret Continue))
    (fun e =>
       recordings_update (id recording)
         (finalizeError t (message_or "Failed to check status" e)) ;;
       ret Return).

(** [while (attempts < maxAttempts)] with [remaining = maxAttempts - attempts],
    then the timeout write. *)
Fixpoint pollLoop (adapter : AssemblyAIAdapter) (recording : Recording)
    (t : TranscriptionData) (jid : string) (remaining : nat) : M unit :=
  match remaining with
  | O =>
      recordings_update (id recording)
        (finalizeError t "Transcription polling timed out")
  | S k =>
      step <- pollAttempt adapter recording t jid ;;
      match step with
      | Return => ret tt
      | Continue => pollLoop adapter recording t jid k
      end
  end.

(** [pollUntilComplete]. *)
Definition pollUntilComplete (recording : Recording) : M unit :=
  adapter <- getAdapter ;;
  match adapter, transcription recording with
  | Some adapter, Some t =>
      match jobId t with
      | Some jid =>
          if jid =? "" then ret tt
          else pollLoop adapter recording t jid maxAttempts
      | None => ret tt
      end
  | _, _ => ret tt
  end.

(** [transcribe]. The polling loop is started without [await]: its effects
    are part of the run, its rejection is not. *)
Definition transcribe (recording : Recording)
    (options : option TranscriptionOptions) : M unit :=
  adapter <- getAdapter ;;
  match adapter with
  | None => ret tt
  | Some adapter =>
      now <- Date_now ;;
      recordings_update (id recording)
        {| status := StProcessing; text := None; error := None;
           service := name adapter; jobId := None;
           startedAt := Some now; completedAt := None |} ;;
      try_catch
        (result <- adapter_transcribe adapter (blob recording) options ;;
         now <- Date_now ;;
         recordings_update (id recording)
           {| status := res_status result; text := res_text result;
              error := res_error result; service := name adapter;
              jobId := res_jobId result; startedAt := Some now;
              completedAt :=
                if status_eqb (res_status result) StCompleted
                then Some now else None |} ;;
         if status_eqb (res_status result) StProcessing && truthy (res_jobId result)
         then
           all <- get_recordings ;;
           match find (has_id (id recording)) all with
           | Some updatedRecording => detached (pollUntilComplete updatedRecording)
           | None => ret tt
           end
         else ret tt)
        (fun e =>
           recordings_update (id recording)
             {| status := StError; text := None;
                error := Some (message_or "Transcription failed" e);
                service := name adapter; jobId := None;
                startedAt := None; completedAt := None |})
  end.

(** [retryTranscription]. *)
Definition retryTranscription (recording : Recording)
    (options : option TranscriptionOptions) : M unit :=
  transcribe recording options.

(** [checkStatus] of the manager: one poll. *)
Definition checkStatus (recording : Recording) : M unit :=
  adapter <- getAdapter ;;
  match adapter with
  | None => ret tt
  | Some adapter =>
      match transcription recording with
      | None => ret tt
      | Some t =>
          match jobId t with
          | Some jid =>
              if jid =? "" then ret tt
              else
                try_catch
                  (st <- adapter_checkStatus adapter jid ;;
                   now <- Date_now ;;
                   recordings_update (id recording) (mergeStatus t st now))
                  (fun _ => ret tt)
          | None => ret tt
          end
      end
  end.

(** [resumePolling]. *)
Definition resumePolling (recording : Recording) : M unit :=
  match transcription recording with
  | None => ret tt
  | Some t =>
      if negb (in_progress (status t)) then ret tt
      else if negb (truthy (jobId t)) then ret tt
      else
        match startedAt t with
        | Some started =>
            now <- Date_now ;;
            let elapsed := (now - started)%Z in
            if (timeoutMs <? elapsed)%Z then
              recordings_update (id recording)
                (finalizeError t "Transcription timed out (10 minutes)")
            else pollUntilComplete recording
        | None => pollUntilComplete recording
        end
  end.

(** The [for ... of] loop of [clearTimedOutTranscriptions]. *)
Fixpoint clearTimedOut_loop (all : list Recording) (clearedCount : nat) : M nat :=
  match all with
  | [] => ret clearedCount
  | recording :: rest =>
      match transcription recording with
      | None => clearTimedOut_loop rest clearedCount
      | Some t =>
          match in_progress (status t), startedAt t with
          | true, Some started =>
              now <- Date_now ;;
              if (timeoutMs <? now - started)%Z then
                recordings_update (id recording)
                  (finalizeError t "Cleared - timed out") ;;
                clearTimedOut_loop rest (S clearedCount)
              else clearTimedOut_loop rest clearedCount
          | _, _ => clearTimedOut_loop rest clearedCount
          end
      end
  end.

(** [clearTimedOutTranscriptions]. *)
Definition clearTimedOutTranscriptions : M nat :=
  allRecordings <- get_recordings ;;
  clearTimedOut_loop allRecordings 0.

(** The [for ... of] loop of [clearAllInProgressTranscriptions]. *)
Fixpoint clearAll_loop (all : list Recording) (clearedCount : nat) : M nat :=
  match all with
  | [] => ret clearedCount
  | recording :: rest =>
      match transcription recording with
      | None => clearAll_loop rest clearedCount
      | Some t =>
          if in_progress (status t) then
            recordings_update (id recording)
              (finalizeError t "Cleared by user") ;;
            clearAll_loop rest (S clearedCount)
          else clearAll_loop rest clearedCount
      end
  end.

(** [clearAllInProgressTranscriptions]. *)
Definition clearAllInProgressTranscriptions : M nat :=
  allRecordings <- get_recordings ;;
  clearAll_loop allRecordings 0.

End Program.

(** ** Reading the log *)

(** What [checkStatus] of the adapter makes of the answer to its request;
    [adapter_checkStatus_run] below shows that it does. *)
Definition poll_result (answer : Outcome (Response AssemblyAITranscriptResponse))
    : TranscriptionStatusResult :=
  let failed e :=
    {| sr_status := StError; sr_text := None;
       sr_error := Some (message_or "Failed to check status" e) |} in
  match answer with
  | Throw e => failed e
  | Ok response =>
      if ok response then
        match body_json response with
        | Ok data =>
            {| sr_status := mapStatus (data_status data);
               sr_text := formattedText data;
               sr_error := data_error data |}
        | Throw e => failed e
        end
      else
        match body_text response with
        | Ok errorBody =>
            failed (ErrorObj ("API error: " ++ String_of_Z (http_status response)
                                ++ " " ++ statusText response ++ " - " ++ errorBody))
        | Throw e => failed e
        end
  end.

(** What the submit operation returns when a step of it throws [e]. *)
Definition submit_failed (e : Thrown) : TranscriptionResult :=
  {| res_jobId := None; res_status := StError; res_text := None;
     res_error := Some (message_or "Transcription failed" e) |}.

(** The failure of the submission, if the upload or the transcript request
    fails: what [uploadFile] or else [createTranscript] throws. *)
Definition submission_error (net : Network) (adapter : AssemblyAIAdapter)
    (b : Blob) (options : option TranscriptionOptions) (w : World)
    : option Thrown :=
  match uploadFile net adapter b w with
  | (Throw e, _) => Some e
  | (Ok uploadUrl, w1) =>
      match fst (createTranscript net adapter uploadUrl options w1) with
      | Throw e => Some e
      | Ok _ => None
      end
  end.

(** The first write of [transcribe], made at time [now]. *)
Definition submitting (adapter : AssemblyAIAdapter) (now : Z) : TranscriptionData :=
  {| status := StProcessing; text := None; error := None;
     service := name adapter; jobId := None;
     startedAt := Some now; completedAt := None |}.

(** A run that touches nothing but the log, where it adds requests only. *)
Definition requests_only (w w' : World) : Prop :=
  recordings w' = recordings w /\ settings w' = settings w /\
  clock w' = clock w /\
  exists new, trace w' = (new ++ trace w)%list /\ forallb is_fetch new = true.

(** The store after the writes of a piece of log (newest first). *)
Fixpoint replay (new : list Event) (rs : list Recording) : list Recording :=
  match new with
  | [] => rs
  | EvUpdate i t :: older => store_update i t (replay older rs)
  | _ :: older => replay older rs
  end.

(** A run that leaves the settings alone, adds [new] to the log, every event
    of it satisfying [P], and changes the store by the writes of [new] only. *)
Definition extends_by (P : Event -> Prop) (w w' : World) : Prop :=
  settings w' = settings w /\
  exists new,
    trace w' = (new ++ trace w)%list /\
    recordings w' = replay new (recordings w) /\
    Forall P new.

(** What a polling loop on the snapshot [t] of [recording] adds to the log:
    polls of the job of [t], waits of five seconds, and writes to the
    recording of either the merge of [t] with a poll result or [t] finalized
    as an error. *)
Definition loop_event (net : Network) (recording : Recording)
    (t : TranscriptionData) (e : Event) : Prop :=
  match e with
  | EvFetch q => exists key jid, q = GetTranscript key jid /\ jobId t = Some jid
  | EvUpdate i t' =>
      i = id recording /\
      ((exists n key jid now,
          t' = mergeStatus t (poll_result (net_poll net n key jid)) now) \/
       (exists msg, t' = finalizeError t msg))
  | EvSleep ms => ms = 5000%Z
  end.

(** What the one-shot [checkStatus] on the snapshot [t] adds to the log: a
    poll and the write of the merge. *)
Definition check_event (net : Network) (recording : Recording)
    (t : TranscriptionData) (e : Event) : Prop :=
  match e with
  | EvFetch q => exists key jid, q = GetTranscript key jid /\ jobId t = Some jid
  | EvUpdate i t' =>
      i = id recording /\
      exists n key jid now,
        t' = mergeStatus t (poll_result (net_poll net n key jid)) now
  | EvSleep _ => False
  end.

(** A recording whose job is [processing] or [pending]. *)
Definition job_in_progress (r : Recording) : bool :=
  match transcription r with
  | Some t => in_progress (status t)
  | None => false
  end.

(** The recording with its job, if in progress, finalized as cleared. *)
Definition clear_record (r : Recording) : Recording :=
  match transcription r with
  | Some t =>
      if in_progress (status t)
      then with_transcription r (finalizeError t "Cleared by user")
      else r
  | None => r
  end.

(** The events a run added to the log, oldest first. *)
Definition emitted (before after : World) : list Event :=
  rev (firstn (List.length (trace after) - List.length (trace before)) (trace after)).

(** The transcriptions written, in the order of a list of events. *)
Fixpoint writes (evs : list Event) : list TranscriptionData :=
  match evs with
  | [] => []
  | EvUpdate _ t :: rest => t :: writes rest
  | _ :: rest => writes rest
  end.

Definition lookup (i : string) (rs : list Recording) : option Recording :=
  find (has_id i) rs.

(** The stored transcription of recording [i]. *)
Definition stored (i : string) (w : World) : option TranscriptionData :=
  match lookup i (recordings w) with
  | Some r => transcription r
  | None => None
  end.

(** Whether [needle] occurs in [s]. *)
Fixpoint contains (needle s : string) : bool :=
  if prefix needle s then true
  else match s with
       | EmptyString => false
       | String _ rest => contains needle rest
       end.

(** ** The invariant of a job and the reachable stores *)

Definition isSome {A} (o : option A) : bool :=
  match o with Some _ => true | None => false end.

(** [completedAt] is set exactly when the status is [completed]. *)
Definition completed_iff (t : TranscriptionData) : Prop :=
  isSome (completedAt t) = true <-> status t = StCompleted.

Definition recording_ok (r : Recording) : Prop :=
  forall t, transcription r = Some t -> completed_iff t.

(** A log event whose write, if it is one, satisfies the invariant. *)
Definition event_ok (e : Event) : Prop :=
  match e with
  | EvUpdate _ t => completed_iff t
  | _ => True
  end.

(** The calls a page makes to the manager. *)
Inductive ManagerOp : Type :=
| OpTranscribe (recording : Recording) (options : option TranscriptionOptions)
| OpRetry (recording : Recording) (options : option TranscriptionOptions)
| OpCheckStatus (recording : Recording)
| OpResumePolling (recording : Recording)
| OpClearTimedOut
| OpClearAllInProgress.

Definition op_argument (op : ManagerOp) : option Recording :=
  match op with
  | OpTranscribe r _ | OpRetry r _ | OpCheckStatus r | OpResumePolling r => Some r
  | OpClearTimedOut | OpClearAllInProgress => None
  end.

Definition run_op (net : Network) (op : ManagerOp) (w : World) : World :=
  match op with
  | OpTranscribe r o => snd (transcribe net r o w)
  | OpRetry r o => snd (retryTranscription net r o w)
  | OpCheckStatus r => snd (checkStatus net r w)
  | OpResumePolling r => snd (resumePolling net r w)
  | OpClearTimedOut => snd (clearTimedOutTranscriptions w)
  | OpClearAllInProgress => snd (clearAllInProgressTranscriptions w)
  end.

(** [reachable net seen w]: the world [w] is reached from a store of fresh
    recordings ([createRecording] sets no transcription) by manager calls,
    each on a recording the page read from the store at some earlier moment
    ([seen] collects them, so stale snapshots are allowed), interleaved with
    the passing of time, changes of the settings and additions and deletions
    of recordings. *)
Inductive reachable (net : Network) : list Recording -> World -> Prop :=
| reach_init w :
    (forall r, In r (recordings w) -> transcription r = None) ->
    trace w = [] ->
    reachable net (recordings w) w
| reach_op seen w op :
    reachable net seen w ->
    (forall r, op_argument op = Some r -> In r seen) ->
    reachable net (recordings (run_op net op w) ++ seen) (run_op net op w)
| reach_tick seen w later :
    reachable net seen w ->
    (clock w <= later)%Z ->
    reachable net seen
      {| recordings := recordings w; settings := settings w;
         clock := later; trace := trace w |}
| reach_settings seen w s :
    reachable net seen w ->
    reachable net seen
      {| recordings := recordings w; settings := s;
         clock := clock w; trace := trace w |}
| reach_add seen w r :
    reachable net seen w ->
    transcription r = None ->
    reachable net (r :: seen)
      {| recordings := r :: recordings w; settings := settings w;
         clock := clock w; trace := trace w |}
| reach_delete seen w i :
    reachable net seen w ->
    reachable net seen
      {| recordings := filter (fun r => negb (has_id i r)) (recordings w);
         settings := settings w; clock := clock w; trace := trace w |}.

(** ** The formatting the specification describes *)

(** Stable insertion sort of the utterances by start time. *)
Fixpoint insertByStart (u : AssemblyAIUtterance) (us : list AssemblyAIUtterance)
    : list AssemblyAIUtterance :=
  match us with
  | [] => [u]
  | v :: rest =>
      if (start u <=? start v)%Z then u :: v :: rest
      else v :: insertByStart u rest
  end.

Fixpoint sortByStart (us : list AssemblyAIUtterance) : list AssemblyAIUtterance :=
  match us with
  | [] => []
  | u :: rest => insertByStart u (sortByStart rest)
  end.

(** The text block with its segments ordered by utterance start time. *)
Definition spec_formatUtterances (us : list AssemblyAIUtterance) : string :=
  formatUtterances (sortByStart us).

Inductive sortedByStart : list AssemblyAIUtterance -> Prop :=
| sorted_nil : sortedByStart []
| sorted_one u : sortedByStart [u]
| sorted_cons u v rest :
    (start u <= start v)%Z -> sortedByStart (v :: rest) ->
    sortedByStart (u :: v :: rest).

Definition digit (d : Z) : ascii := ascii_of_nat (48 + Z.to_nat d).

(** A field of exactly two decimal digits. *)
Definition two_digits (n : Z) : string :=
  String (digit (n / 10)) (String (digit (n mod 10)) EmptyString).

(** [H:MM:SS] from one hour on, [M:SS] below, of the whole seconds in [ms]. *)
Definition spec_timestamp (ms : Z) : string :=
  let total := (ms / 1000)%Z in
  let h := (total / 3600)%Z in
  let m := ((total mod 3600) / 60)%Z in
  let s := (total mod 60)%Z in
  if (3600000 <=? ms)%Z then
    String_of_Z h ++ ":" ++ two_digits m ++ ":" ++ two_digits s
  else
    String_of_Z m ++ ":" ++ two_digits s.

(** ** Sample data *)

Definition sample_blob : Blob := {| blob_type := "audio/webm"; blob_size := 1024 |}.

Definition sample_settings : TranscriptionSettings :=
  {| enabled := true; autoTranscribe := true; settings_service := "assemblyai";
     assemblyAIKey := "key"; language := "auto"; speaker_labels := true;
     speakers_expected := 2; enableLiveTranscription := true |}.

Definition sample_recording (i : string) (t : option TranscriptionData) : Recording :=
  {| id := i; filename := "recording.webm"; blob := sample_blob;
     mimeType := "audio/webm"; size := 1024; duration := 60; createdAt := 0;
     isDownloaded := false; recordingMode := AudioOnly;
     liveTranscription := None; transcription := t |}.

Definition sample_job (s : TranscriptionStatus) (started : option Z) : TranscriptionData :=
  {| status := s; text := None; error := None; service := "AssemblyAI";
     jobId := Some "j1"; startedAt := started; completedAt := None |}.

(** A recording whose job was submitted at time 0 and is still processing. *)
Definition recording_in_progress : Recording :=
  sample_recording "r2" (Some (sample_job StProcessing (Some 0%Z))).

(** The same with no [startedAt]. *)
Definition recording_undated : Recording :=
  sample_recording "r3" (Some (sample_job StPending None)).

(** A recording whose job is done. *)
Definition recording_done : Recording :=
  sample_recording "r4"
    (Some {| status := StCompleted; text := Some "hello"; error := None;
             service := "AssemblyAI"; jobId := Some "j4";
             startedAt := Some 0%Z; completedAt := Some 9000%Z |}).

Definition sample_world (rs : list Recording) (now : Z) : World :=
  {| recordings := rs; settings := sample_settings; clock := now; trace := [] |}.

Definition http_ok {J} (data : J) : Outcome (Response J) :=
  Ok {| ok := true; http_status := 200; statusText := "OK";
        body_text := Ok ""; body_json := Ok data |}.

Definition http_error {J} (code : Z) (reason body : string) : Outcome (Response J) :=
  Ok {| ok := false; http_status := code; statusText := reason;
        body_text := Ok body; body_json := Throw (ErrorObj "Unexpected token") |}.

Definition poll_data (s : string) (t : option string) : AssemblyAITranscriptResponse :=
  {| data_id := "j1"; data_status := s; data_text := t; data_error := None;
     data_utterances := None; data_speaker_labels := None |}.

Definition utterance_a : AssemblyAIUtterance :=
  {| speaker := "A"; utt_text := "hello"; start := 0; end_ := 4200 |}.

Definition utterance_b : AssemblyAIUtterance :=
  {| speaker := "B"; utt_text := "good morning"; start := 5000; end_ := 3661000 |}.

(** A provider that accepts every upload and submission and answers every
    poll with [poll n]. *)
Definition provider (poll : nat -> AssemblyAITranscriptResponse) : Network :=
  {| net_upload := fun _ _ _ _ => http_ok {| upload_url := "https://cdn/u1" |};
     net_transcript := fun _ _ _ => http_ok (poll_data "queued" None);
     net_poll := fun n _ _ => http_ok (poll n) |}.

(** A provider that refuses the upload. *)
Definition net_upload_refused : Network :=
  {| net_upload := fun _ _ _ _ => http_error 401 "Unauthorized" "";
     net_transcript := fun _ _ _ => http_ok (poll_data "queued" None);
     net_poll := fun _ _ _ => http_ok (poll_data "processing" None) |}.

(** A provider stuck on [processing]. *)
Definition net_stuck : Network := provider (fun _ => poll_data "processing" None).

(** A provider whose first poll carries a partial text and whose second
    poll carries none. *)
Definition net_partial : Network :=
  provider (fun n =>
    match n with
    | O => poll_data "processing" (Some "partial")
    | _ => poll_data "completed" None
    end).

(** ** More of the manager and of the settings store *)

(** [TranscriptionManager.isAvailable]: [this.getAdapter() !== null]. *)
Definition isAvailable : M bool :=
  adapter <- getAdapter ;;
  ret (isSome adapter).

(** [TranscriptionManager.getCurrentService]. *)
Definition getCurrentService : M (option string) :=
  currentSettings <- get_settings ;;
  ret (if enabled currentSettings
       then Some (settings_service currentSettings) else None).

(** [isTranscriptionReady] of the settings store ([settings.ts]). *)
Definition isTranscriptionReady (s : TranscriptionSettings) : bool :=
  enabled s && (settings_service s =? "assemblyai")
    && (0 <? String.length (assemblyAIKey s))%nat.

(** A job that [clearTimedOutTranscriptions] finalizes at time [now]. *)
Definition job_timed_out (now : Z) (r : Recording) : bool :=
  match transcription r with
  | Some t =>
      match in_progress (status t), startedAt t with
      | true, Some started => (timeoutMs <? now - started)%Z
      | _, _ => false
      end
  | None => false
  end.

(** The recording with its job, if timed out at [now], finalized. *)
Definition expire_record (now : Z) (r : Recording) : Recording :=
  match transcription r with
  | Some t =>
      if job_timed_out now r
      then with_transcription r (finalizeError t "Cleared - timed out")
      else r
  | None => r
  end.

(** The recordings an operation may write to: its argument, or any. *)
Definition op_event (op : ManagerOp) (e : Event) : Prop :=
  match e, op_argument op with
  | EvUpdate i _, Some r => i = id r
  | _, _ => True
  end.

(** An event that, if it is a write, goes to recording [i]. *)
Definition writes_to (i : string) (e : Event) : Prop :=
  match e with
  | EvUpdate j _ => j = i
  | _ => True
  end.


(** The recordings of a store other than [i], in order. *)
Definition others (i : string) (rs : list Recording) : list Recording :=
  filter (fun r => negb (has_id i r)) rs.

(** ** The rest of the recordings store and the automatic cleanup
    ([recordings.ts], [indexeddb.ts], [storage-cleanup.ts]) *)

Definition with_recordings (rs : list Recording) (w : World) : World :=
  {| recordings := rs; settings := settings w; clock := clock w;
     trace := trace w |}.

(** [recordings.add]: [db.saveRecording], then the recording goes first. *)
Definition recordings_add (recording : Recording) : M unit :=
  fun w => (Ok tt, with_recordings (recording :: recordings w) w).

(** [recordings.delete]. *)
Definition recordings_delete (i : string) : M unit :=
  fun w => (Ok tt,
            with_recordings (filter (fun r => negb (id r =? i)) (recordings w)) w).

(** [ids.includes(x)]. *)
Definition includes (ids : list string) (x : string) : bool :=
  existsb (String.eqb x) ids.

(** [recordings.deleteMultiple]. *)
Definition recordings_deleteMultiple (ids : list string) : M unit :=
  fun w => (Ok tt,
            with_recordings
              (filter (fun r => negb (includes ids (id r))) (recordings w)) w).

(** [recordings.clear]. *)
Definition recordings_clear : M unit :=
  fun w => (Ok tt, with_recordings [] w).

(** [Array.prototype.sort] is stable, so with a comparator that orders by a
    key its result is the stable insertion sort by that key. Here: by
    [createdAt], newest first ([b.createdAt - a.createdAt]). *)
Fixpoint insertNewest (r : Recording) (sorted : list Recording) : list Recording :=
  match sorted with
  | [] => [r]
  | x :: rest =>
      if (createdAt x <=? createdAt r)%Z then r :: x :: rest
      else x :: insertNewest r rest
  end.

Fixpoint sortNewest (rs : list Recording) : list Recording :=
  match rs with
  | [] => []
  | r :: rest => insertNewest r (sortNewest rest)
  end.

(** [db.getAll]: the records of the object store in the order of their key,
    the id. *)
Fixpoint insertByKey (r : Recording) (sorted : list Recording) : list Recording :=
  match sorted with
  | [] => [r]
  | x :: rest =>
      if (id r <=? id x)%string then r :: x :: rest
      else x :: insertByKey r rest
  end.

Fixpoint keyOrder (rs : list Recording) : list Recording :=
  match rs with
  | [] => []
  | r :: rest => insertByKey r (keyOrder rest)
  end.

(** [db.getAllRecordings]. *)
Definition getAllRecordings : M (list Recording) :=
  fun w => (Ok (sortNewest (keyOrder (recordings w))), w).

(** [db.getTotalStorageSize]. *)
Definition getTotalStorageSize : M Z :=
  all <- getAllRecordings ;;
  ret (fold_left (fun total recording => (total + size recording)%Z) all 0%Z).

(** [recordings.load]. *)
Definition recordings_load : M unit :=
  all <- getAllRecordings ;;
  fun w => (Ok tt, with_recordings all w).

Record StorageSettings : Type := {
  autoDeleteAfterDays : option Z;
  autoDeleteAfterDownload : bool;
  keepOnlyLastN : option Z
}.

(** [Set.prototype.add] on a set kept in insertion order. *)
Definition Set_add (x : string) (s : list string) : list string :=
  if includes s x then s else (s ++ [x])%list.

(** [all.forEach(r => { if (p(r)) toDelete.add(r.id) })]. *)
Definition forEach_add (p : Recording -> bool) (all : list Recording)
    (toDelete : list string) : list string :=
  fold_left (fun s r => if p r then Set_add (id r) s else s) all toDelete.

Section Cleanup.

(** [d.setDate(d.getDate() - days)] on a copy of [now]: the same local time
    of day [days] calendar days earlier, which is the platform's to compute. *)
Variable daysBefore : Z -> Z -> Z.

(** [getRecordingsToDeleteIds], at time [now]. *)
Definition getRecordingsToDeleteIds (now : Z) (allRecordings : list Recording)
    (s : StorageSettings) : list string :=
  let toDelete := [] in
  let toDelete :=
    match autoDeleteAfterDays s with
    | Some days =>
        if (0 <? days)%Z then
          let cutoffDate := daysBefore now days in
          forEach_add (fun r => (createdAt r <? cutoffDate)%Z) allRecordings toDelete
        else toDelete
    | None => toDelete
    end in
  let toDelete :=
    if autoDeleteAfterDownload s
    then forEach_add isDownloaded allRecordings toDelete
    else toDelete in
  match keepOnlyLastN s with
  | Some n =>
      if (0 <? n)%Z then
        let sorted := sortNewest allRecordings in
        forEach_add (fun _ => true) (skipn (Z.to_nat n) sorted) toDelete
      else toDelete
  | None => toDelete
  end.

(** [runAutoCleanup]. *)
Definition runAutoCleanup (storageSettings : StorageSettings) : M nat :=
  allRecordings <- getAllRecordings ;;
  now <- Date_now ;;
  let toDelete := getRecordingsToDeleteIds now allRecordings storageSettings in
  (if (0 <? List.length toDelete)%nat
   then recordings_deleteMultiple toDelete
   else ret tt) ;;
  ret (List.length toDelete).

(** [getRecordingsToDelete]. *)
Definition getRecordingsToDelete (storageSettings : StorageSettings)
    : M (list Recording) :=
  allRecordings <- getAllRecordings ;;
  now <- Date_now ;;
  let toDelete := getRecordingsToDeleteIds now allRecordings storageSettings in
  ret (filter (fun r => includes toDelete (id r)) allRecordings).

End Cleanup.

(** A list of recordings ordered newest first. *)
Inductive newestFirst : list Recording -> Prop :=
| newest_nil : newestFirst []
| newest_cons r l :
    (forall x, In x l -> (createdAt x <= createdAt r)%Z) ->
    newestFirst l -> newestFirst (r :: l).

(** A rule of the cleanup that is switched on with the positive value [n]. *)
Definition rule_on (o : option Z) (n : Z) : Prop := o = Some n /\ (0 < n)%Z.

(** A rule of the cleanup that is off: [null], or a value that is not
    positive. *)
Definition rule_off (o : option Z) : Prop :=
  match o with
  | Some n => (n <= 0)%Z
  | None => True
  end.

(** Sample data for the cleanup. *)
Definition dated_recording (i : string) (created : Z) (downloaded : bool)
    : Recording :=
  {| id := i; filename := "recording.webm"; blob := sample_blob;
     mimeType := "audio/webm"; size := 1024; duration := 60;
     createdAt := created; isDownloaded := downloaded;
     recordingMode := AudioOnly; liveTranscription := None;
     transcription := None |}.

Definition sample_store : list Recording :=
  [dated_recording "a" 10 true; dated_recording "b" 30 false;
   dated_recording "c" 20 false].

(** Calendar days as 24 hours each (no change of the clock in between). *)
Definition plain_daysBefore (now days : Z) : Z := (now - days * 86400000)%Z.

Definition keep_two : StorageSettings :=
  {| autoDeleteAfterDays := None; autoDeleteAfterDownload := false;
     keepOnlyLastN := Some 2%Z |}.

Definition keep_zero : StorageSettings :=
  {| autoDeleteAfterDays := Some 0%Z; autoDeleteAfterDownload := false;
     keepOnlyLastN := Some 0%Z |}.

(** ** Codecs and file names ([formats.ts], [recorder.ts], [download.ts]) *)

Record CodecOption : Type := {
  value : string;
  label : string;
  codec_mimeType : string
}.

Definition audioCodecs : list CodecOption :=
  [ {| value := "opus"; label := "Opus (Recommended)";
       codec_mimeType := "audio/webm;codecs=opus" |};
    {| value := "aac"; label := "AAC";
       codec_mimeType := "audio/mp4;codecs=mp4a.40.2" |} ].

Definition videoCodecs : list CodecOption :=
  [ {| value := "vp9"; label := "VP9 (Best quality)";
       codec_mimeType := "video/webm;codecs=vp9,opus" |};
    {| value := "vp8"; label := "VP8 (Better compatibility)";
       codec_mimeType := "video/webm;codecs=vp8,opus" |};
    {| value := "h264"; label := "H.264 (Universal)";
       codec_mimeType := "video/webm;codecs=h264,opus" |} ].

(** The codecs are the strings the configuration carries; [videoCodec] and
    [videoBitrate] are optional. *)
Record RecordingConfig : Type := {
  mode : RecordingMode;
  videoCodec : option string;
  audioCodec : string;
  audioBitrate : Z;
  videoBitrate : option Z
}.

(** [getMimeType]. *)
Definition getMimeType (config : RecordingConfig) : string :=
  let codec :=
    find (fun c => match videoCodec config with
                   | Some v => value c =? v
                   | None => false
                   end) videoCodecs in
  match codec with
  | Some c =>
      if codec_mimeType c =? "" then "video/webm;codecs=vp8,opus"
      else codec_mimeType c
  | None => "video/webm;codecs=vp8,opus"
  end.

(** [getFileExtension]. *)
Definition getFileExtension (mime : string) : string :=
  if contains "mp4" mime then "mp4" else "webm".

Section Codecs.

(** [MediaRecorder.isTypeSupported], or nothing where [MediaRecorder] is not
    defined. *)
Variable MediaRecorder_isTypeSupported : option (string -> bool).

(** [checkCodecSupport]. *)
Definition checkCodecSupport (mime : string) : bool :=
  match MediaRecorder_isTypeSupported with
  | None => false
  | Some isTypeSupported => isTypeSupported mime
  end.

(** [getSupportedAudioCodecs] and [getSupportedVideoCodecs]. *)
Definition getSupportedAudioCodecs : list CodecOption :=
  filter (fun codec => checkCodecSupport (codec_mimeType codec)) audioCodecs.

Definition getSupportedVideoCodecs : list CodecOption :=
  filter (fun codec => checkCodecSupport (codec_mimeType codec)) videoCodecs.

(** [getDefaultSupportedAudioCodec] and [getDefaultSupportedVideoCodec]. *)
Definition getDefaultSupportedAudioCodec : string :=
  match getSupportedAudioCodecs with
  | c :: _ => value c
  | [] => "opus"
  end.

Definition getDefaultSupportedVideoCodec : string :=
  match getSupportedVideoCodecs with
  | c :: _ => value c
  | [] => "vp8"
  end.

End Codecs.

(** [s.replace(/[:.]/g, '-')]. *)
Fixpoint replace_colons_dots (s : string) : string :=
  match s with
  | EmptyString => EmptyString
  | String c rest =>
      String (if (c =? ":")%char || (c =? ".")%char then "-"%char else c)
        (replace_colons_dots rest)
  end.

(** [s.slice(0, -n)]: all but the last [n] characters. *)
Definition drop_last (n : nat) (s : string) : string :=
  substring 0 (String.length s - n) s.

(** [createRecording], given what [new Date()], its [toISOString()] and
    [crypto.randomUUID()] return. *)
Definition createRecording (now : Z) (iso uuid : string) (b : Blob)
    (config : RecordingConfig) (seconds : Z) : Recording :=
  let mime := getMimeType config in
  let extension := getFileExtension mime in
  let timestamp := drop_last 5 (replace_colons_dots iso) in
  {| id := uuid;
     filename := "recording-" ++ timestamp ++ "." ++ extension;
     blob := b;
     mimeType := mime;
     size := blob_size b;
     duration := seconds;
     createdAt := now;
     isDownloaded := false;
     recordingMode := mode config;
     liveTranscription := None;
     transcription := None |}.

(** [s.split('.')]: the pieces between the dots, never an empty list. *)
Fixpoint split_dots (s : string) : list string :=
  match s with
  | EmptyString => [EmptyString]
  | String c rest =>
      if (c =? ".")%char then EmptyString :: split_dots rest
      else match split_dots rest with
           | piece :: pieces => String c piece :: pieces
           | [] => [String c EmptyString]
           end
  end.

(** [getExtension] of the download helpers. *)
Definition getExtension (name : string) : string :=
  let parts := split_dots name in
  if (1 <? List.length parts)%nat then last parts "webm" else "webm".

(** ** Formatters ([formatters.ts]) *)

(** [pad]. *)
Definition pad (num : Z) : string := padStart 2 "0" (String_of_Z num).

(** [formatDuration]. *)
Definition formatDuration (seconds : Z) : string :=
  let hours := js_floor_div seconds 3600 in
  let minutes := js_floor_div (js_rem seconds 3600) 60 in
  let secs := js_rem seconds 60 in
  if (0 <? hours)%Z then
    String_of_Z hours ++ ":" ++ pad minutes ++ ":" ++ pad secs
  else
    String_of_Z minutes ++ ":" ++ pad secs.

(** What the getters of a [Date] return in the local time zone. *)
Record DateParts : Type := {
  getMonth : nat;
  getDate : Z;
  getFullYear : Z;
  getHours : Z;
  getMinutes : Z
}.

Definition months : list string :=
  ["Jan"; "Feb"; "Mar"; "Apr"; "May"; "Jun";
   "Jul"; "Aug"; "Sep"; "Oct"; "Nov"; "Dec"].

(** [formatDate]. An index outside [months] reads [undefined]. *)
Definition formatDate (date : DateParts) : string :=
  let month := nth (getMonth date) months "undefined" in
  let day := getDate date in
  let year := getFullYear date in
  let hours := getHours date in
  let minutes := getMinutes date in
  let ampm := if (12 <=? hours)%Z then "PM" else "AM" in
  let hours := js_rem hours 12 in
  let hours := if (hours =? 0)%Z then 12%Z else hours in
  month ++ " " ++ String_of_Z day ++ ", " ++ String_of_Z year ++ " at "
    ++ String_of_Z hours ++ ":" ++ pad minutes ++ " " ++ ampm.

(** [formatRelativeTime] at time [now] of a date with time value [time]
    and local parts [date]. *)
Definition formatRelativeTime (now time : Z) (date : DateParts) : string :=
  let diffMs := (now - time)%Z in
  let diffSecs := js_floor_div diffMs 1000 in
  let diffMins := js_floor_div diffSecs 60 in
  let diffHours := js_floor_div diffMins 60 in
  let diffDays := js_floor_div diffHours 24 in
  if (diffSecs <? 60)%Z then "Just now"
  else if (diffMins <? 60)%Z then
    String_of_Z diffMins ++ " minute"
      ++ (if negb (diffMins =? 1)%Z then "s" else "") ++ " ago"
  else if (diffHours <? 24)%Z then
    String_of_Z diffHours ++ " hour"
      ++ (if negb (diffHours =? 1)%Z then "s" else "") ++ " ago"
  else if (diffDays =? 1)%Z then "Yesterday"
  else if (diffDays <? 7)%Z then String_of_Z diffDays ++ " days ago"
  else formatDate date.

(** A string without the character [c]. *)
Fixpoint without (c : ascii) (s : string) : bool :=
  match s with
  | EmptyString => true
  | String x rest => negb (x =? c)%char && without c rest
  end.

Definition sample_config : RecordingConfig :=
  {| mode := ScreenAudio; videoCodec := Some "h264"; audioCodec := "aac";
     audioBitrate := 128; videoBitrate := Some 2500%Z |}.

(** ** Live speech recognition ([live-speech.ts]) *)

(** A [SpeechRecognitionResult]: whether it is final, and the transcript of
    its first alternative. *)
Record SpeechResult : Type := {
  isFinal : bool;
  result_transcript : string
}.

(** The [for] loop of the [onresult] handler over the results from
    [resultIndex] on: the final and the interim text it collects. *)
Fixpoint collect_results (results : list SpeechResult)
    (interimTranscript finalTranscript : string) : string * string :=
  match results with
  | [] => (interimTranscript, finalTranscript)
  | result :: rest =>
      if isFinal result then
        collect_results rest interimTranscript
          (finalTranscript ++ result_transcript result ++ " ")
      else
        collect_results rest (interimTranscript ++ result_transcript result)
          finalTranscript
  end.

(** The [onresult] handler on [this.transcript]: the new [this.transcript]
    and the text passed to [onTranscriptUpdate]. *)
Definition onresult (results : list SpeechResult) (resultIndex : nat)
    (transcript : string) : string * string :=
  let (interimTranscript, finalTranscript) :=
    collect_results (skipn resultIndex results) "" "" in
  let transcript :=
    if finalTranscript =? "" then transcript else transcript ++ finalTranscript in
  (transcript, transcript ++ interimTranscript).

(** ** The timing of the recorder ([recorder.ts]) *)

(** [MediaRecorder.state]. *)
Inductive RecordingState : Type := Inactive | Recording_ | Paused.

(** The fields of [ScreenRecorder] that keep the time, with the state of its
    [MediaRecorder] ([None] while there is none). [pause()] and [resume()]
    of a [MediaRecorder] switch its state to paused and back to recording. *)
Record ScreenRecorder : Type := {
  mediaRecorder : option RecordingState;
  startTime : Z;
  pausedTime : Z;
  totalPausedDuration : Z
}.

(** The recorder after a successful [start] at time [now]. *)
Definition recorder_started (now : Z) : ScreenRecorder :=
  {| mediaRecorder := Some Recording_; startTime := now;
     pausedTime := 0; totalPausedDuration := 0 |}.

(** [ScreenRecorder.pause] at time [now]. *)
Definition recorder_pause (now : Z) (this : ScreenRecorder) : ScreenRecorder :=
  match mediaRecorder this with
  | Some Recording_ =>
      {| mediaRecorder := Some Paused; startTime := startTime this;
         pausedTime := now; totalPausedDuration := totalPausedDuration this |}
  | _ => this
  end.

(** [ScreenRecorder.resume] at time [now]. *)
Definition recorder_resume (now : Z) (this : ScreenRecorder) : ScreenRecorder :=
  match mediaRecorder this with
  | Some Paused =>
      if (0 <? pausedTime this)%Z then
        {| mediaRecorder := Some Recording_; startTime := startTime this;
           pausedTime := 0;
           totalPausedDuration :=
             (totalPausedDuration this + (now - pausedTime this))%Z |}
      else
        {| mediaRecorder := Some Recording_; startTime := startTime this;
           pausedTime := pausedTime this;
           totalPausedDuration := totalPausedDuration this |}
  | _ => this
  end.

(** [ScreenRecorder.getDuration] at time [now]. *)
Definition getDuration (now : Z) (this : ScreenRecorder) : Z :=
  if (startTime this =? 0)%Z then 0%Z
  else
    let elapsed := (now - startTime this - totalPausedDuration this)%Z in
    js_floor_div elapsed 1000.

(** A run of pauses: each pair is the time of a [pause()] and the time of
    the [resume()] that follows it. *)
Fixpoint pause_resume (pauses : list (Z * Z)) (this : ScreenRecorder)
    : ScreenRecorder :=
  match pauses with
  | [] => this
  | (paused, resumed) :: rest =>
      pause_resume rest (recorder_resume resumed (recorder_pause paused this))
  end.

(** The time spent in the pauses. *)
Fixpoint paused_total (pauses : list (Z * Z)) : Z :=
  match pauses with
  | [] => 0%Z
  | (paused, resumed) :: rest => (resumed - paused + paused_total rest)%Z
  end.

(** ** Reading the log: failures, waits and the poll behind a write *)

(** A result of the submit operation that reports the failure [msg]. *)
Definition reports_failure (result : TranscriptionResult) (msg : string) : Prop :=
  res_status result = StError /\ res_jobId result = None /\
  res_error result = Some msg.

Definition is_sleep (e : Event) : bool :=
  match e with
  | EvSleep _ => true
  | _ => false
  end.

(** Number of waits in a piece of log. *)
Definition waits (tr : list Event) : nat := List.length (filter is_sleep tr).

(** A piece of log (newest first) in which every request but the oldest
    event comes right after a wait of five seconds. *)
Fixpoint spaced (new : list Event) : bool :=
  match new with
  | [] => true
  | EvFetch _ :: older =>
      match older with
      | [] => true
      | EvSleep ms :: _ => (ms =? 5000)%Z && spaced older
      | _ => false
      end
  | _ :: older => spaced older
  end.

(** A write [t'] of a polling operation on the snapshot [t], read together
    with the events [earlier] that the operation logged before it (newest
    first) since it started in the world [w]: either the event right before
    the write is the poll of the job of [t], and [t'] is the merge of [t]
    with the answer to that very request (the request number
    [fetches (trace w) + fetches rest] of the session) at the time of the
    write; or [t'] is [t] finalized as an error. *)
Definition write_of_poll (net : Network) (t : TranscriptionData) (w : World)
    (earlier : list Event) (t' : TranscriptionData) : Prop :=
  (exists key jid rest,
     earlier = EvFetch (GetTranscript key jid) :: rest /\
     jobId t = Some jid /\
     t' = mergeStatus t
            (poll_result
               (net_poll net (fetches (trace w) + fetches rest)%nat key jid))
            (clock w + 5000 * Z.of_nat (waits rest))%Z) \/
  (exists msg, t' = finalizeError t msg).

(** The poll result a write was merged with carried no text (or an empty
    one); for a write that follows no poll this holds vacuously. *)
Definition poll_without_text (net : Network) (w : World)
    (earlier : list Event) : Prop :=
  forall key jid rest,
    earlier = EvFetch (GetTranscript key jid) :: rest ->
    truthy (sr_text (poll_result
      (net_poll net (fetches (trace w) + fetches rest)%nat key jid))) = false.

(** The transcription of recording [i] in the store after the writes of the
    events [evs] (newest first) on the store [rs]. *)
Definition stored_after (i : string) (evs : list Event) (rs : list Recording)
    : option TranscriptionData :=
  match lookup i (replay evs rs) with
  | Some r => transcription r
  | None => None
  end.

(** Every write of a piece of log, read with the events before it. *)
Fixpoint each_write (P : list Event -> string -> TranscriptionData -> Prop)
    (new : list Event) : Prop :=
  match new with
  | [] => True
  | EvUpdate i t' :: older => P older i t' /\ each_write P older
  | _ :: older => each_write P older
  end.

(** What a polling operation on the snapshot [t] of [recording], started in
    the world [w], adds to the log as writes: every write of [new] goes to
    the recording, is built from [t] and the poll made right before it, keeps
    the service and the job id of [t], and has the text of [t] when that poll
    carried none. When [t] is the job as stored in [w], the write therefore
    keeps the service and the job id that the store holds right before it,
    and the stored text too when the poll carried none, as long as no
    earlier write of [new] changed the text. *)
Definition merges_snapshot (net : Network) (recording : Recording)
    (t : TranscriptionData) (w : World) (new : list Event) : Prop :=
  forall later i t' earlier,
    new = (later ++ EvUpdate i t' :: earlier)%list ->
    i = id recording /\
    write_of_poll net t w earlier t' /\
    service t' = service t /\ jobId t' = jobId t /\
    (poll_without_text net w earlier -> text t' = text t) /\
    (stored (id recording) w = Some t ->
     exists previous,
       stored_after (id recording) earlier (recordings w) = Some previous /\
       service t' = service previous /\ jobId t' = jobId previous /\
       ((forall j u, In (EvUpdate j u) earlier -> text u = text t) ->
        poll_without_text net w earlier -> text t' = text previous)).

(** * Properties *)

(** ** The adapter's status mapping *)

(** C7. [mapStatus] is defined on every provider status string: it yields
    [processing] exactly on "queued" and "processing", [completed] exactly on
    "completed", [error] exactly on "error", and [pending] on every other
    string; so an unknown status is never mapped to [error]. *)
Theorem mapStatus_total (s : string) :
  (mapStatus s = StProcessing <-> s = "queued" \/ s = "processing") /\
  (mapStatus s = StCompleted <-> s = "completed") /\
  (mapStatus s = StError <-> s = "error") /\
  (mapStatus s = StPending <->
     s <> "queued" /\ s <> "processing" /\ s <> "completed" /\ s <> "error").
Proof.
  unfold mapStatus.
  destruct (String.eqb_spec s "completed") as [-> | Hc]; simpl.
  { repeat split; try discriminate; try tauto; intros [H | H]; discriminate. }
  destruct (String.eqb_spec s "error") as [-> | He]; simpl.
  { repeat split; try discriminate; try tauto; intros [H | H]; discriminate. }
  destruct (String.eqb_spec s "queued") as [-> | Hq]; simpl.
  { repeat split; try discriminate; try tauto. }
  destruct (String.eqb_spec s "processing") as [-> | Hp]; simpl.
  { repeat split; try discriminate; try tauto. }
  repeat split; try discriminate; try tauto.
Qed.

(** The examples of the specification: "queued" and "banana". *)
Lemma mapStatus_total_witness :
  mapStatus "queued" = StProcessing /\ mapStatus "banana" = StPending /\
  mapStatus "banana" <> StError.
Proof.
  split; [| split].
  - apply (proj1 (mapStatus_total "queued")). left. reflexivity.
  - apply (proj2 (proj2 (proj2 (mapStatus_total "banana")))).
    repeat split; discriminate.
  - intro H. apply (proj1 (proj1 (proj2 (proj2 (mapStatus_total "banana"))))) in H.
    discriminate H.
Defined.

(** ** Formatting *)

Lemma padStart_two_digits (n : nat) :
  (n < 60)%nat ->
  padStart 2 "0" (String_of_Z (Z.of_nat n)) = two_digits (Z.of_nat n).
Proof.
  intro H.
  do 60 (destruct n as [| n]; [reflexivity |]).
  lia.
Qed.

Lemma pad_field (x : Z) :
  (0 <= x < 60)%Z -> padStart 2 "0" (String_of_Z x) = two_digits x.
Proof.
  intro H. rewrite <- (Z2Nat.id x) by lia.
  apply padStart_two_digits. lia.
Qed.

(** On a millisecond offset that is not negative, [formatTimestamp] is the
    [H:MM:SS] / [M:SS] rendering of the whole seconds. *)
Lemma formatTimestamp_spec (ms : Z) :
  (0 <= ms)%Z -> formatTimestamp ms = spec_timestamp ms.
Proof.
  intro Hms. unfold formatTimestamp, spec_timestamp, js_floor_div, js_rem.
  assert (Ht : (0 <= ms / 1000)%Z) by (apply Z.div_pos; lia).
  rewrite !Z.rem_mod_nonneg by lia.
  assert (Hm : (0 <= (ms / 1000) mod 3600 / 60 < 60)%Z).
  { pose proof (Z.mod_pos_bound (ms / 1000) 3600 ltac:(lia)).
    split; [apply Z.div_pos; lia | apply Z.div_lt_upper_bound; lia]. }
  assert (Hs : (0 <= (ms / 1000) mod 60 < 60)%Z)
    by (apply Z.mod_pos_bound; lia).
  rewrite !pad_field by assumption.
  destruct (Z.leb_spec 3600000 ms) as [Hge | Hlt].
  - assert (3600 <= ms / 1000)%Z by (apply Z.div_le_lower_bound; lia).
    assert (1 <= ms / 1000 / 3600)%Z by (apply Z.div_le_lower_bound; lia).
    destruct (Z.ltb_spec 0 (ms / 1000 / 3600)); [reflexivity | lia].
  - assert (ms / 1000 < 3600)%Z by (apply Z.div_lt_upper_bound; lia).
    rewrite (Z.div_small (ms / 1000) 3600) by lia.
    reflexivity.
Qed.

Lemma sortByStart_sorted (us : list AssemblyAIUtterance) :
  sortedByStart us -> sortByStart us = us.
Proof.
  induction 1 as [| u | u v rest Hle Hs IH]; [reflexivity | reflexivity |].
  change (sortByStart (u :: v :: rest))
    with (insertByStart u (sortByStart (v :: rest))).
  rewrite IH. simpl.
  destruct (Z.leb_spec (start u) (start v)); [reflexivity | lia].
Qed.

(** C8 (amended). The adapter renders the utterances as one text block, in
    the order in which the provider lists them, the segments separated by a
    newline; this is the order of start times whenever the provider's list is
    in that order. Each segment opens with the header
    [[start - end] Speaker <label>:], where an offset that is not negative is
    shown as [H:MM:SS] from one hour on and as [M:SS] below, of the whole
    seconds of the millisecond value: 0 ms is "0:00", 65000 ms is "1:05" and
    3661000 ms is "1:01:01". *)
Theorem formatUtterances_provider_order (us : list AssemblyAIUtterance) :
  formatUtterances us = String.concat nl (map formatUtterance us) /\
  (forall u v rest,
     us = u :: v :: rest ->
     formatUtterances us = formatUtterance u ++ nl ++ formatUtterances (v :: rest)) /\
  (sortedByStart us -> formatUtterances us = spec_formatUtterances us) /\
  (forall u, In u us -> (0 <= start u)%Z -> (0 <= end_ u)%Z ->
     formatUtterance u =
       "[" ++ spec_timestamp (start u) ++ " - " ++ spec_timestamp (end_ u)
         ++ "] Speaker " ++ speaker u ++ ":" ++ nl ++ utt_text u ++ nl) /\
  formatTimestamp 0 = "0:00" /\
  formatTimestamp 65000 = "1:05" /\
  formatTimestamp 3661000 = "1:01:01".
Proof.
  split; [reflexivity |].
  split; [intros u v rest ->; reflexivity |].
  split.
  { intro Hs. unfold spec_formatUtterances. now rewrite sortByStart_sorted. }
  split.
  { intros u _ Hs He. unfold formatUtterance.
    now rewrite !formatTimestamp_spec by assumption. }
  repeat split.
Qed.

Lemma formatUtterances_provider_order_witness :
  sortedByStart [utterance_a; utterance_b] /\
  formatUtterances [utterance_a; utterance_b]
    = spec_formatUtterances [utterance_a; utterance_b] /\
  formatUtterance utterance_b
    = "[0:05 - 1:01:01] Speaker B:" ++ nl ++ "good morning" ++ nl.
Proof.
  assert (Hs : sortedByStart [utterance_a; utterance_b]).
  { apply sorted_cons; [simpl; lia | apply sorted_one]. }
  split; [exact Hs |].
  split.
  - exact (proj1 (proj2 (proj2
      (formatUtterances_provider_order [utterance_a; utterance_b]))) Hs).
  - rewrite (proj1 (proj2 (proj2 (proj2
      (formatUtterances_provider_order [utterance_a; utterance_b]))))
      utterance_b).
    + reflexivity.
    + simpl. right. left. reflexivity.
    + simpl. lia.
    + simpl. lia.
Defined.

(** C8 as stated fails: the provider's order is kept, also when it is not
    the order of start times. *)
Lemma formatUtterances_not_sorted :
  formatUtterances [utterance_b; utterance_a]
    <> spec_formatUtterances [utterance_b; utterance_a] /\
  formatUtterances [utterance_b; utterance_a]
    = formatUtterance utterance_b ++ nl ++ formatUtterance utterance_a.
Proof.
  split; [| reflexivity].
  vm_compute. discriminate.
Qed.

(** ** The adapter *)

Section Adapter.

Variable net : Network.

Lemma requests_only_refl w : requests_only w w.
Proof. repeat split. exists []. split; reflexivity. Qed.

Lemma requests_only_log r w : requests_only w (log (EvFetch r) w).
Proof. repeat split. exists [EvFetch r]. split; reflexivity. Qed.

Lemma requests_only_trans w1 w2 w3 :
  requests_only w1 w2 -> requests_only w2 w3 -> requests_only w1 w3.
Proof.
  intros (Hr1 & Hs1 & Hc1 & n1 & Ht1 & Hf1) (Hr2 & Hs2 & Hc2 & n2 & Ht2 & Hf2).
  repeat split; try congruence.
  exists (n2 ++ n1)%list. split.
  - rewrite Ht2, Ht1. now rewrite app_assoc.
  - rewrite forallb_app. now rewrite Hf1, Hf2.
Qed.

Lemma uploadFile_requests_only this b w :
  requests_only w (snd (uploadFile net this b w)).
Proof.
  unfold uploadFile, bind, fetch_upload, throw, await, ret.
  destruct (net_upload net _ _ _ _) as [response | e]; simpl;
    [| apply requests_only_log].
  destruct (ok response); simpl; [| apply requests_only_log].
  destruct (body_json response); simpl; apply requests_only_log.
Qed.

Lemma createTranscript_requests_only this url options w :
  requests_only w (snd (createTranscript net this url options w)).
Proof.
  unfold createTranscript, bind, fetch_transcript, throw, await, ret.
  destruct (net_transcript net _ _ _) as [response | e]; simpl;
    [| apply requests_only_log].
  destruct (ok response); simpl.
  - destruct (body_json response); simpl; apply requests_only_log.
  - destruct (body_text response); simpl; apply requests_only_log.
Qed.

(** The submit operation, case by case on its two requests. *)
Lemma adapter_transcribe_cases this b options w :
  adapter_transcribe net this b options w =
    match uploadFile net this b w with
    | (Throw e, w1) => (Ok (submit_failed e), w1)
    | (Ok uploadUrl, w1) =>
        match createTranscript net this uploadUrl options w1 with
        | (Throw e, w2) => (Ok (submit_failed e), w2)
        | (Ok transcriptId, w2) =>
            (Ok {| res_jobId := Some transcriptId; res_status := StProcessing;
                   res_text := None; res_error := None |}, w2)
        end
    end.
Proof.
  unfold adapter_transcribe, try_catch, bind, ret.
  destruct (uploadFile net this b w) as [[url | e] w1]; [| reflexivity].
  destruct (createTranscript net this url options w1) as [[jid | e] w2];
    reflexivity.
Qed.

Lemma adapter_transcribe_never_fails this b options w :
  exists result, fst (adapter_transcribe net this b options w) = Ok result.
Proof.
  rewrite adapter_transcribe_cases.
  destruct (uploadFile net this b w) as [[url | e] w1];
    [| eexists; reflexivity].
  destruct (createTranscript net this url options w1) as [[jid | e] w2];
    eexists; reflexivity.
Qed.

Lemma adapter_transcribe_requests_only this b options w :
  requests_only w (snd (adapter_transcribe net this b options w)).
Proof.
  rewrite adapter_transcribe_cases.
  pose proof (uploadFile_requests_only this b w) as H1.
  destruct (uploadFile net this b w) as [[url | e] w1]; simpl in *; [| exact H1].
  pose proof (createTranscript_requests_only this url options w1) as H2.
  destruct (createTranscript net this url options w1) as [[jid | e] w2];
    simpl in *; eapply requests_only_trans; eassumption.
Qed.

(** The status check sends one request and returns what [poll_result] makes
    of the answer; it never throws. *)
Lemma adapter_checkStatus_run this jid w :
  adapter_checkStatus net this jid w =
    (Ok (poll_result (net_poll net (fetches (trace w)) (apiKey this) jid)),
     log (EvFetch (GetTranscript (apiKey this) jid)) w).
Proof.
  unfold adapter_checkStatus, try_catch, bind, fetch_poll, throw, await, ret,
    poll_result.
  destruct (net_poll net _ _ _) as [response | e]; simpl; [| reflexivity].
  destruct (ok response); simpl.
  - destruct (body_json response); reflexivity.
  - destruct (body_text response); reflexivity.
Qed.

(** C9. The submit operation of the adapter never throws, whatever the
    network answers to its two requests. Read off the answers themselves:
    when the upload request is rejected, answered with a response that is
    not ok, or with a body that cannot be read, and likewise when the
    transcript request (sent next, on the URL the upload returned) is
    rejected, not ok or unreadable, the result has status [error], no job id
    and an error message - that of the thrown error, "Transcription failed"
    for a thrown value that is no error, "Upload failed: ..." or
    "Transcription request failed: ..." with the status of the response.
    When both are answered ok with readable bodies, the result has status
    [processing] and the job id of the provider. *)
Theorem adapter_transcribe_never_throws this (audioBlob : Blob)
    (options : option TranscriptionOptions) (w : World) :
  let n := fetches (trace w) in
  let contentType :=
    if blob_type audioBlob =? "" then "application/octet-stream"
    else blob_type audioBlob in
  exists result,
    fst (adapter_transcribe net this audioBlob options w) = Ok result /\
    match net_upload net n (apiKey this) contentType audioBlob with
    | Throw e => reports_failure result (message_or "Transcription failed" e)
    | Ok uploaded =>
        if negb (ok uploaded) then
          reports_failure result
            ("Upload failed: " ++ String_of_Z (http_status uploaded) ++ " "
               ++ statusText uploaded)
        else
          match body_json uploaded with
          | Throw e =>
              reports_failure result (message_or "Transcription failed" e)
          | Ok data =>
              match net_transcript net (S n) (apiKey this)
                      (transcript_body (upload_url data) options) with
              | Throw e =>
                  reports_failure result (message_or "Transcription failed" e)
              | Ok created =>
                  if negb (ok created) then
                    match body_text created with
                    | Throw e =>
                        reports_failure result
                          (message_or "Transcription failed" e)
                    | Ok errorBody =>
                        reports_failure result
                          ("Transcription request failed: "
                             ++ String_of_Z (http_status created) ++ " "
                             ++ statusText created ++ " - " ++ errorBody)
                    end
                  else
                    match body_json created with
                    | Throw e =>
                        reports_failure result
                          (message_or "Transcription failed" e)
                    | Ok answer =>
                        res_status result = StProcessing /\
                        res_jobId result = Some (data_id answer) /\
                        res_error result = None
                    end
              end
          end
    end.
Proof.
  cbv zeta.
  unfold adapter_transcribe, try_catch, bind, uploadFile, createTranscript,
    fetch_upload, fetch_transcript, bind, throw, await, ret, reports_failure.
  destruct (net_upload net _ _ _ _) as [uploaded | e]; cbn [fst snd];
    [| eexists; split; [reflexivity | repeat split]].
  destruct (ok uploaded); cbn [negb]; cbv beta iota;
    [| eexists; split; [reflexivity | repeat split]].
  destruct (body_json uploaded) as [data | e]; cbv beta iota;
    [| eexists; split; [reflexivity | repeat split]].
  change (fetches (trace (log (EvFetch
            (PostUpload (apiKey this)
               (if blob_type audioBlob =? "" then "application/octet-stream"
                else blob_type audioBlob) audioBlob)) w)))
    with (S (fetches (trace w))).
  destruct (net_transcript net _ _ _) as [created | e]; cbv beta iota;
    [| eexists; split; [reflexivity | repeat split]].
  destruct (ok created); cbn [negb]; cbv beta iota.
  - destruct (body_json created) as [answer | e]; cbv beta iota;
      eexists; (split; [reflexivity | repeat split]).
  - destruct (body_text created) as [errorBody | e]; cbv beta iota;
      eexists; (split; [reflexivity | repeat split]).
Qed.

End Adapter.

(** ** The store *)

Lemma truthy_Some (s : string) : s <> "" -> truthy (Some s) = true.
Proof. intro H. unfold truthy. apply String.eqb_neq in H. now rewrite H. Qed.

Lemma id_with_transcription r t : id (with_transcription r t) = id r.
Proof. reflexivity. Qed.

Lemma existsb_store_update j i t rs :
  existsb (has_id j) (store_update i t rs) = existsb (has_id j) rs.
Proof.
  induction rs as [| r rs IH]; [reflexivity |].
  simpl. rewrite IH. f_equal.
  destruct (has_id i r); reflexivity.
Qed.

Lemma lookup_store_update i t rs :
  existsb (has_id i) rs = true ->
  exists r, lookup i rs = Some r /\
            lookup i (store_update i t rs) = Some (with_transcription r t).
Proof.
  unfold lookup.
  induction rs as [| r rs IH]; simpl; [discriminate |].
  destruct (has_id i r) eqn:E; simpl.
  - intros _. exists r. unfold has_id in *. simpl. rewrite E. auto.
  - intro H. rewrite E. apply IH, H.
Qed.

Lemma stored_write i t w :
  existsb (has_id i) (recordings w) = true -> stored i (write i t w) = Some t.
Proof.
  intro H. unfold stored. simpl.
  destruct (lookup_store_update i t _ H) as (r & _ & ->). reflexivity.
Qed.

Lemma In_existsb r rs : In r rs -> existsb (has_id (id r)) rs = true.
Proof.
  intro H. apply existsb_exists. exists r. split; [exact H |].
  apply String.eqb_refl.
Qed.

Lemma In_store_update r i t rs :
  In r (store_update i t rs) ->
  In r rs \/ transcription r = Some t.
Proof.
  unfold store_update. intro H. apply in_map_iff in H.
  destruct H as (r0 & <- & Hin).
  destruct (has_id i r0); [right; reflexivity | left; exact Hin].
Qed.

(** ** Runs and what they add to the log *)

Lemma extends_refl P w : extends_by P w w.
Proof. split; [reflexivity |]. exists []. repeat split. constructor. Qed.

Lemma extends_trans P w1 w2 w3 :
  extends_by P w1 w2 -> extends_by P w2 w3 -> extends_by P w1 w3.
Proof.
  intros (Hs1 & n1 & Ht1 & Hr1 & Hp1) (Hs2 & n2 & Ht2 & Hr2 & Hp2).
  split; [congruence |].
  exists (n2 ++ n1)%list. repeat split.
  - rewrite Ht2, Ht1. now rewrite app_assoc.
  - rewrite Hr2, Hr1. clear. induction n2 as [| [q | i t | ms] n2 IH]; simpl;
      congruence.
  - apply Forall_app. split; assumption.
Qed.

Lemma extends_weaken (P Q : Event -> Prop) w w' :
  (forall e, P e -> Q e) -> extends_by P w w' -> extends_by Q w w'.
Proof.
  intros HPQ (Hs & new & Ht & Hr & Hp).
  split; [exact Hs |]. exists new. repeat split; try assumption.
  eapply Forall_impl; eassumption.
Qed.

Lemma extends_write (P : Event -> Prop) i t w :
  P (EvUpdate i t) -> extends_by P w (write i t w).
Proof.
  intro H. split; [reflexivity |]. exists [EvUpdate i t].
  repeat split. constructor; [exact H | constructor].
Qed.

Lemma extends_log (P : Event -> Prop) q w :
  P (EvFetch q) -> extends_by P w (log (EvFetch q) w).
Proof.
  intro H. split; [reflexivity |]. exists [EvFetch q].
  repeat split. constructor; [exact H | constructor].
Qed.

Lemma extends_pause (P : Event -> Prop) ms w :
  P (EvSleep ms) -> extends_by P w (pause ms w).
Proof.
  intro H. split; [reflexivity |]. exists [EvSleep ms].
  repeat split. constructor; [exact H | constructor].
Qed.

Lemma extends_update (P : Event -> Prop) i t w :
  P (EvUpdate i t) -> extends_by P w (snd (recordings_update i t w)).
Proof.
  intro H. unfold recordings_update.
  destruct (existsb (has_id i) (recordings w)); simpl;
    [apply extends_write, H | apply extends_refl].
Qed.

Lemma replay_requests new rs : forallb is_fetch new = true -> replay new rs = rs.
Proof.
  induction new as [| [q | i t | ms] new IH]; simpl; try discriminate; auto.
Qed.

Lemma extends_requests_only (P : Event -> Prop) w w' :
  (forall q, P (EvFetch q)) -> requests_only w w' -> extends_by P w w'.
Proof.
  intros HP (Hr & Hs & _ & new & Ht & Hf).
  split; [exact Hs |]. exists new. repeat split; [exact Ht | |].
  - now rewrite replay_requests.
  - clear Ht. induction new as [| [q | i t | ms] new IH]; simpl in *;
      try discriminate; constructor; auto.
Qed.

Lemma getAdapter_state w : getAdapter w = (fst (getAdapter w), w).
Proof.
  unfold getAdapter, bind, get_settings, ret.
  destruct (negb (enabled (settings w))); [reflexivity |].
  destruct (negb (settings_service (settings w) =? "assemblyai")); [reflexivity |].
  destruct (assemblyAIKey (settings w) =? ""); reflexivity.
Qed.

Lemma getAdapter_state_settings w w' :
  settings w' = settings w -> fst (getAdapter w') = fst (getAdapter w).
Proof.
  intro H. unfold getAdapter, bind, get_settings, ret. rewrite H.
  destruct (negb (enabled (settings w))); [reflexivity |].
  destruct (negb (settings_service (settings w) =? "assemblyai")); [reflexivity |].
  destruct (assemblyAIKey (settings w) =? ""); reflexivity.
Qed.

Lemma getAdapter_value w :
  exists a, fst (getAdapter w) = Ok a /\
            forall w', settings w' = settings w -> fst (getAdapter w') = Ok a.
Proof.
  unfold getAdapter, bind, get_settings, ret.
  destruct (negb (enabled (settings w))) eqn:E1.
  { eexists. split; [reflexivity |]. intros w' ->. now rewrite E1. }
  destruct (negb (settings_service (settings w) =? "assemblyai")) eqn:E2.
  { eexists. split; [reflexivity |]. intros w' ->. now rewrite E1, E2. }
  destruct (assemblyAIKey (settings w) =? "") eqn:E3.
  { eexists. split; [reflexivity |]. intros w' ->. now rewrite E1, E2, E3. }
  eexists. split; [reflexivity |]. intros w' ->. now rewrite E1, E2, E3.
Qed.

(** ** The polling loop *)

Section Polling.

Variable net : Network.

(** One turn of the loop when the recording is in the store. *)
Lemma pollAttempt_run adapter recording t jid w :
  existsb (has_id (id recording)) (recordings w) = true ->
  pollAttempt net adapter recording t jid w =
    let st := poll_result (net_poll net (fetches (trace w)) (apiKey adapter) jid) in
    let w1 := write (id recording) (mergeStatus t st (clock w))
                (log (EvFetch (GetTranscript (apiKey adapter) jid)) w) in
    if is_terminal (sr_status st) then (Ok Return, w1)
    else (Ok Continue, pause 5000 w1).
Proof.
  intro Hin.
  unfold pollAttempt, try_catch, bind. rewrite adapter_checkStatus_run.
  unfold Date_now, recordings_update. simpl. rewrite Hin.
  destruct (is_terminal _); reflexivity.
Qed.

(** One turn of the loop when the recording is gone: the write throws, and
    so does the write of the [catch]. *)
Lemma pollAttempt_missing adapter recording t jid w :
  existsb (has_id (id recording)) (recordings w) = false ->
  pollAttempt net adapter recording t jid w =
    (Throw (ErrorObj ("Recording with id " ++ id recording ++ " not found")),
     log (EvFetch (GetTranscript (apiKey adapter) jid)) w).
Proof.
  intro Hin.
  unfold pollAttempt, try_catch, bind. rewrite adapter_checkStatus_run.
  unfold Date_now, recordings_update. simpl. rewrite Hin. simpl.
  rewrite Hin. reflexivity.
Qed.

Lemma pollAttempt_extends adapter recording t jid w :
  jobId t = Some jid ->
  extends_by (loop_event net recording t) w
    (snd (pollAttempt net adapter recording t jid w)).
Proof.
  intro Hj.
  assert (Hf : loop_event net recording t
                 (EvFetch (GetTranscript (apiKey adapter) jid))).
  { simpl. eauto. }
  destruct (existsb (has_id (id recording)) (recordings w)) eqn:Hin.
  - rewrite pollAttempt_run by exact Hin. cbv zeta.
    set (st := poll_result _).
    assert (Hw : extends_by (loop_event net recording t) w
              (write (id recording) (mergeStatus t st (clock w))
                 (log (EvFetch (GetTranscript (apiKey adapter) jid)) w))).
    { eapply extends_trans; [apply extends_log, Hf |].
      apply extends_write. simpl. split; [reflexivity |]. left.
      subst st. eauto. }
    destruct (is_terminal (sr_status st)); simpl; [exact Hw |].
    eapply extends_trans; [exact Hw |]. apply extends_pause. reflexivity.
  - rewrite pollAttempt_missing by exact Hin. simpl.
    apply extends_log, Hf.
Qed.

Lemma pollLoop_extends adapter recording t jid remaining w :
  jobId t = Some jid ->
  extends_by (loop_event net recording t) w
    (snd (pollLoop net adapter recording t jid remaining w)).
Proof.
  intro Hj. revert w.
  induction remaining as [| k IH]; intro w; simpl.
  - apply extends_update. simpl. split; [reflexivity |]. right. eauto.
  - unfold bind.
    pose proof (pollAttempt_extends adapter recording t jid w Hj) as H1.
    destruct (pollAttempt net adapter recording t jid w) as [[[|] | e] w1];
      simpl in *; try exact H1.
    eapply extends_trans; [exact H1 | apply IH].
Qed.

Lemma pollUntilComplete_extends recording t w :
  transcription recording = Some t ->
  extends_by (loop_event net recording t) w
    (snd (pollUntilComplete net recording w)).
Proof.
  intro Ht. unfold pollUntilComplete, bind.
  rewrite getAdapter_state.
  destruct (fst (getAdapter w)) as [[adapter |] | e]; cbv beta iota;
    try apply extends_refl.
  rewrite Ht.
  destruct (jobId t) as [jid |] eqn:Hj; [| apply extends_refl].
  destruct (jid =? ""); [apply extends_refl |].
  apply pollLoop_extends, Hj.
Qed.

(** The loop sends at most one request per remaining attempt. *)
Lemma pollLoop_fetches adapter recording t jid remaining w :
  (fetches (trace (snd (pollLoop net adapter recording t jid remaining w)))
   <= fetches (trace w) + remaining)%nat.
Proof.
  revert w. induction remaining as [| k IH]; intro w; simpl.
  - unfold recordings_update.
    destruct (existsb _ _); simpl; unfold fetches; simpl; lia.
  - unfold bind.
    destruct (existsb (has_id (id recording)) (recordings w)) eqn:Hin.
    + rewrite pollAttempt_run by exact Hin. cbv zeta.
      destruct (is_terminal _); simpl.
      * unfold fetches. simpl. lia.
      * match goal with |- context [pollLoop _ _ _ _ _ k ?w1] =>
          specialize (IH w1); assert (fetches (trace w1) = S (fetches (trace w)))
            by reflexivity
        end.
        lia.
    + rewrite pollAttempt_missing by exact Hin. simpl.
      unfold fetches. simpl. lia.
Qed.

(** A loop with an attempt left starts with a poll. *)
Lemma pollLoop_first_event adapter recording t jid k w :
  jobId t = Some jid ->
  exists later,
    trace (snd (pollLoop net adapter recording t jid (S k) w))
      = (later ++ EvFetch (GetTranscript (apiKey adapter) jid) :: trace w)%list.
Proof.
  intro Hj. cbn [pollLoop]. unfold bind.
  destruct (existsb (has_id (id recording)) (recordings w)) eqn:Hin.
  - rewrite pollAttempt_run by exact Hin. cbv zeta.
    destruct (is_terminal _).
    + eexists [_]. reflexivity.
    + match goal with |- context [pollLoop _ _ _ _ _ _ ?w1] =>
        destruct (pollLoop_extends adapter recording t jid k w1 Hj)
          as (_ & new & Htrace & _)
      end.
      rewrite Htrace. eexists (new ++ [_; _])%list.
      rewrite <- app_assoc. reflexivity.
  - rewrite pollAttempt_missing by exact Hin. exists []. reflexivity.
Qed.

End Polling.

Lemma fetches_app (a b : list Event) :
  fetches (a ++ b)%list = (fetches a + fetches b)%nat.
Proof. unfold fetches. now rewrite filter_app, length_app. Qed.

Section PollingTimeout.

Variable net : Network.

(** A loop that only ever sees non-terminal answers uses up its attempts
    and writes the timeout. *)
Lemma pollLoop_stuck adapter recording t jid remaining w :
  existsb (has_id (id recording)) (recordings w) = true ->
  (forall k, (k < remaining)%nat ->
     is_terminal (sr_status (poll_result
       (net_poll net (fetches (trace w) + k) (apiKey adapter) jid))) = false) ->
  let w' := snd (pollLoop net adapter recording t jid remaining w) in
  fst (pollLoop net adapter recording t jid remaining w) = Ok tt /\
  fetches (trace w') = (fetches (trace w) + remaining)%nat /\
  stored (id recording) w'
    = Some (finalizeError t "Transcription polling timed out").
Proof.
  revert w. induction remaining as [| k IH]; intros w Hin Hstuck; cbv zeta.
  - simpl. unfold recordings_update. rewrite Hin. simpl.
    split; [reflexivity |]. split.
    + unfold fetches. simpl. lia.
    + apply stored_write, Hin.
  - cbn [pollLoop]. unfold bind. rewrite pollAttempt_run by exact Hin.
    cbv zeta.
    pose proof (Hstuck 0%nat ltac:(lia)) as H0.
    rewrite Nat.add_0_r in H0. rewrite H0.
    set (w2 := pause 5000 _).
    assert (Hf : fetches (trace w2) = S (fetches (trace w))) by reflexivity.
    assert (Hin2 : existsb (has_id (id recording)) (recordings w2) = true).
    { subst w2. simpl. rewrite existsb_store_update. exact Hin. }
    destruct (IH w2 Hin2) as (Hok & Hcount & Hstored).
    { intros j Hj. rewrite Hf.
      replace (S (fetches (trace w)) + j)%nat
        with (fetches (trace w) + S j)%nat by lia.
      apply Hstuck. lia. }
    split; [exact Hok |]. split; [| exact Hstored].
    rewrite Hcount, Hf. lia.
Qed.

Lemma waits_app (a b : list Event) :
  waits (a ++ b)%list = (waits a + waits b)%nat.
Proof. unfold waits. now rewrite filter_app, length_app. Qed.

(** A spaced piece of log stays spaced when it is put after a wait of five
    seconds. *)
Lemma spaced_after_wait (a b : list Event) :
  spaced a = true -> spaced (EvSleep 5000 :: b) = true ->
  spaced (a ++ EvSleep 5000 :: b)%list = true.
Proof.
  intros Ha Hb. induction a as [| e a IH]; [exact Hb |].
  destruct e as [q | i t | ms]; cbn [app].
  - destruct a as [| e' a'].
    + cbn [app spaced]. cbn [spaced] in Hb. rewrite Hb. reflexivity.
    + destruct e' as [q' | i' t' | ms']; cbn [spaced] in Ha; try discriminate.
      apply andb_prop in Ha. destruct Ha as [Hms Ha].
      specialize (IH Ha). cbn [app] in IH |- *.
      change ((ms' =? 5000)%Z
              && spaced (EvSleep ms' :: (a' ++ EvSleep 5000 :: b))%list = true).
      rewrite Hms. exact IH.
  - cbn [spaced] in *. apply IH. exact Ha.
  - cbn [spaced] in *. apply IH. exact Ha.
Qed.

(** The log of the loop: a poll, a write and a wait of five seconds per turn.
    Every poll but the first comes right after a wait, there is at most one
    poll more than there are waits, and the clock moves by the waits. *)
Lemma pollLoop_waits adapter recording t jid remaining : forall w,
  exists new,
    trace (snd (pollLoop net adapter recording t jid remaining w))
      = (new ++ trace w)%list /\
    spaced new = true /\
    (fetches new <= waits new + 1)%nat /\
    (waits new <= fetches new)%nat /\
    clock (snd (pollLoop net adapter recording t jid remaining w))
      = (clock w + 5000 * Z.of_nat (waits new))%Z.
Proof.
  induction remaining as [| k IH]; intro w.
  - cbn [pollLoop]. unfold recordings_update.
    destruct (existsb (has_id (id recording)) (recordings w)); cbn [snd].
    + eexists [_]. split; [reflexivity |]. split; [reflexivity |].
      split; [unfold fetches, waits; simpl; lia |].
      split; [unfold fetches, waits; simpl; lia |].
      unfold waits; simpl; lia.
    + exists []. split; [reflexivity |]. split; [reflexivity |].
      split; [unfold fetches, waits; simpl; lia |].
      split; [unfold fetches, waits; simpl; lia |].
      unfold waits; simpl; lia.
  - cbn [pollLoop]. unfold bind.
    destruct (existsb (has_id (id recording)) (recordings w)) eqn:Hin.
    + rewrite pollAttempt_run by exact Hin. cbv zeta.
      destruct (is_terminal _).
      * cbn [snd]. eexists [_; _]. split; [reflexivity |].
        split; [reflexivity |].
        split; [unfold fetches, waits; simpl; lia |].
        split; [unfold fetches, waits; simpl; lia |].
        unfold waits; simpl; lia.
      * match goal with |- context [pollLoop _ _ _ _ _ k ?w1] =>
          destruct (IH w1) as (new & Htrace & Hsp & Hle & Hge & Hclock)
        end.
        rewrite Htrace, Hclock. cbn [pause write log trace clock].
        match goal with |- context [EvUpdate ?i ?u :: EvFetch ?q :: trace w] =>
          exists (new ++ [EvSleep 5000; EvUpdate i u; EvFetch q])%list;
          assert (Hf3 : fetches [EvSleep 5000; EvUpdate i u; EvFetch q] = 1%nat)
            by reflexivity;
          assert (Hw3 : waits [EvSleep 5000; EvUpdate i u; EvFetch q] = 1%nat)
            by reflexivity
        end.
        split; [cbn [pause write log trace]; rewrite <- app_assoc; reflexivity |].
        split; [apply spaced_after_wait; [exact Hsp | reflexivity] |].
        rewrite fetches_app, waits_app, Hf3, Hw3.
        split; [lia |]. split; [lia |].
        cbn [pause write log clock]. lia.
    + rewrite pollAttempt_missing by exact Hin. cbn [snd].
      eexists [_]. split; [reflexivity |]. split; [reflexivity |].
      split; [unfold fetches, waits; simpl; lia |].
      split; [unfold fetches, waits; simpl; lia |].
      unfold waits; simpl; lia.
Qed.

(** A loop that only ever sees non-terminal answers waits after each of
    them. *)
Lemma pollLoop_stuck_clock adapter recording t jid remaining : forall w,
  existsb (has_id (id recording)) (recordings w) = true ->
  (forall k, (k < remaining)%nat ->
     is_terminal (sr_status (poll_result
       (net_poll net (fetches (trace w) + k) (apiKey adapter) jid))) = false) ->
  clock (snd (pollLoop net adapter recording t jid remaining w))
    = (clock w + 5000 * Z.of_nat remaining)%Z.
Proof.
  induction remaining as [| k IH]; intros w Hin Hstuck.
  - cbn [pollLoop]. unfold recordings_update. rewrite Hin. simpl. lia.
  - cbn [pollLoop]. unfold bind. rewrite pollAttempt_run by exact Hin.
    cbv zeta.
    pose proof (Hstuck 0%nat ltac:(lia)) as H0.
    rewrite Nat.add_0_r in H0. rewrite H0.
    set (w2 := pause 5000 _).
    assert (Hf : fetches (trace w2) = S (fetches (trace w))) by reflexivity.
    assert (Hin2 : existsb (has_id (id recording)) (recordings w2) = true).
    { subst w2. simpl. rewrite existsb_store_update. exact Hin. }
    rewrite (IH w2 Hin2).
    + subst w2. cbn [pause clock write log]. lia.
    + intros j Hj. rewrite Hf.
      replace (S (fetches (trace w)) + j)%nat
        with (fetches (trace w) + S j)%nat by lia.
      apply Hstuck. lia.
Qed.

(** C3. The polling loop always ends: it is a total function of the world,
    and whatever it does it sends at most 120 polls. The polls are five
    seconds apart: every poll of a run but the first comes right after a wait
    of 5000 ms, every wait lasts 5000 ms, a run of [n] polls has at least
    [n - 1] waits (and at most [n]), and the clock advances by 5000 ms per
    wait. When the recording is stored, an adapter is configured and each of
    the 120 answers is neither [completed] nor [error], the loop returns
    after exactly 120 polls, 120 * 5000 ms later, and leaves the job with
    status [error] and the message "Transcription polling timed out". *)
Theorem pollUntilComplete_terminates (recording : Recording) (w : World) :
  let w' := snd (pollUntilComplete net recording w) in
  (exists new,
     trace w' = (new ++ trace w)%list /\
     (fetches new <= 120)%nat /\
     (forall ms, In (EvSleep ms) new -> ms = 5000%Z) /\
     spaced new = true /\
     (fetches new <= waits new + 1)%nat /\
     (waits new <= fetches new)%nat /\
     clock w' = (clock w + 5000 * Z.of_nat (waits new))%Z) /\
  (forall adapter t jid,
     fst (getAdapter w) = Ok (Some adapter) ->
     transcription recording = Some t ->
     jobId t = Some jid -> jid <> "" ->
     existsb (has_id (id recording)) (recordings w) = true ->
     (forall k, (k < 120)%nat ->
        is_terminal (sr_status (poll_result
          (net_poll net (fetches (trace w) + k) (apiKey adapter) jid))) = false) ->
     fst (pollUntilComplete net recording w) = Ok tt /\
     fetches (trace w') = (fetches (trace w) + 120)%nat /\
     clock w' = (clock w + 120 * 5000)%Z /\
     exists final,
       stored (id recording) w' = Some final /\
       status final = StError /\
       error final = Some "Transcription polling timed out").
Proof.
  cbv zeta. split.
  - assert (Hbound :
      (fetches (trace (snd (pollUntilComplete net recording w)))
       <= fetches (trace w) + 120)%nat).
    { unfold pollUntilComplete, bind. rewrite getAdapter_state.
      destruct (fst (getAdapter w)) as [[adapter |] | e]; cbv beta iota;
        try (simpl; lia).
      destruct (transcription recording) as [t |]; [| simpl; lia].
      destruct (jobId t) as [jid |]; [| simpl; lia].
      destruct (jid =? ""); [simpl; lia |].
      apply pollLoop_fetches. }
    assert (Hidle : forall w0 : World,
      exists new : list Event,
        trace w0 = (new ++ trace w0)%list /\
        (fetches new <= 120)%nat /\
        (forall ms, In (EvSleep ms) new -> ms = 5000%Z) /\
        spaced new = true /\
        (fetches new <= waits new + 1)%nat /\
        (waits new <= fetches new)%nat /\
        clock w0 = (clock w0 + 5000 * Z.of_nat (waits new))%Z).
    { intro w0. exists []. split; [reflexivity |].
      split; [unfold fetches; simpl; lia |].
      split; [intros ms [] |]. split; [reflexivity |].
      split; [unfold fetches, waits; simpl; lia |].
      split; [unfold fetches, waits; simpl; lia |].
      unfold waits; simpl; lia. }
    destruct (transcription recording) as [t |] eqn:Ht.
    + destruct (pollUntilComplete_extends net recording t w Ht)
        as (_ & new & Htrace & _ & Hall).
      revert Hbound Htrace.
      unfold pollUntilComplete, bind. rewrite getAdapter_state.
      destruct (fst (getAdapter w)) as [[adapter |] | e]; cbv beta iota;
        try (intros _ _; apply Hidle).
      rewrite Ht.
      destruct (jobId t) as [jid |]; [| intros _ _; apply Hidle].
      destruct (jid =? ""); [intros _ _; apply Hidle |].
      intros Hbound Htrace.
      destruct (pollLoop_waits adapter recording t jid maxAttempts w)
        as (new' & Htrace' & Hsp & Hle & Hge & Hclock).
      assert (new' = new).
      { rewrite Htrace in Htrace'. apply app_inv_tail in Htrace'. congruence. }
      subst new'.
      exists new. split; [exact Htrace |]. split.
      * rewrite Htrace, fetches_app in Hbound. lia.
      * split.
        { intros ms Hms. rewrite Forall_forall in Hall. exact (Hall _ Hms). }
        split; [exact Hsp |]. split; [exact Hle |]. split; [exact Hge |].
        exact Hclock.
    + unfold pollUntilComplete, bind. rewrite getAdapter_state, Ht.
      destruct (fst (getAdapter w)) as [[adapter |] | e]; cbv beta iota;
        apply Hidle.
  - intros adapter t jid Ha Ht Hj Hne Hin Hstuck.
    unfold pollUntilComplete, bind. rewrite getAdapter_state, Ha.
    cbv beta iota. rewrite Ht, Hj.
    apply String.eqb_neq in Hne. rewrite Hne.
    destruct (pollLoop_stuck adapter recording t jid 120 w Hin Hstuck)
      as (Hok & Hcount & Hstored).
    split; [exact Hok |]. split; [exact Hcount |].
    split.
    { change maxAttempts with 120%nat.
      rewrite (pollLoop_stuck_clock adapter recording t jid 120 w Hin Hstuck).
      lia. }
    eexists. split; [exact Hstored |]. split; reflexivity.
Qed.

End PollingTimeout.

Lemma pollUntilComplete_terminates_witness :
  let w := sample_world [recording_in_progress] 1000 in
  let w' := snd (pollUntilComplete net_stuck recording_in_progress w) in
  fst (pollUntilComplete net_stuck recording_in_progress w) = Ok tt /\
  fetches (trace w') = 120%nat /\
  clock w' = 601000%Z /\
  exists final,
    stored "r2" w' = Some final /\
    status final = StError /\
    error final = Some "Transcription polling timed out".
Proof.
  cbv zeta.
  apply (proj2 (pollUntilComplete_terminates net_stuck recording_in_progress
                  (sample_world [recording_in_progress] 1000))
           (new_AssemblyAIAdapter "key") (sample_job StProcessing (Some 0%Z)) "j1").
  - reflexivity.
  - reflexivity.
  - reflexivity.
  - discriminate.
  - reflexivity.
  - intros k _. reflexivity.
Defined.

(** ** Resuming after a reload *)

Section Resume.

Variable net : Network.

(** C4. A stored recording whose job is [processing] or [pending], has a job
    id and was started more than ten minutes before now: [resumePolling]
    returns at once, its only effect is one write, which sets the status to
    [error] with a message that contains "timed out"; no request is sent. *)
Theorem resumePolling_expires (recording : Recording) (t : TranscriptionData)
    (jid : string) (started : Z) (w : World) :
  transcription recording = Some t ->
  in_progress (status t) = true ->
  jobId t = Some jid -> jid <> "" ->
  startedAt t = Some started ->
  (clock w - started > 10 * 60 * 1000)%Z ->
  existsb (has_id (id recording)) (recordings w) = true ->
  exists final msg,
    resumePolling net recording w = (Ok tt, write (id recording) final w) /\
    stored (id recording) (write (id recording) final w) = Some final /\
    status final = StError /\
    error final = Some msg /\ contains "timed out" msg = true /\
    trace (write (id recording) final w)
      = EvUpdate (id recording) final :: trace w /\
    fetches (trace (write (id recording) final w)) = fetches (trace w).
Proof.
  intros Ht Hs Hj Hne Hst Hold Hin.
  exists (finalizeError t "Transcription timed out (10 minutes)").
  exists "Transcription timed out (10 minutes)".
  split.
  - unfold resumePolling. rewrite Ht, Hs. cbn [negb]. cbv beta iota.
    rewrite Hj, (truthy_Some jid Hne). cbn [negb]. cbv beta iota. rewrite Hst.
    unfold bind, Date_now. cbv beta iota.
    assert (H : (timeoutMs <? clock w - started)%Z = true).
    { apply Z.ltb_lt. unfold timeoutMs. lia. }
    rewrite H. unfold recordings_update. rewrite Hin. reflexivity.
  - split; [apply stored_write, Hin |].
    repeat split.
Qed.

(** C10. A recording whose job is [processing] or [pending] and has a job id
    but no [startedAt]: [resumePolling] is the polling loop, whatever the
    clock shows; with an adapter configured its first effect is a poll of the
    job, not a write that expires it. *)
Theorem resumePolling_without_startedAt (recording : Recording)
    (t : TranscriptionData) (jid : string) (w : World) :
  transcription recording = Some t ->
  in_progress (status t) = true ->
  jobId t = Some jid -> jid <> "" ->
  startedAt t = None ->
  resumePolling net recording w = pollUntilComplete net recording w /\
  forall adapter,
    fst (getAdapter w) = Ok (Some adapter) ->
    exists later,
      trace (snd (resumePolling net recording w))
        = (later ++ EvFetch (GetTranscript (apiKey adapter) jid) :: trace w)%list.
Proof.
  intros Ht Hs Hj Hne Hst.
  assert (Heq : resumePolling net recording w = pollUntilComplete net recording w).
  { unfold resumePolling. rewrite Ht, Hs. cbn [negb]. cbv beta iota.
    rewrite Hj, (truthy_Some jid Hne). cbn [negb]. cbv beta iota. rewrite Hst. reflexivity. }
  split; [exact Heq |].
  intros adapter Ha. rewrite Heq.
  unfold pollUntilComplete, bind. rewrite getAdapter_state, Ha.
  cbv beta iota. rewrite Ht, Hj.
  apply String.eqb_neq in Hne. rewrite Hne.
  exact (pollLoop_first_event net adapter recording t jid 119 w Hj).
Qed.

End Resume.

Lemma resumePolling_expires_witness :
  let w := sample_world [recording_in_progress] 660000 in
  exists final msg,
    resumePolling net_stuck recording_in_progress w = (Ok tt, write "r2" final w) /\
    stored "r2" (write "r2" final w) = Some final /\
    status final = StError /\
    error final = Some msg /\ contains "timed out" msg = true /\
    trace (write "r2" final w) = EvUpdate "r2" final :: trace w /\
    fetches (trace (write "r2" final w)) = fetches (trace w).
Proof.
  cbv zeta.
  apply (resumePolling_expires net_stuck recording_in_progress
           (sample_job StProcessing (Some 0%Z)) "j1" 0
           (sample_world [recording_in_progress] 660000)).
  - reflexivity.
  - reflexivity.
  - reflexivity.
  - discriminate.
  - reflexivity.
  - simpl. lia.
  - reflexivity.
Defined.

Lemma resumePolling_without_startedAt_witness :
  let w := sample_world [recording_undated] 999999999 in
  resumePolling net_partial recording_undated w
    = pollUntilComplete net_partial recording_undated w /\
  forall adapter,
    fst (getAdapter w) = Ok (Some adapter) ->
    exists later,
      trace (snd (resumePolling net_partial recording_undated w))
        = (later ++ EvFetch (GetTranscript (apiKey adapter) "j1") :: trace w)%list.
Proof.
  cbv zeta.
  apply (resumePolling_without_startedAt net_partial recording_undated
           (sample_job StPending None) "j1"
           (sample_world [recording_undated] 999999999)).
  - reflexivity.
  - reflexivity.
  - reflexivity.
  - discriminate.
  - reflexivity.
Defined.

(** ** Submission *)

Lemma extends_bind {A B} (P : Event -> Prop) (m : M A) (k : A -> M B) w :
  extends_by P w (snd (m w)) ->
  (forall a w1, m w = (Ok a, w1) -> extends_by P w1 (snd (k a w1))) ->
  extends_by P w (snd (bind m k w)).
Proof.
  intros Hm Hk. unfold bind.
  destruct (m w) as [[a | e] w1] eqn:E; simpl in *; [| exact Hm].
  eapply extends_trans; [exact Hm | apply Hk; reflexivity].
Qed.

Lemma extends_try {A} (P : Event -> Prop) (body : M A) (handler : Thrown -> M A) w :
  extends_by P w (snd (body w)) ->
  (forall e w1, body w = (Throw e, w1) -> extends_by P w1 (snd (handler e w1))) ->
  extends_by P w (snd (try_catch body handler w)).
Proof.
  intros Hb Hh. unfold try_catch.
  destruct (body w) as [[a | e] w1] eqn:E; simpl in *; [exact Hb |].
  eapply extends_trans; [exact Hb | apply Hh; reflexivity].
Qed.

Lemma recordings_update_ok i t w w' :
  recordings_update i t w = (Ok tt, w') ->
  existsb (has_id i) (recordings w) = true /\ w' = write i t w.
Proof.
  unfold recordings_update.
  destruct (existsb (has_id i) (recordings w)); intro H; inversion H; auto.
Qed.

Section Submission.

Variable net : Network.

Lemma adapter_transcribe_failed adapter b options w e :
  submission_error net adapter b options w = Some e ->
  fst (adapter_transcribe net adapter b options w) = Ok (submit_failed e).
Proof.
  unfold submission_error. rewrite adapter_transcribe_cases.
  destruct (uploadFile net adapter b w) as [[url | e1] w1].
  - destruct (createTranscript net adapter url options w1) as [[jid | e2] w2];
      simpl; intro H; inversion H; reflexivity.
  - simpl. intro H; inversion H; reflexivity.
Qed.

(** C2 (amended). When an adapter is configured, the recording is stored and
    the upload or the transcript request fails, [transcribe] returns after
    exactly two writes: the first, made before the submission, stores status
    [processing]; the second, made after the failure, stores status [error]
    with the message of the failure (or "Transcription failed"), and no job
    id. Between the two only requests are sent, and the job ends as the
    second write left it. *)
Theorem transcribe_submission_error (recording : Recording)
    (options : option TranscriptionOptions) (w : World)
    (adapter : AssemblyAIAdapter) (e : Thrown) :
  fst (getAdapter w) = Ok (Some adapter) ->
  existsb (has_id (id recording)) (recordings w) = true ->
  submission_error net adapter (blob recording) options
    (write (id recording) (submitting adapter (clock w)) w) = Some e ->
  let w' := snd (transcribe net recording options w) in
  exists requests final,
    fst (transcribe net recording options w) = Ok tt /\
    trace w' = (EvUpdate (id recording) final :: requests
                  ++ EvUpdate (id recording) (submitting adapter (clock w))
                  :: trace w)%list /\
    forallb is_fetch requests = true /\
    status (submitting adapter (clock w)) = StProcessing /\
    status final = StError /\
    error final = Some (message_or "Transcription failed" e) /\
    jobId final = None /\
    stored (id recording) w' = Some final.
Proof.
  intros Ha Hin Hfail. cbv zeta.
  pose proof (adapter_transcribe_failed _ _ _ _ _ Hfail) as Hres.
  pose proof (adapter_transcribe_requests_only net adapter (blob recording)
                options (write (id recording) (submitting adapter (clock w)) w))
    as (Hr & Hs & Hc & requests & Htrace & Hreq).
  destruct (adapter_transcribe net adapter (blob recording) options
              (write (id recording) (submitting adapter (clock w)) w))
    as [out w2] eqn:E.
  simpl in Hres, Hr, Hs, Hc, Htrace. subst out.
  assert (Hin2 : existsb (has_id (id recording)) (recordings w2) = true).
  { rewrite Hr. rewrite existsb_store_update. exact Hin. }
  set (final := {| status := StError; text := None;
                   error := Some (message_or "Transcription failed" e);
                   service := name adapter; jobId := None;
                   startedAt := Some (clock w2); completedAt := None |}).
  assert (Hrun : transcribe net recording options w
                 = (Ok tt, write (id recording) final w2)).
  { unfold transcribe, bind. rewrite getAdapter_state, Ha. cbv beta iota.
    unfold Date_now at 1. cbv beta iota.
    unfold recordings_update at 1. rewrite Hin.
    fold (submitting adapter (clock w)).
    unfold try_catch. rewrite E.
    unfold Date_now. cbv beta iota.
    unfold recordings_update. rewrite Hin2. reflexivity. }
  rewrite Hrun.
  exists requests, final. split; [reflexivity |].
  split; [simpl; rewrite Htrace; reflexivity |].
  split; [exact Hreq |].
  split; [reflexivity |]. split; [reflexivity |]. split; [reflexivity |].
  split; [reflexivity |].
  apply stored_write, Hin2.
Qed.

End Submission.

Lemma transcribe_submission_error_witness :
  let recording := sample_recording "r1" None in
  let w := sample_world [recording] 1000 in
  let w' := snd (transcribe net_upload_refused recording None w) in
  exists requests final,
    fst (transcribe net_upload_refused recording None w) = Ok tt /\
    trace w' = (EvUpdate "r1" final :: requests
                  ++ EvUpdate "r1" (submitting (new_AssemblyAIAdapter "key") 1000)
                  :: trace w)%list /\
    forallb is_fetch requests = true /\
    status (submitting (new_AssemblyAIAdapter "key") 1000) = StProcessing /\
    status final = StError /\
    error final
      = Some (message_or "Transcription failed"
                (ErrorObj "Upload failed: 401 Unauthorized")) /\
    jobId final = None /\
    stored "r1" w' = Some final.
Proof.
  cbv zeta.
  apply (transcribe_submission_error net_upload_refused
           (sample_recording "r1" None) None
           (sample_world [sample_recording "r1" None] 1000)
           (new_AssemblyAIAdapter "key")
           (ErrorObj "Upload failed: 401 Unauthorized")).
  - reflexivity.
  - reflexivity.
  - reflexivity.
Defined.

(** C2 as stated fails: in a run whose upload is refused, the status stored
    first is [processing]. *)
Lemma transcribe_failure_stores_processing :
  let recording := sample_recording "r1" None in
  let w := sample_world [recording] 1000 in
  let w' := snd (transcribe net_upload_refused recording None w) in
  submission_error net_upload_refused (new_AssemblyAIAdapter "key")
    (blob recording) None
    (write "r1" (submitting (new_AssemblyAIAdapter "key") 1000) w)
    = Some (ErrorObj "Upload failed: 401 Unauthorized") /\
  map status (writes (emitted w w')) = [StProcessing; StError] /\
  stored "r1" (write "r1" (submitting (new_AssemblyAIAdapter "key") 1000) w)
    = Some (submitting (new_AssemblyAIAdapter "key") 1000).
Proof. repeat split. Qed.

(** ** Merging poll results *)

Lemma each_write_app (P : list Event -> string -> TranscriptionData -> Prop)
    (a b : list Event) :
  each_write (fun e => P (e ++ b)%list) a -> each_write P b ->
  each_write P (a ++ b)%list.
Proof.
  intros Ha Hb. induction a as [| [q | i t | ms] a IH]; cbn [app each_write] in *;
    [exact Hb | apply IH, Ha | | apply IH, Ha].
  destruct Ha as [H Ha]. split; [exact H | apply IH, Ha].
Qed.

Lemma each_write_split (P : list Event -> string -> TranscriptionData -> Prop)
    (later : list Event) : forall new i t' earlier,
  each_write P new -> new = (later ++ EvUpdate i t' :: earlier)%list ->
  P earlier i t'.
Proof.
  induction later as [| e later IH]; intros new i t' earlier H ->.
  - exact (proj1 H).
  - cbn [app] in H.
    apply (IH (later ++ EvUpdate i t' :: earlier)%list i t' earlier);
      [| reflexivity].
    destruct e as [q | j u | ms]; cbn [each_write] in H; [exact H | | exact H].
    exact (proj2 H).
Qed.

(** The store after a piece of log whose writes all go to a stored
    recording holds what the last of them wrote, or what it held before. *)
Lemma stored_after_last i s (evs : list Event) rs :
  match lookup i rs with Some r => transcription r | None => None end = Some s ->
  (forall j u, In (EvUpdate j u) evs -> j = i) ->
  exists previous,
    stored_after i evs rs = Some previous /\
    (previous = s \/ In (EvUpdate i previous) evs).
Proof.
  intros Hs Hall. unfold stored_after.
  induction evs as [| e evs IH].
  - exists s. split; [exact Hs | left; reflexivity].
  - destruct IH as (p & Hp & Hcase).
    { intros j u Hin. apply (Hall j u). right. exact Hin. }
    destruct e as [q | j u | ms]; cbn [replay].
    + exists p. split; [exact Hp |]. destruct Hcase; [left | right; right]; auto.
    + assert (j = i) by (apply (Hall j u); left; reflexivity). subst j.
      assert (Hin : existsb (has_id i) (replay evs rs) = true).
      { destruct (lookup i (replay evs rs)) as [r |] eqn:Hl; [| discriminate].
        apply existsb_exists. exists r. apply find_some in Hl. exact Hl. }
      destruct (lookup_store_update i u _ Hin) as (r & _ & ->).
      exists u. split; [reflexivity |]. right. left. reflexivity.
    + exists p. split; [exact Hp |]. destruct Hcase; [left | right; right]; auto.
Qed.

Section Merging.

Variable net : Network.

Lemma check_event_loop_event recording t e :
  check_event net recording t e -> loop_event net recording t e.
Proof.
  destruct e as [q | i t' | ms]; simpl; auto; [| intros []].
  intros [Hi H]. split; [exact Hi | left; exact H].
Qed.

(** The one-shot check of the manager: a poll and the write of the merge. *)
Lemma checkStatus_extends recording t w :
  transcription recording = Some t ->
  extends_by (check_event net recording t) w (snd (checkStatus net recording w)).
Proof.
  intro Ht. unfold checkStatus.
  apply extends_bind.
  { rewrite getAdapter_state. apply extends_refl. }
  intros [adapter |] w1 _; [| apply extends_refl].
  rewrite Ht.
  destruct (jobId t) as [jid |] eqn:Hj; [| apply extends_refl].
  destruct (jid =? ""); [apply extends_refl |].
  apply extends_try; [| intros; apply extends_refl].
  apply extends_bind.
  { rewrite adapter_checkStatus_run. apply extends_log. simpl. eauto. }
  intros st w2 Hst. rewrite adapter_checkStatus_run in Hst.
  inversion Hst; subst.
  apply extends_bind; [apply extends_refl |].
  intros now w3 Hnow. inversion Hnow; subst.
  apply extends_update. simpl. split; [reflexivity |]. eauto.
Qed.

(** The write that follows the first poll of an operation. *)
Lemma write_of_poll_first t w key jid :
  jobId t = Some jid ->
  write_of_poll net t w [EvFetch (GetTranscript key jid)]
    (mergeStatus t (poll_result (net_poll net (fetches (trace w)) key jid))
       (clock w)).
Proof.
  intro Hj. left. exists key, jid, []. split; [reflexivity |].
  split; [exact Hj |].
  change (fetches []) with 0%nat. change (waits []) with 0%nat.
  rewrite Nat.add_0_r. f_equal. simpl. lia.
Qed.

(** A write of the rest of the loop, read from the start of the loop: one
    more request was sent before it, and five more seconds have passed. *)
Lemma write_of_poll_shift t w w1 i u q earlier t' :
  fetches (trace w1) = S (fetches (trace w)) ->
  clock w1 = (clock w + 5000)%Z ->
  write_of_poll net t w1 earlier t' ->
  write_of_poll net t w
    (earlier ++ [EvSleep 5000; EvUpdate i u; EvFetch q])%list t'.
Proof.
  intros Hf Hc [(key & jid & rest & -> & Hj & ->) | Hfinal]; [| right; exact Hfinal].
  left. exists key, jid, (rest ++ [EvSleep 5000; EvUpdate i u; EvFetch q])%list.
  split; [reflexivity |]. split; [exact Hj |].
  rewrite fetches_app, waits_app, Hf, Hc.
  change (fetches [EvSleep 5000; EvUpdate i u; EvFetch q]) with 1%nat.
  change (waits [EvSleep 5000; EvUpdate i u; EvFetch q]) with 1%nat.
  f_equal; [f_equal; f_equal; lia | lia].
Qed.

(** Every write of the loop merges the snapshot with the poll just made, or
    finalizes the snapshot. *)
Lemma pollLoop_each_write adapter recording t jid remaining :
  jobId t = Some jid -> forall w,
  exists new,
    trace (snd (pollLoop net adapter recording t jid remaining w))
      = (new ++ trace w)%list /\
    each_write (fun earlier i t' =>
                  i = id recording /\ write_of_poll net t w earlier t') new.
Proof.
  intro Hj. induction remaining as [| k IH]; intro w.
  - cbn [pollLoop]. unfold recordings_update.
    destruct (existsb (has_id (id recording)) (recordings w)); cbn [snd].
    + eexists [_]. split; [reflexivity |]. cbn [each_write].
      split; [| exact I]. split; [reflexivity |]. right. eauto.
    + exists []. split; [reflexivity | exact I].
  - cbn [pollLoop]. unfold bind.
    destruct (existsb (has_id (id recording)) (recordings w)) eqn:Hin.
    + rewrite pollAttempt_run by exact Hin. cbv zeta.
      destruct (is_terminal _).
      * cbn [snd]. eexists [_; _]. split; [reflexivity |]. cbn [each_write].
        split; [| exact I]. split; [reflexivity |].
        apply write_of_poll_first, Hj.
      * match goal with |- context [pollLoop _ _ _ _ _ k ?w1] =>
          destruct (IH w1) as (new & Htrace & Hall);
          assert (Hf : fetches (trace w1) = S (fetches (trace w)))
            by reflexivity;
          assert (Hc : clock w1 = (clock w + 5000)%Z) by reflexivity
        end.
        rewrite Htrace. cbn [pause write log trace].
        match goal with |- context [EvUpdate ?i ?u :: EvFetch ?q :: trace w] =>
          exists (new ++ [EvSleep 5000; EvUpdate i u; EvFetch q])%list
        end.
        split; [rewrite <- app_assoc; reflexivity |].
        apply each_write_app.
        -- clear Htrace. revert Hall. generalize new.
           induction new0 as [| [q0 | i0 t0 | ms0] new0 IHn]; cbn [each_write];
             auto.
           intros [[Hi Hw] Hrest]. split; [| apply IHn, Hrest].
           split; [exact Hi |].
           eapply write_of_poll_shift; eassumption.
        -- cbn [each_write]. split; [| exact I]. split; [reflexivity |].
           apply write_of_poll_first, Hj.
    + rewrite pollAttempt_missing by exact Hin. cbn [snd].
      eexists [_]. split; [reflexivity | exact I].
Qed.

(** From the writes one by one to what they keep of the snapshot and of the
    store. *)
Lemma each_write_merges recording t w new :
  each_write (fun earlier i t' =>
                i = id recording /\ write_of_poll net t w earlier t') new ->
  merges_snapshot net recording t w new.
Proof.
  intro Hall.
  assert (Hkeeps : forall earlier t',
            write_of_poll net t w earlier t' ->
            service t' = service t /\ jobId t' = jobId t /\
            (poll_without_text net w earlier -> text t' = text t)).
  { intros earlier t' [(key & jid & rest & -> & Hj & ->) | (msg & ->)].
    - split; [reflexivity |]. split; [reflexivity |].
      intro Hnone. cbn [text mergeStatus]. unfold or_else.
      rewrite (Hnone key jid rest eq_refl). reflexivity.
    - split; [reflexivity |]. split; [reflexivity |]. intros _. reflexivity. }
  intros later i t' earlier Hnew.
  destruct (each_write_split _ later new i t' earlier Hall Hnew) as [Hi Hw].
  destruct (Hkeeps earlier t' Hw) as (Hservice & Hjob & Htext).
  split; [exact Hi |]. split; [exact Hw |]. split; [exact Hservice |].
  split; [exact Hjob |]. split; [exact Htext |].
  intro Hstored.
  assert (Hearlier : forall j u, In (EvUpdate j u) earlier ->
            j = id recording /\ service u = service t /\ jobId u = jobId t).
  { intros j u Hin. apply in_split in Hin. destruct Hin as (l1 & l2 & ->).
    destruct (each_write_split _ (later ++ EvUpdate i t' :: l1)%list new j u l2
                Hall) as [Hj Hu].
    { rewrite Hnew, <- app_assoc. reflexivity. }
    destruct (Hkeeps l2 u Hu) as (Hs & Hjb & _). auto. }
  destruct (stored_after_last (id recording) t earlier (recordings w))
    as (previous & Hprev & Hcase).
  { exact Hstored. }
  { intros j u Hin. apply (Hearlier j u Hin). }
  exists previous. split; [exact Hprev |].
  destruct Hcase as [-> | Hin].
  - split; [exact Hservice |]. split; [exact Hjob |].
    intros _ Hnone. apply Htext, Hnone.
  - destruct (Hearlier _ _ Hin) as (_ & Hs & Hjb).
    split; [congruence |]. split; [congruence |].
    intros Hsame Hnone. rewrite (Hsame _ _ Hin). apply Htext, Hnone.
Qed.

(** C6 (amended). Each write of the polling loop and of [checkStatus] is
    built from the snapshot of the recording the operation was called with
    and from the answer to the poll sent right before the write, not from
    what the store holds at that moment: it goes to the recording of the
    snapshot, keeps the service and the job id of the snapshot, and when
    that poll carries no text (or an empty one) it carries the text of the
    snapshot. When the snapshot is the job as stored when the operation
    starts, each write keeps the service and the job id that the store holds
    right before it, and it keeps the stored text when the poll carries none
    as long as no earlier write of the same loop changed the text. The one
    write of [checkStatus] always follows its poll, so [checkStatus] on a
    recording as it is stored preserves the stored service and job id, and
    the stored text when the poll carries none. *)
Theorem poll_writes_keep_snapshot (recording : Recording)
    (t : TranscriptionData) (w : World) :
  transcription recording = Some t ->
  (exists new,
     trace (snd (pollUntilComplete net recording w)) = (new ++ trace w)%list /\
     recordings (snd (pollUntilComplete net recording w))
       = replay new (recordings w) /\
     merges_snapshot net recording t w new) /\
  (exists new,
     trace (snd (checkStatus net recording w)) = (new ++ trace w)%list /\
     recordings (snd (checkStatus net recording w))
       = replay new (recordings w) /\
     merges_snapshot net recording t w new /\
     forall i t', In (EvUpdate i t') new ->
       exists adapter jid,
         fst (getAdapter w) = Ok (Some adapter) /\ jobId t = Some jid /\
         new = [EvUpdate i t'; EvFetch (GetTranscript (apiKey adapter) jid)] /\
         t' = mergeStatus t
                (poll_result
                   (net_poll net (fetches (trace w)) (apiKey adapter) jid))
                (clock w)) /\
  (stored (id recording) w = Some t ->
   exists t',
     stored (id recording) (snd (checkStatus net recording w)) = Some t' /\
     service t' = service t /\ jobId t' = jobId t /\
     forall adapter jid,
       fst (getAdapter w) = Ok (Some adapter) -> jobId t = Some jid ->
       truthy (sr_text (poll_result
         (net_poll net (fetches (trace w)) (apiKey adapter) jid))) = false ->
       text t' = text t).
Proof.
  intro Ht. split; [| split].
  - destruct (pollUntilComplete_extends net recording t w Ht)
      as (_ & new & Htrace & Hstore & _).
    exists new. split; [exact Htrace |]. split; [exact Hstore |].
    apply each_write_merges.
    revert Htrace. clear Hstore.
    unfold pollUntilComplete, bind. rewrite getAdapter_state.
    assert (Hidle : trace w = (new ++ trace w)%list ->
              each_write (fun earlier i t' =>
                 i = id recording /\ write_of_poll net t w earlier t') new).
    { intro H. change (trace w) with ([] ++ trace w)%list in H at 1.
      apply app_inv_tail in H. subst new. exact I. }
    destruct (fst (getAdapter w)) as [[adapter |] | e]; cbv beta iota;
      try exact Hidle.
    rewrite Ht.
    destruct (jobId t) as [jid |] eqn:Hj; [| exact Hidle].
    destruct (jid =? ""); [exact Hidle |].
    intro Htrace.
    destruct (pollLoop_each_write adapter recording t jid maxAttempts Hj w)
      as (new' & Htrace' & Hall).
    rewrite Htrace in Htrace'. apply app_inv_tail in Htrace'. subst new'.
    exact Hall.
  - assert (Hidle : exists new,
      trace w = (new ++ trace w)%list /\
      recordings w = replay new (recordings w) /\
      merges_snapshot net recording t w new /\
      forall i t', In (EvUpdate i t') new ->
        exists adapter jid,
          fst (getAdapter w) = Ok (Some adapter) /\ jobId t = Some jid /\
          new = [EvUpdate i t'; EvFetch (GetTranscript (apiKey adapter) jid)] /\
          t' = mergeStatus t
                 (poll_result
                    (net_poll net (fetches (trace w)) (apiKey adapter) jid))
                 (clock w)).
    { exists []. split; [reflexivity |]. split; [reflexivity |].
      split; [apply each_write_merges; exact I | intros i t' []]. }
    unfold checkStatus, bind. rewrite getAdapter_state.
    destruct (fst (getAdapter w)) as [[adapter |] | e] eqn:Ha; cbv beta iota;
      try exact Hidle.
    rewrite Ht.
    destruct (jobId t) as [jid |] eqn:Hj; [| exact Hidle].
    destruct (jid =? ""); [exact Hidle |].
    unfold try_catch, bind. rewrite adapter_checkStatus_run.
    unfold Date_now, recordings_update. cbn [fst snd log recordings clock].
    destruct (existsb (has_id (id recording)) (recordings w)); cbn [snd].
    + eexists [_; _]. split; [reflexivity |]. split; [reflexivity |].
      split.
      * apply each_write_merges. cbn [each_write].
        split; [| exact I]. split; [reflexivity |].
        apply write_of_poll_first, Hj.
      * intros i t' [Heq | [Heq | []]]; [| discriminate].
        inversion Heq; subst. exists adapter, jid.
        split; [reflexivity |]. split; [reflexivity |].
        split; reflexivity.
    + eexists [_]. split; [reflexivity |]. split; [reflexivity |].
      split; [apply each_write_merges; exact I |].
      intros i t' [Heq | []]. discriminate.
  - intro Hstored.
    assert (Hin : existsb (has_id (id recording)) (recordings w) = true).
    { unfold stored, lookup in Hstored.
      destruct (find (has_id (id recording)) (recordings w)) as [r |] eqn:Hf;
        [| discriminate].
      apply existsb_exists. exists r. apply find_some in Hf. exact Hf. }
    unfold checkStatus, bind. rewrite getAdapter_state.
    destruct (fst (getAdapter w)) as [[adapter |] | e] eqn:Ha; cbv beta iota;
      try (exists t; simpl; split; [exact Hstored | auto]).
    rewrite Ht.
    destruct (jobId t) as [jid |] eqn:Hj;
      [| exists t; simpl; split; [exact Hstored | auto]].
    destruct (jid =? "") eqn:Hne.
    { exists t. simpl. split; [exact Hstored | auto]. }
    unfold try_catch, bind. rewrite adapter_checkStatus_run.
    unfold Date_now, recordings_update. simpl. rewrite Hin. simpl.
    eexists. split; [apply (stored_write (id recording) _
                             (log (EvFetch (GetTranscript (apiKey adapter) jid)) w)),
                       Hin |].
    split; [reflexivity |]. split; [exact Hj |].
    intros a j Ha' Hj' Hnone. inversion Ha'; inversion Hj'; subst.
    simpl. unfold or_else. rewrite Hnone. reflexivity.
Qed.

End Merging.

Lemma poll_writes_keep_snapshot_witness :
  exists new,
    trace (snd (pollUntilComplete net_partial recording_in_progress
                  (sample_world [recording_in_progress] 1000)))
      = (new ++ [])%list /\
    recordings (snd (pollUntilComplete net_partial recording_in_progress
                       (sample_world [recording_in_progress] 1000)))
      = replay new [recording_in_progress] /\
    merges_snapshot net_partial recording_in_progress
      (sample_job StProcessing (Some 0%Z))
      (sample_world [recording_in_progress] 1000) new.
Proof.
  exact (proj1 (poll_writes_keep_snapshot net_partial recording_in_progress
                  (sample_job StProcessing (Some 0%Z))
                  (sample_world [recording_in_progress] 1000) eq_refl)).
Defined.

(** C6 as stated fails: a text persisted by the first poll of a loop is
    replaced by the text of the snapshot when the second poll carries none. *)
Lemma poll_loses_earlier_text :
  let w := sample_world [recording_in_progress] 1000 in
  let adapter := new_AssemblyAIAdapter "key" in
  let t := sample_job StProcessing (Some 0%Z) in
  let w1 := snd (pollAttempt net_partial adapter recording_in_progress t "j1" w) in
  let w2 := snd (pollAttempt net_partial adapter recording_in_progress t "j1" w1) in
  snd (pollUntilComplete net_partial recording_in_progress w) = w2 /\
  stored "r2" w = Some t /\
  (exists t1, stored "r2" w1 = Some t1 /\ text t1 = Some "partial") /\
  sr_text (poll_result (net_poll net_partial (fetches (trace w1)) "key" "j1"))
    = None /\
  (exists t2, stored "r2" w2 = Some t2 /\ text t2 = None).
Proof.
  cbv zeta. split; [reflexivity |]. split; [reflexivity |].
  split; [eexists; split; reflexivity |].
  split; [reflexivity |].
  eexists; split; reflexivity.
Qed.

(** ** Clearing *)

Lemma store_update_fresh i t rs :
  ~ In i (map id rs) -> store_update i t rs = rs.
Proof.
  induction rs as [| r rs IH]; intro H; [reflexivity |].
  simpl in *. rewrite IH by tauto.
  unfold has_id. destruct (String.eqb_spec (id r) i); [| reflexivity].
  exfalso. apply H. left. assumption.
Qed.

Lemma store_update_middle i t done r rest :
  id r = i ->
  NoDup (map id (done ++ r :: rest)) ->
  store_update i t (done ++ r :: rest) = (done ++ with_transcription r t :: rest)%list.
Proof.
  intros Hid Hnd. rewrite map_app in Hnd. simpl in Hnd.
  apply NoDup_remove_2 in Hnd. rewrite in_app_iff in Hnd.
  unfold store_update at 1. rewrite map_app. simpl.
  fold (store_update i t done). fold (store_update i t rest).
  rewrite !store_update_fresh by (rewrite <- Hid; tauto).
  unfold has_id. rewrite Hid, String.eqb_refl. reflexivity.
Qed.

(** The loop of [clearAllInProgressTranscriptions], from a store whose part
    [done] was already visited. *)
Lemma clearAll_loop_spec all : forall done clearedCount w,
  recordings w = (done ++ all)%list ->
  NoDup (map id (done ++ all)) ->
  let out := clearAll_loop all clearedCount w in
  fst out
    = Ok (clearedCount + List.length (filter job_in_progress all))%nat /\
  recordings (snd out) = (done ++ map clear_record all)%list /\
  List.length (writes (trace (snd out)))
    = (List.length (writes (trace w))
       + List.length (filter job_in_progress all))%nat.
Proof.
  induction all as [| r rest IH]; intros done n w Hrec Hnd; cbv zeta.
  - simpl. rewrite Nat.add_0_r. rewrite Nat.add_0_r. auto.
  - cbn [clearAll_loop filter map].
    assert (Hshift : forall x, (done ++ x :: rest = (done ++ [x]) ++ rest)%list)
      by (intro x; now rewrite <- app_assoc).
    assert (Hjp : job_in_progress r
                  = match transcription r with
                    | Some t => in_progress (status t) | None => false end)
      by reflexivity.
    assert (Hcr : clear_record r
                  = match transcription r with
                    | Some t => if in_progress (status t)
                                then with_transcription r
                                       (finalizeError t "Cleared by user")
                                else r
                    | None => r end)
      by reflexivity.
    rewrite Hjp, Hcr. clear Hjp Hcr.
    destruct (transcription r) as [t |] eqn:Ht.
    + destruct (in_progress (status t)) eqn:Hp.
      * unfold bind, recordings_update.
        assert (Hin : existsb (has_id (id r)) (recordings w) = true).
        { rewrite Hrec. apply In_existsb. apply in_or_app. right. left.
          reflexivity. }
        rewrite Hin.
        assert (Hw : recordings (write (id r) (finalizeError t "Cleared by user") w)
                     = ((done ++ [with_transcription r
                                    (finalizeError t "Cleared by user")])
                          ++ rest)%list).
        { simpl. rewrite Hrec. rewrite store_update_middle by auto.
          apply Hshift. }
        destruct (IH _ (S n) _ Hw) as (Hout & Hstore & Hcount).
        { rewrite <- Hshift. rewrite map_app in *. exact Hnd. }
        cbv zeta in Hout, Hstore, Hcount.
        rewrite Hout, Hstore, Hcount. simpl.
        rewrite <- app_assoc. simpl.
        repeat split; try reflexivity; f_equal; lia.
      * rewrite Hshift in Hrec, Hnd.
        destruct (IH _ n _ Hrec Hnd) as (Hout & Hstore & Hcount).
        cbv zeta in Hout, Hstore, Hcount.
        rewrite Hout, Hstore, Hcount. rewrite <- app_assoc. auto.
    + rewrite Hshift in Hrec, Hnd.
      destruct (IH _ n _ Hrec Hnd) as (Hout & Hstore & Hcount).
      cbv zeta in Hout, Hstore, Hcount.
      rewrite Hout, Hstore, Hcount. rewrite <- app_assoc. auto.
Qed.

(** C5. On a store whose recordings have distinct ids,
    [clearAllInProgressTranscriptions] turns every recording whose job is
    [processing] or [pending] into the same recording with that job's status
    set to [error] (and the error "Cleared by user"), leaves every other
    recording as it was, and returns the number of recordings it changed,
    which is also the number of writes it made. *)
Theorem clearAllInProgress_exact (w : World) :
  NoDup (map id (recordings w)) ->
  let out := clearAllInProgressTranscriptions w in
  fst out = Ok (List.length (filter job_in_progress (recordings w))) /\
  recordings (snd out) = map clear_record (recordings w) /\
  (forall r, job_in_progress r = false -> clear_record r = r) /\
  (forall r, job_in_progress r = true ->
     clear_record r <> r /\
     exists t,
       transcription r = Some t /\
       transcription (clear_record r) = Some (finalizeError t "Cleared by user") /\
       status (finalizeError t "Cleared by user") = StError) /\
  List.length (writes (trace (snd out)))
    = (List.length (writes (trace w))
       + List.length (filter job_in_progress (recordings w)))%nat.
Proof.
  intro Hnd. cbv zeta.
  unfold clearAllInProgressTranscriptions, bind, get_recordings.
  destruct (clearAll_loop_spec (recordings w) [] 0%nat w eq_refl Hnd)
    as (Hout & Hstore & Hcount).
  cbv zeta in Hout, Hstore, Hcount.
  split; [exact Hout |]. split; [exact Hstore |].
  split; [| split; [| exact Hcount]].
  - intros r Hr. unfold job_in_progress in Hr. unfold clear_record.
    destruct (transcription r) as [t |]; [| reflexivity].
    now rewrite Hr.
  - intros r Hr. unfold job_in_progress in Hr. unfold clear_record.
    destruct (transcription r) as [t |] eqn:Ht; [| discriminate].
    rewrite Hr. split.
    + intro Heq. apply (f_equal transcription) in Heq. simpl in Heq.
      rewrite Ht in Heq. inversion Heq as [Hst].
      apply (f_equal status) in Hst. simpl in Hst. rewrite <- Hst in Hr.
      discriminate.
    + exists t. repeat split.
Qed.

Lemma clearAllInProgress_exact_witness :
  let w := sample_world [recording_in_progress; recording_done; recording_undated]
             5000 in
  fst (clearAllInProgressTranscriptions w) = Ok 2%nat /\
  recordings (snd (clearAllInProgressTranscriptions w))
    = [clear_record recording_in_progress; recording_done;
       clear_record recording_undated].
Proof.
  cbv zeta.
  assert (Hnd : NoDup (map id (recordings
            (sample_world [recording_in_progress; recording_done; recording_undated]
               5000)))).
  { simpl. repeat constructor; simpl; intuition discriminate. }
  destruct (clearAllInProgress_exact _ Hnd) as (Hout & Hstore & _).
  split; [exact Hout | exact Hstore].
Defined.

(** ** The invariant of [completedAt] *)

Lemma merge_ok t st now : completed_iff (mergeStatus t st now).
Proof.
  unfold completed_iff, mergeStatus; simpl.
  destruct (sr_status st); simpl; split; intro H; try discriminate; reflexivity.
Qed.

Lemma finalize_ok t msg :
  completedAt t = None -> completed_iff (finalizeError t msg).
Proof.
  intro H. unfold completed_iff, finalizeError; simpl. rewrite H.
  split; discriminate.
Qed.

Lemma in_progress_not_completed t :
  completed_iff t -> in_progress (status t) = true -> completedAt t = None.
Proof.
  unfold completed_iff. intros [H _] Hp.
  destruct (completedAt t); [| reflexivity].
  specialize (H eq_refl). rewrite H in Hp. discriminate.
Qed.

Lemma event_ok_fetch q : event_ok (EvFetch q).
Proof. exact I. Qed.

Lemma replay_ok new rs :
  Forall event_ok new ->
  (forall r, In r rs -> recording_ok r) ->
  forall r, In r (replay new rs) -> recording_ok r.
Proof.
  induction 1 as [| e new He Hnew IH]; intros Hrs r Hin; simpl in *; auto.
  destruct e as [q | i t | ms]; auto.
  apply In_store_update in Hin. destruct Hin as [Hin | Ht]; auto.
  intros t' Ht'. rewrite Ht in Ht'. inversion Ht'; subst. exact He.
Qed.

Section Invariant.

Variable net : Network.

Lemma loop_event_ok recording t e :
  completedAt t = None -> loop_event net recording t e -> event_ok e.
Proof.
  intros Hc. destruct e as [q | i t' | ms]; simpl; auto.
  intros [_ [(n & key & jid & now & ->) | (msg & ->)]].
  - apply merge_ok.
  - apply finalize_ok, Hc.
Qed.

Lemma pollUntilComplete_ok recording w :
  (forall t, transcription recording = Some t -> completedAt t = None) ->
  extends_by event_ok w (snd (pollUntilComplete net recording w)).
Proof.
  intro Hc. destruct (transcription recording) as [t |] eqn:Ht.
  - eapply extends_weaken; [| apply pollUntilComplete_extends, Ht].
    intro e. apply loop_event_ok. auto.
  - unfold pollUntilComplete, bind. rewrite getAdapter_state, Ht.
    destruct (fst (getAdapter w)) as [[adapter |] | e]; apply extends_refl.
Qed.

Lemma checkStatus_ok recording w :
  extends_by event_ok w (snd (checkStatus net recording w)).
Proof.
  destruct (transcription recording) as [t |] eqn:Ht.
  - eapply extends_weaken; [| apply checkStatus_extends, Ht].
    intros [q | i t' | ms]; simpl; auto.
    intros [_ (n & key & jid & now & ->)]. apply merge_ok.
  - unfold checkStatus, bind. rewrite getAdapter_state, Ht.
    destruct (fst (getAdapter w)) as [[adapter |] | e]; apply extends_refl.
Qed.

Lemma resumePolling_ok recording w :
  recording_ok recording ->
  extends_by event_ok w (snd (resumePolling net recording w)).
Proof.
  intro Hok. unfold resumePolling.
  destruct (transcription recording) as [t |] eqn:Ht; [| apply extends_refl].
  destruct (in_progress (status t)) eqn:Hp; [| apply extends_refl].
  assert (Hc : completedAt t = None)
    by (apply in_progress_not_completed; auto).
  assert (Hpoll : forall w',
            extends_by event_ok w' (snd (pollUntilComplete net recording w'))).
  { intro w'. apply pollUntilComplete_ok. intros t' Ht'. rewrite Ht in Ht'.
    inversion Ht'; subst. exact Hc. }
  cbn [negb]. cbv beta iota.
  destruct (negb (truthy (jobId t))); [apply extends_refl |].
  destruct (startedAt t) as [started |]; [| apply Hpoll].
  apply extends_bind; [apply extends_refl |].
  intros now w1 _.
  destruct (timeoutMs <? now - started)%Z; [| apply Hpoll].
  apply extends_update. simpl. apply finalize_ok, Hc.
Qed.

Lemma transcribe_ok recording options w :
  extends_by event_ok w (snd (transcribe net recording options w)).
Proof.
  unfold transcribe.
  apply extends_bind.
  { rewrite getAdapter_state. apply extends_refl. }
  intros [adapter |] w1 _; [| apply extends_refl].
  apply extends_bind; [apply extends_refl |]. intros now w2 _.
  apply extends_bind.
  { apply extends_update. simpl. unfold completed_iff; simpl.
    split; discriminate. }
  intros [] w3 _.
  apply extends_try.
  - apply extends_bind.
    { apply extends_requests_only; [intro; exact I |].
      apply adapter_transcribe_requests_only. }
    intros result w4 _.
    apply extends_bind; [apply extends_refl |]. intros now' w5 _.
    apply extends_bind.
    { apply extends_update. simpl. unfold completed_iff; simpl.
      destruct (res_status result); simpl; split; intro H;
        try discriminate; reflexivity. }
    intros [] w6 Hupd.
    destruct (status_eqb (res_status result) StProcessing
              && truthy (res_jobId result)) eqn:Hcond; [| apply extends_refl].
    apply extends_bind; [apply extends_refl |].
    intros all w7 Hget. inversion Hget; subst.
    destruct (find (has_id (id recording)) (recordings w7))
      as [updatedRecording |] eqn:Hfind; [| apply extends_refl].
    unfold detached. cbn [snd].
    apply pollUntilComplete_ok. intros t Ht.
    apply recordings_update_ok in Hupd. destruct Hupd as [Hin ->].
    simpl in Hfind.
    match type of Hfind with
    | find _ (store_update _ ?t2 _) = _ =>
        destruct (lookup_store_update (id recording) t2 _ Hin) as (r & _ & Hl)
    end.
    unfold lookup in Hl. rewrite Hl in Hfind. inversion Hfind; subst.
    simpl in Ht. inversion Ht; subst. simpl.
    apply andb_prop in Hcond. destruct Hcond as [Hst _].
    destruct (res_status result); try discriminate. reflexivity.
  - intros e w4 _. apply extends_update. simpl.
    unfold completed_iff; simpl. split; discriminate.
Qed.

Lemma clearAll_loop_ok all : forall clearedCount w,
  (forall r, In r all -> recording_ok r) ->
  extends_by event_ok w (snd (clearAll_loop all clearedCount w)).
Proof.
  induction all as [| r rest IH]; intros n w Hall; cbn [clearAll_loop];
    [apply extends_refl |].
  assert (Hrest : forall x, In x rest -> recording_ok x)
    by (intros; apply Hall; now right).
  destruct (transcription r) as [t |] eqn:Ht; [| apply IH, Hrest].
  destruct (in_progress (status t)) eqn:Hp; [| apply IH, Hrest].
  apply extends_bind; [| intros; apply IH, Hrest].
  apply extends_update. simpl. apply finalize_ok.
  apply in_progress_not_completed; [| exact Hp].
  apply (Hall r); [now left | exact Ht].
Qed.

Lemma clearTimedOut_loop_ok all : forall clearedCount w,
  (forall r, In r all -> recording_ok r) ->
  extends_by event_ok w (snd (clearTimedOut_loop all clearedCount w)).
Proof.
  induction all as [| r rest IH]; intros n w Hall; cbn [clearTimedOut_loop];
    [apply extends_refl |].
  assert (Hrest : forall x, In x rest -> recording_ok x)
    by (intros; apply Hall; now right).
  destruct (transcription r) as [t |] eqn:Ht; [| apply IH, Hrest].
  destruct (in_progress (status t)) eqn:Hp; [| apply IH, Hrest].
  destruct (startedAt t) as [started |]; [| apply IH, Hrest].
  apply extends_bind; [apply extends_refl |].
  intros now w1 _.
  destruct (timeoutMs <? now - started)%Z; [| apply IH, Hrest].
  apply extends_bind; [| intros; apply IH, Hrest].
  apply extends_update. simpl. apply finalize_ok.
  apply in_progress_not_completed; [| exact Hp].
  apply (Hall r); [now left | exact Ht].
Qed.

(** Every call of the manager, on a snapshot that satisfies the invariant
    and a store that does, adds only writes that satisfy it. *)
Lemma run_op_ok op w :
  (forall r, In r (recordings w) -> recording_ok r) ->
  (forall r, op_argument op = Some r -> recording_ok r) ->
  extends_by event_ok w (run_op net op w).
Proof.
  intros Hstore Harg. destruct op as [r o | r o | r | r | |]; simpl.
  - apply transcribe_ok.
  - apply transcribe_ok.
  - apply checkStatus_ok.
  - apply resumePolling_ok. apply Harg. reflexivity.
  - unfold clearTimedOutTranscriptions.
    apply extends_bind; [apply extends_refl |].
    intros all w1 Hget. inversion Hget; subst.
    apply clearTimedOut_loop_ok, Hstore.
  - unfold clearAllInProgressTranscriptions.
    apply extends_bind; [apply extends_refl |].
    intros all w1 Hget. inversion Hget; subst.
    apply clearAll_loop_ok, Hstore.
Qed.

(** What holds of every reachable world and of every snapshot read on the
    way to it. *)
Lemma reachable_ok seen w :
  reachable net seen w ->
  (forall r, In r (recordings w) -> recording_ok r) /\
  (forall r, In r seen -> recording_ok r) /\
  Forall event_ok (trace w).
Proof.
  induction 1 as [w Hfresh Htrace | seen w op Hreach IH Harg
                 | seen w later Hreach IH Hlater | seen w s Hreach IH
                 | seen w r Hreach IH Hr | seen w i Hreach IH].
  - assert (Hok : forall r, In r (recordings w) -> recording_ok r).
    { intros r Hin t Ht. rewrite (Hfresh r Hin) in Ht. discriminate. }
    rewrite Htrace. split; [exact Hok |]. split; [exact Hok | constructor].
  - destruct IH as (Hstore & Hseen & Hlog).
    destruct (run_op_ok op w Hstore) as (_ & new & Htrace & Hrec & Hnew).
    { intros r Hr. apply Hseen, Harg, Hr. }
    assert (Hstore' : forall r, In r (recordings (run_op net op w)) ->
                                recording_ok r).
    { rewrite Hrec. apply replay_ok; assumption. }
    split; [exact Hstore' |]. split.
    + intros r Hin. apply in_app_or in Hin. destruct Hin; auto.
    + rewrite Htrace. apply Forall_app. split; assumption.
  - exact IH.
  - exact IH.
  - destruct IH as (Hstore & Hseen & Hlog).
    assert (Hnew : recording_ok r).
    { intros t Ht. rewrite Hr in Ht. discriminate. }
    split; [| split; [| exact Hlog]]; simpl; intros x [<- | Hin]; auto.
  - destruct IH as (Hstore & Hseen & Hlog).
    split; [| split; [exact Hseen | exact Hlog]]. simpl. intros r Hin.
    apply filter_In in Hin. apply Hstore, Hin.
Qed.

(** C1. In every world reached by calls of the manager ([transcribe],
    [retryTranscription], [checkStatus], [resumePolling] and the polling loop
    they run, [clearTimedOutTranscriptions],
    [clearAllInProgressTranscriptions]), every stored recording with a
    transcription has [completedAt] set if and only if its status is
    [completed]; and so has every transcription that was written on the way,
    so the same holds at each moment in between. *)
Theorem completedAt_iff_completed (seen : list Recording) (w : World) :
  reachable net seen w ->
  (forall r t, In r (recordings w) -> transcription r = Some t ->
     (isSome (completedAt t) = true <-> status t = StCompleted)) /\
  (forall i t, In (EvUpdate i t) (trace w) ->
     (isSome (completedAt t) = true <-> status t = StCompleted)).
Proof.
  intro Hreach. destruct (reachable_ok seen w Hreach) as (Hstore & _ & Hlog).
  split.
  - intros r t Hin Ht. exact (Hstore r Hin t Ht).
  - intros i t Hin. rewrite Forall_forall in Hlog.
    exact (Hlog _ Hin).
Qed.

End Invariant.

Lemma completedAt_iff_completed_witness :
  let fresh := sample_recording "r1" None in
  let w := run_op net_partial (OpTranscribe fresh None)
             (sample_world [fresh] 1000) in
  (exists t, stored "r1" w = Some t /\ status t = StCompleted) /\
  (forall r t, In r (recordings w) -> transcription r = Some t ->
     (isSome (completedAt t) = true <-> status t = StCompleted)) /\
  (forall i t, In (EvUpdate i t) (trace w) ->
     (isSome (completedAt t) = true <-> status t = StCompleted)).
Proof.
  cbv zeta. split.
  - eexists. split; reflexivity.
  - apply (completedAt_iff_completed net_partial
             (recordings (run_op net_partial
                            (OpTranscribe (sample_recording "r1" None) None)
                            (sample_world [sample_recording "r1" None] 1000))
                ++ [sample_recording "r1" None])).
    apply (reach_op net_partial [sample_recording "r1" None]
             (sample_world [sample_recording "r1" None] 1000)
             (OpTranscribe (sample_recording "r1" None) None)).
    + apply (reach_init net_partial
               (sample_world [sample_recording "r1" None] 1000)).
      * intros r [<- | []]. reflexivity.
      * reflexivity.
    + intros r H. inversion H. left. reflexivity.
Defined.

(** * Further properties of the code *)

(** ** Availability *)

Lemma getAdapter_ready w :
  getAdapter w =
    (Ok (if isTranscriptionReady (settings w)
         then Some (new_AssemblyAIAdapter (assemblyAIKey (settings w)))
         else None), w).
Proof.
  unfold getAdapter, bind, get_settings, ret, isTranscriptionReady.
  destruct (enabled (settings w)); simpl; [| reflexivity].
  destruct (settings_service (settings w) =? "assemblyai"); simpl;
    [| reflexivity].
  destruct (assemblyAIKey (settings w)); reflexivity.
Qed.

(** X1. The availability check of the manager and the readiness check of
    the settings store agree: an adapter can be built exactly when
    transcription is enabled, the service is "assemblyai" and the API key is
    not empty. *)
Theorem isAvailable_iff_ready (w : World) :
  isAvailable w = (Ok (isTranscriptionReady (settings w)), w).
Proof.
  unfold isAvailable, bind, ret. rewrite getAdapter_ready.
  destruct (isTranscriptionReady (settings w)); reflexivity.
Qed.

Section Unavailable.

Variable net : Network.

(** X2. When no adapter is available, [transcribe], [retryTranscription],
    [checkStatus] and the polling loop return without any effect: no write,
    no request, no wait. *)
Theorem unavailable_is_noop (recording : Recording)
    (options : option TranscriptionOptions) (w : World) :
  isTranscriptionReady (settings w) = false ->
  transcribe net recording options w = (Ok tt, w) /\
  retryTranscription net recording options w = (Ok tt, w) /\
  checkStatus net recording w = (Ok tt, w) /\
  pollUntilComplete net recording w = (Ok tt, w).
Proof.
  intro H.
  unfold retryTranscription, transcribe, checkStatus, pollUntilComplete, bind.
  rewrite getAdapter_ready, H. repeat split.
Qed.

(** X3. [transcribe] on a recording that is not in the store rejects with
    the store's "not found" error before anything is sent: the world is
    unchanged. *)
Theorem transcribe_unknown_recording (recording : Recording)
    (options : option TranscriptionOptions) (w : World) :
  isTranscriptionReady (settings w) = true ->
  existsb (has_id (id recording)) (recordings w) = false ->
  transcribe net recording options w =
    (Throw (ErrorObj ("Recording with id " ++ id recording ++ " not found")), w).
Proof.
  intros Hready Hin.
  unfold transcribe, bind. rewrite getAdapter_ready, Hready.
  unfold Date_now, recordings_update. cbv beta iota. rewrite Hin. reflexivity.
Qed.

End Unavailable.

Lemma unavailable_is_noop_witness :
  let w := {| recordings := [recording_in_progress];
              settings := {| enabled := true; autoTranscribe := true;
                             settings_service := "assemblyai";
                             assemblyAIKey := ""; language := "auto";
                             speaker_labels := true; speakers_expected := 2;
                             enableLiveTranscription := true |};
              clock := 0; trace := [] |} in
  transcribe net_stuck recording_in_progress None w = (Ok tt, w) /\
  retryTranscription net_stuck recording_in_progress None w = (Ok tt, w) /\
  checkStatus net_stuck recording_in_progress w = (Ok tt, w) /\
  pollUntilComplete net_stuck recording_in_progress w = (Ok tt, w).
Proof.
  cbv zeta. apply (unavailable_is_noop net_stuck). reflexivity.
Defined.

Lemma transcribe_unknown_recording_witness :
  let w := sample_world [recording_done] 1000 in
  transcribe net_stuck recording_in_progress None w =
    (Throw (ErrorObj "Recording with id r2 not found"), w).
Proof.
  cbv zeta.
  apply (transcribe_unknown_recording net_stuck recording_in_progress None
           (sample_world [recording_done] 1000)); reflexivity.
Defined.

(** ** Requests of the adapter *)

Lemma match_auto {A} (s : string) (a b : A) :
  match s with "auto" => a | _ => b end = if s =? "auto" then a else b.
Proof.
  destruct (String.eqb_spec s "auto") as [-> | Hne]; [reflexivity |].
  repeat match goal with
         | |- context [match ?x with _ => _ end] =>
             is_var x; destruct x; try reflexivity
         end.
  exfalso. apply Hne. reflexivity.
Qed.

Section AdapterRequests.

Variable net : Network.

(** X4. The submit operation sends the upload first and the transcript
    request only after the upload succeeded, with the body built from the
    upload URL; when the upload fails nothing else is sent. It never touches
    the store or the clock. *)
Theorem adapter_transcribe_requests (this : AssemblyAIAdapter) (b : Blob)
    (options : option TranscriptionOptions) (w : World) :
  let upload :=
    EvFetch (PostUpload (apiKey this)
               (if blob_type b =? "" then "application/octet-stream"
                else blob_type b) b) in
  let w' := snd (adapter_transcribe net this b options w) in
  recordings w' = recordings w /\ clock w' = clock w /\
  match fst (uploadFile net this b w) with
  | Throw _ => trace w' = upload :: trace w
  | Ok uploadUrl =>
      trace w' =
        EvFetch (PostTranscript (apiKey this) (transcript_body uploadUrl options))
          :: upload :: trace w
  end.
Proof.
  cbv zeta.
  destruct (adapter_transcribe_requests_only net this b options w)
    as (Hr & _ & Hc & _).
  split; [exact Hr |]. split; [exact Hc |].
  rewrite adapter_transcribe_cases.
  assert (Hup : snd (uploadFile net this b w)
                = log (EvFetch (PostUpload (apiKey this)
                         (if blob_type b =? "" then "application/octet-stream"
                          else blob_type b) b)) w).
  { unfold uploadFile, bind, fetch_upload, throw, await, ret.
    destruct (net_upload net _ _ _ _) as [response | e]; [| reflexivity].
    destruct (ok response); [| reflexivity]. simpl.
    destruct (body_json response); reflexivity. }
  destruct (uploadFile net this b w) as [[url | e] w1]; simpl in *; subst w1.
  - assert (Hct : forall w0, snd (createTranscript net this url options w0)
                    = log (EvFetch (PostTranscript (apiKey this)
                                      (transcript_body url options))) w0).
    { intro w0. unfold createTranscript, bind, fetch_transcript, throw, await, ret.
      destruct (net_transcript net _ _ _) as [response | e]; [| reflexivity].
      destruct (ok response); simpl.
      - destruct (body_json response); reflexivity.
      - destruct (body_text response); reflexivity. }
    match goal with |- context [createTranscript net this url options ?w0] =>
      specialize (Hct w0);
      destruct (createTranscript net this url options w0) as [[jid | e] w2]
    end; simpl in *; subst w2; reflexivity.
  - reflexivity.
Qed.

(** X5. The status check of the adapter never throws and sends exactly one
    request. Whatever goes wrong with it (the request is rejected, the
    response is not ok, the body cannot be read) comes back as a result with
    status [error], an error message and no text. *)
Theorem adapter_checkStatus_never_throws (this : AssemblyAIAdapter)
    (jid : string) (w : World) :
  exists st,
    adapter_checkStatus net this jid w
      = (Ok st, log (EvFetch (GetTranscript (apiKey this) jid)) w) /\
    match net_poll net (fetches (trace w)) (apiKey this) jid with
    | Throw e =>
        sr_status st = StError /\ sr_text st = None /\
        sr_error st = Some (message_or "Failed to check status" e)
    | Ok response =>
        match ok response, body_json response with
        | true, Ok data =>
            sr_status st = mapStatus (data_status data) /\
            sr_error st = data_error data
        | _, _ =>
            sr_status st = StError /\ sr_text st = None /\
            exists msg, sr_error st = Some msg
        end
    end.
Proof.
  eexists. split; [apply adapter_checkStatus_run |].
  unfold poll_result.
  destruct (net_poll net _ _ _) as [response | e]; [| repeat split].
  destruct (ok response).
  - destruct (body_json response); simpl; repeat split; eauto.
  - destruct (body_text response), (body_json response); simpl;
      repeat split; eauto.
Qed.

End AdapterRequests.

(** X6. The body of the transcript request: it always asks for punctuation,
    formatted text and the "universal-2" model on the uploaded URL; language
    detection and a language code are never sent together, the code is never
    "auto" or empty; and the expected number of speakers is sent only along
    with speaker labels, and never as 0. *)
Theorem transcript_body_wellformed (audioUrl : string)
    (options : option TranscriptionOptions) :
  let b := transcript_body audioUrl options in
  audio_url b = audioUrl /\ punctuate b = true /\ format_text b = true /\
  speech_model b = "universal-2" /\
  (language_detection b = None \/ language_code b = None) /\
  language_code b <> Some "auto" /\ language_code b <> Some "" /\
  (body_speakers_expected b <> None -> body_speaker_labels b = Some true) /\
  body_speakers_expected b <> Some 0%Z.
Proof.
  cbv zeta. unfold transcript_body.
  repeat (split; [reflexivity |]).
  cbn [language_detection language_code body_speakers_expected body_speaker_labels].
  set (lang := match options with Some o => opt_language o | None => None end).
  set (labels := match options with
                 | Some o => match opt_speaker_labels o with
                             | Some true => true | _ => false end
                 | None => false end).
  set (expected := match options with
                   | Some o => opt_speakers_expected o | None => None end).
  clearbody lang labels expected.
  assert (Hlang :
    (if truthy lang then match lang with Some "auto" => Some true | _ => None end
     else None) = None \/
    (if truthy lang
     then match lang with Some "auto" => @None string | _ => lang end
     else None) = None).
  { destruct lang as [s |]; simpl; [| auto].
    destruct (s =? ""); simpl; [auto |].
    rewrite (match_auto s (Some true) None), (match_auto s None (Some s)).
    destruct (s =? "auto"); auto. }
  split; [exact Hlang |].
  split; [| split; [| split]].
  - destruct lang as [s |]; simpl; [| discriminate].
    destruct (s =? ""); simpl; [discriminate |].
    rewrite (match_auto s None (Some s)).
    destruct (String.eqb_spec s "auto"); [discriminate |].
    intro H. inversion H. contradiction.
  - destruct lang as [s |]; simpl; [| discriminate].
    destruct (String.eqb_spec s ""); simpl; [discriminate |].
    rewrite (match_auto s None (Some s)).
    destruct (s =? "auto"); [discriminate |].
    intro H. inversion H. contradiction.
  - destruct labels; [reflexivity |]. intro H. contradiction.
  - destruct labels; [| discriminate].
    destruct expected as [n |]; [| discriminate].
    destruct (Z.eqb_spec n 0); [discriminate |].
    intro H. inversion H. contradiction.
Qed.

(** ** The polling loop, to its first terminal answer *)

Section PollingStops.

Variable net : Network.

Lemma pollLoop_until_terminal adapter recording t jid k :
  forall remaining w,
  (k < remaining)%nat ->
  existsb (has_id (id recording)) (recordings w) = true ->
  (forall j, (j < k)%nat ->
     is_terminal (sr_status (poll_result
       (net_poll net (fetches (trace w) + j) (apiKey adapter) jid))) = false) ->
  is_terminal (sr_status (poll_result
    (net_poll net (fetches (trace w) + k) (apiKey adapter) jid))) = true ->
  let st := poll_result (net_poll net (fetches (trace w) + k) (apiKey adapter) jid) in
  let w' := snd (pollLoop net adapter recording t jid remaining w) in
  fst (pollLoop net adapter recording t jid remaining w) = Ok tt /\
  fetches (trace w') = (fetches (trace w) + S k)%nat /\
  clock w' = (clock w + 5000 * Z.of_nat k)%Z /\
  stored (id recording) w' = Some (mergeStatus t st (clock w'))  .
Proof.
  induction k as [| k IH]; intros remaining w Hlt Hin Hbefore Hterm; cbv zeta.
  - destruct remaining as [| n]; [lia |].
    cbn [pollLoop]. unfold bind. rewrite pollAttempt_run by exact Hin.
    cbv zeta. rewrite Nat.add_0_r in Hterm |- *. rewrite Hterm.
    cbv beta iota. cbn [fst snd].
    split; [reflexivity |]. split; [unfold fetches; simpl; lia |].
    split; [simpl; lia |].
    apply stored_write. simpl. exact Hin.
  - destruct remaining as [| n]; [lia |].
    cbn [pollLoop]. unfold bind. rewrite pollAttempt_run by exact Hin.
    cbv zeta.
    pose proof (Hbefore 0%nat ltac:(lia)) as H0.
    rewrite Nat.add_0_r in H0. rewrite H0.
    set (w2 := pause 5000 _).
    assert (Hf : fetches (trace w2) = S (fetches (trace w))) by reflexivity.
    assert (Hc : clock w2 = (clock w + 5000)%Z) by reflexivity.
    assert (Hin2 : existsb (has_id (id recording)) (recordings w2) = true).
    { subst w2. simpl. rewrite existsb_store_update. exact Hin. }
    assert (Hshift : forall j, (fetches (trace w2) + j = fetches (trace w) + S j)%nat)
      by (intro j; rewrite Hf; lia).
    destruct (IH n w2 ltac:(lia) Hin2) as (Hok & Hcount & Hclock & Hstored).
    { intros j Hj. rewrite Hshift. apply Hbefore. lia. }
    { rewrite Hshift. exact Hterm. }
    cbv zeta in Hok, Hcount, Hclock, Hstored.
    split; [exact Hok |]. split; [rewrite Hcount, Hf; lia |].
    split; [rewrite Hclock, Hc; lia |].
    rewrite Hstored, Hshift. reflexivity.
Qed.

(** X7. The polling loop stops at the first answer that is [completed] or
    [error]. If the answers to the first [k] polls are not terminal and the
    next one is ([k] below 120), the loop returns after exactly [k + 1]
    polls and [k] waits of five seconds, and the job is left as the merge of
    the snapshot with that answer: its status and error are those of the
    answer, and [completedAt] is the time of the last poll exactly when the
    answer is [completed]. *)
Theorem pollUntilComplete_stops_at_terminal (recording : Recording) (w : World)
    (adapter : AssemblyAIAdapter) (t : TranscriptionData) (jid : string)
    (k : nat) :
  fst (getAdapter w) = Ok (Some adapter) ->
  transcription recording = Some t ->
  jobId t = Some jid -> jid <> "" ->
  existsb (has_id (id recording)) (recordings w) = true ->
  (k < 120)%nat ->
  (forall j, (j < k)%nat ->
     is_terminal (sr_status (poll_result
       (net_poll net (fetches (trace w) + j) (apiKey adapter) jid))) = false) ->
  is_terminal (sr_status (poll_result
    (net_poll net (fetches (trace w) + k) (apiKey adapter) jid))) = true ->
  let st := poll_result (net_poll net (fetches (trace w) + k) (apiKey adapter) jid) in
  let w' := snd (pollUntilComplete net recording w) in
  fst (pollUntilComplete net recording w) = Ok tt /\
  fetches (trace w') = (fetches (trace w) + S k)%nat /\
  clock w' = (clock w + 5000 * Z.of_nat k)%Z /\
  exists final,
    stored (id recording) w' = Some final /\
    status final = sr_status st /\ error final = sr_error st /\
    jobId final = Some jid /\
    completedAt final
      = (if status_eqb (sr_status st) StCompleted then Some (clock w') else None).
Proof.
  intros Ha Ht Hj Hne Hin Hk Hbefore Hterm. cbv zeta.
  unfold pollUntilComplete, bind. rewrite getAdapter_state, Ha.
  cbv beta iota. rewrite Ht, Hj.
  apply String.eqb_neq in Hne. rewrite Hne.
  destruct (pollLoop_until_terminal adapter recording t jid k maxAttempts w
              Hk Hin Hbefore Hterm) as (Hok & Hcount & Hclock & Hstored).
  cbv zeta in Hok, Hcount, Hclock, Hstored.
  split; [exact Hok |]. split; [exact Hcount |]. split; [exact Hclock |].
  eexists. split; [exact Hstored |].
  simpl. repeat split. exact Hj.
Qed.

End PollingStops.

Lemma pollUntilComplete_stops_at_terminal_witness :
  let w := sample_world [recording_in_progress] 1000 in
  let w' := snd (pollUntilComplete net_partial recording_in_progress w) in
  fst (pollUntilComplete net_partial recording_in_progress w) = Ok tt /\
  fetches (trace w') = 2%nat /\
  clock w' = 6000%Z /\
  exists final,
    stored "r2" w' = Some final /\
    status final = StCompleted /\ error final = None /\
    jobId final = Some "j1" /\
    completedAt final = Some 6000%Z.
Proof.
  cbv zeta.
  apply (pollUntilComplete_stops_at_terminal net_partial recording_in_progress
           (sample_world [recording_in_progress] 1000)
           (new_AssemblyAIAdapter "key") (sample_job StProcessing (Some 0%Z))
           "j1" 1%nat).
  - reflexivity.
  - reflexivity.
  - reflexivity.
  - discriminate.
  - reflexivity.
  - lia.
  - intros j Hj. assert (j = 0%nat) as -> by lia. reflexivity.
  - reflexivity.
Defined.

(** ** A successful submission *)

Section SubmissionAccepted.

Variable net : Network.



End SubmissionAccepted.


(** ** What the manager leaves alone *)

Lemma map_id_store_update i t rs : map id (store_update i t rs) = map id rs.
Proof.
  induction rs as [| r rs IH]; [reflexivity |].
  simpl. rewrite IH. destruct (has_id i r); reflexivity.
Qed.

Lemma map_id_replay new rs : map id (replay new rs) = map id rs.
Proof.
  induction new as [| [q | i t | ms] new IH]; simpl; auto.
  now rewrite map_id_store_update.
Qed.

Lemma others_store_update i t rs : others i (store_update i t rs) = others i rs.
Proof.
  unfold others. induction rs as [| r rs IH]; [reflexivity |].
  simpl. destruct (has_id i r) eqn:E; simpl.
  - unfold has_id in *. simpl. rewrite E. simpl. exact IH.
  - rewrite E. simpl. now rewrite IH.
Qed.

Lemma others_replay i new rs :
  Forall (writes_to i) new -> others i (replay new rs) = others i rs.
Proof.
  induction 1 as [| e new He Hnew IH]; [reflexivity |].
  destruct e as [q | j t | ms]; simpl in *; auto.
  subst j. now rewrite others_store_update.
Qed.

Lemma clearAll_loop_extends (P : Event -> Prop) all :
  (forall i t, P (EvUpdate i t)) ->
  forall clearedCount w,
  extends_by P w (snd (clearAll_loop all clearedCount w)).
Proof.
  intro HP. induction all as [| r rest IH]; intros n w; cbn [clearAll_loop];
    [apply extends_refl |].
  destruct (transcription r) as [t |]; [| apply IH].
  destruct (in_progress (status t)); [| apply IH].
  apply extends_bind; [apply extends_update, HP | intros; apply IH].
Qed.

Lemma clearTimedOut_loop_extends (P : Event -> Prop) all :
  (forall i t, P (EvUpdate i t)) ->
  forall clearedCount w,
  extends_by P w (snd (clearTimedOut_loop all clearedCount w)).
Proof.
  intro HP. induction all as [| r rest IH]; intros n w;
    cbn [clearTimedOut_loop]; [apply extends_refl |].
  destruct (transcription r) as [t |]; [| apply IH].
  destruct (in_progress (status t)); [| apply IH].
  destruct (startedAt t) as [started |]; [| apply IH].
  apply extends_bind; [apply extends_refl |]. intros now w1 _.
  destruct (timeoutMs <? now - started)%Z; [| apply IH].
  apply extends_bind; [apply extends_update, HP | intros; apply IH].
Qed.

Section Frame.

Variable net : Network.

Lemma loop_event_writes_to recording t e :
  loop_event net recording t e -> writes_to (id recording) e.
Proof. destruct e as [q | i t' | ms]; simpl; auto. intros [H _]. exact H. Qed.

Lemma pollUntilComplete_writes_to recording w :
  extends_by (writes_to (id recording)) w (snd (pollUntilComplete net recording w)).
Proof.
  destruct (transcription recording) as [t |] eqn:Ht.
  - eapply extends_weaken; [| apply pollUntilComplete_extends, Ht].
    apply loop_event_writes_to.
  - unfold pollUntilComplete, bind. rewrite getAdapter_state, Ht.
    destruct (fst (getAdapter w)) as [[adapter |] | e]; apply extends_refl.
Qed.

Lemma checkStatus_writes_to recording w :
  extends_by (writes_to (id recording)) w (snd (checkStatus net recording w)).
Proof.
  destruct (transcription recording) as [t |] eqn:Ht.
  - eapply extends_weaken; [| apply checkStatus_extends, Ht].
    intros e He. eapply loop_event_writes_to, check_event_loop_event, He.
  - unfold checkStatus, bind. rewrite getAdapter_state, Ht.
    destruct (fst (getAdapter w)) as [[adapter |] | e]; apply extends_refl.
Qed.

Lemma resumePolling_writes_to recording w :
  extends_by (writes_to (id recording)) w (snd (resumePolling net recording w)).
Proof.
  unfold resumePolling.
  destruct (transcription recording) as [t |]; [| apply extends_refl].
  destruct (negb (in_progress (status t))); [apply extends_refl |].
  destruct (negb (truthy (jobId t))); [apply extends_refl |].
  destruct (startedAt t) as [started |];
    [| apply pollUntilComplete_writes_to].
  apply extends_bind; [apply extends_refl |]. intros now w1 _.
  destruct (timeoutMs <? now - started)%Z;
    [| apply pollUntilComplete_writes_to].
  apply extends_update. reflexivity.
Qed.

Lemma transcribe_writes_to recording options w :
  extends_by (writes_to (id recording)) w (snd (transcribe net recording options w)).
Proof.
  unfold transcribe.
  apply extends_bind.
  { rewrite getAdapter_state. apply extends_refl. }
  intros [adapter |] w1 _; [| apply extends_refl].
  apply extends_bind; [apply extends_refl |]. intros now w2 _.
  apply extends_bind; [apply extends_update; reflexivity |].
  intros [] w3 _.
  apply extends_try; [| intros; apply extends_update; reflexivity].
  apply extends_bind.
  { apply extends_requests_only; [intro; exact I |].
    apply adapter_transcribe_requests_only. }
  intros result w4 _.
  apply extends_bind; [apply extends_refl |]. intros now' w5 _.
  apply extends_bind; [apply extends_update; reflexivity |].
  intros [] w6 _.
  destruct (status_eqb (res_status result) StProcessing
            && truthy (res_jobId result)); [| apply extends_refl].
  apply extends_bind; [apply extends_refl |].
  intros all w7 Hget. inversion Hget; subst.
  destruct (find (has_id (id recording)) (recordings w7))
    as [updatedRecording |] eqn:Hfind; [| apply extends_refl].
  unfold detached. cbn [snd].
  apply find_some in Hfind. destruct Hfind as [_ Hid].
  unfold has_id in Hid. apply String.eqb_eq in Hid. rewrite <- Hid.
  apply pollUntilComplete_writes_to.
Qed.

Lemma run_op_extends op w : extends_by (op_event op) w (run_op net op w).
Proof.
  destruct op as [r o | r o | r | r | |]; unfold op_event; simpl.
  - apply transcribe_writes_to.
  - apply transcribe_writes_to.
  - apply checkStatus_writes_to.
  - apply resumePolling_writes_to.
  - unfold clearTimedOutTranscriptions.
    apply extends_bind; [apply extends_refl |]. intros all w1 _.
    apply clearTimedOut_loop_extends. intros; exact I.
  - unfold clearAllInProgressTranscriptions.
    apply extends_bind; [apply extends_refl |]. intros all w1 _.
    apply clearAll_loop_extends. intros; exact I.
Qed.

(** X9. No call of the manager adds, removes or reorders recordings, and
    none changes the settings: after any operation the store holds the same
    ids in the same order. *)
Theorem manager_keeps_ids (op : ManagerOp) (w : World) :
  map id (recordings (run_op net op w)) = map id (recordings w) /\
  settings (run_op net op w) = settings w.
Proof.
  destruct (run_op_extends op w) as (Hs & new & _ & Hrec & _).
  split; [| exact Hs]. rewrite Hrec. apply map_id_replay.
Qed.

(** X10. [transcribe], [retryTranscription], [checkStatus] and
    [resumePolling] write to the recording they are called on and to no
    other: every write they log goes to its id, and all the other recordings
    of the store are left exactly as they were. *)
Theorem manager_frame (op : ManagerOp) (recording : Recording) (w : World) :
  op_argument op = Some recording ->
  (exists new,
     trace (run_op net op w) = (new ++ trace w)%list /\
     forall i t, In (EvUpdate i t) new -> i = id recording) /\
  others (id recording) (recordings (run_op net op w))
    = others (id recording) (recordings w).
Proof.
  intro Harg.
  destruct (run_op_extends op w) as (_ & new & Htrace & Hrec & Hall).
  assert (Hto : Forall (writes_to (id recording)) new).
  { eapply Forall_impl; [| exact Hall].
    intros e He. unfold op_event in He. rewrite Harg in He.
    destruct e as [q | i t | ms]; simpl in *; auto. }
  split.
  - exists new. split; [exact Htrace |].
    intros i t Hin. rewrite Forall_forall in Hto. exact (Hto _ Hin).
  - rewrite Hrec. apply others_replay, Hto.
Qed.

End Frame.

Lemma manager_frame_witness :
  let w := sample_world [recording_done; recording_in_progress; recording_undated]
             1000 in
  let w' := run_op net_partial (OpResumePolling recording_in_progress) w in
  (exists new,
     trace w' = (new ++ trace w)%list /\
     forall i t, In (EvUpdate i t) new -> i = "r2") /\
  others "r2" (recordings w') = [recording_done; recording_undated].
Proof.
  cbv zeta.
  exact (manager_frame net_partial (OpResumePolling recording_in_progress)
           recording_in_progress
           (sample_world [recording_done; recording_in_progress; recording_undated]
              1000) eq_refl).
Defined.

(** ** Clearing timed-out jobs, and clearing twice *)

Lemma clearTimedOut_loop_step r rest n w :
  existsb (has_id (id r)) (recordings w) = true ->
  clearTimedOut_loop (r :: rest) n w =
    match transcription r with
    | Some t =>
        if job_timed_out (clock w) r
        then clearTimedOut_loop rest (S n)
               (write (id r) (finalizeError t "Cleared - timed out") w)
        else clearTimedOut_loop rest n w
    | None => clearTimedOut_loop rest n w
    end.
Proof.
  intro Hin. cbn [clearTimedOut_loop]. unfold job_timed_out.
  destruct (transcription r) as [t |]; [| reflexivity].
  destruct (in_progress (status t)); [| reflexivity].
  destruct (startedAt t) as [started |]; [| reflexivity].
  unfold bind, Date_now, recordings_update.
  destruct (timeoutMs <? clock w - started)%Z; [| reflexivity].
  rewrite Hin. reflexivity.
Qed.

Lemma clearTimedOut_loop_spec all : forall done clearedCount w,
  recordings w = (done ++ all)%list ->
  NoDup (map id (done ++ all)) ->
  let out := clearTimedOut_loop all clearedCount w in
  fst out
    = Ok (clearedCount
          + List.length (filter (job_timed_out (clock w)) all))%nat /\
  recordings (snd out) = (done ++ map (expire_record (clock w)) all)%list /\
  clock (snd out) = clock w.
Proof.
  induction all as [| r rest IH]; intros done n w Hrec Hnd; cbv zeta.
  - simpl. rewrite Nat.add_0_r. auto.
  - assert (Hin : existsb (has_id (id r)) (recordings w) = true).
    { rewrite Hrec. apply In_existsb. apply in_or_app. right. left.
      reflexivity. }
    rewrite clearTimedOut_loop_step by exact Hin.
    cbn [filter map]. unfold expire_record at 1.
    assert (Hshift : forall x, (done ++ x :: rest = (done ++ [x]) ++ rest)%list)
      by (intro x; now rewrite <- app_assoc).
    assert (Hnone : job_timed_out (clock w) r = false ->
      fst (clearTimedOut_loop rest n w)
        = Ok (n + List.length (filter (job_timed_out (clock w)) rest))%nat /\
      recordings (snd (clearTimedOut_loop rest n w))
        = (done ++ r :: map (expire_record (clock w)) rest)%list /\
      clock (snd (clearTimedOut_loop rest n w)) = clock w).
    { intros _. rewrite Hshift in Hrec, Hnd.
      destruct (IH _ n _ Hrec Hnd) as (Hout & Hstore & Hclock).
      cbv zeta in Hout, Hstore, Hclock.
      rewrite Hout, Hstore, Hclock. rewrite <- app_assoc. auto. }
    destruct (transcription r) as [t |] eqn:Ht.
    + destruct (job_timed_out (clock w) r) eqn:Hto; [| apply Hnone; reflexivity].
      assert (Hw : recordings (write (id r) (finalizeError t "Cleared - timed out") w)
                   = ((done ++ [with_transcription r
                                  (finalizeError t "Cleared - timed out")])
                        ++ rest)%list).
      { simpl. rewrite Hrec. rewrite store_update_middle by auto. apply Hshift. }
      destruct (IH _ (S n) _ Hw) as (Hout & Hstore & Hclock).
      { rewrite <- Hshift. rewrite map_app in *. exact Hnd. }
      cbv zeta in Hout, Hstore, Hclock. simpl clock in Hout, Hstore, Hclock.
      rewrite Hout, Hstore, Hclock. simpl.
      rewrite <- app_assoc. simpl.
      repeat split; try reflexivity; f_equal; lia.
    + assert (Hto : job_timed_out (clock w) r = false)
        by (unfold job_timed_out; now rewrite Ht).
      rewrite Hto. apply Hnone, Hto.
Qed.

Lemma job_timed_out_in_progress now r :
  job_timed_out now r = true -> job_in_progress r = true.
Proof.
  unfold job_timed_out, job_in_progress.
  destruct (transcription r) as [t |]; [| discriminate].
  destruct (in_progress (status t)); [reflexivity | discriminate].
Qed.

Lemma filter_length_le {A} (f g : A -> bool) (l : list A) :
  (forall x, f x = true -> g x = true) ->
  (List.length (filter f l) <= List.length (filter g l))%nat.
Proof.
  intro H. induction l as [| x l IH]; [reflexivity |]. simpl.
  destruct (f x) eqn:Ef.
  - rewrite (H x Ef). simpl. lia.
  - destruct (g x); simpl; lia.
Qed.

(** X11. On a store whose recordings have distinct ids,
    [clearTimedOutTranscriptions] finalizes as [error] ("Cleared - timed
    out") exactly the jobs that are [processing] or [pending] and whose
    [startedAt] lies more than ten minutes before now, leaves every other
    recording as it was (a job without [startedAt] in particular, however
    old), and returns the number of jobs it finalized, which is never more
    than what [clearAllInProgressTranscriptions] would clear. *)
Theorem clearTimedOut_exact (w : World) :
  NoDup (map id (recordings w)) ->
  let out := clearTimedOutTranscriptions w in
  fst out = Ok (List.length (filter (job_timed_out (clock w)) (recordings w))) /\
  recordings (snd out) = map (expire_record (clock w)) (recordings w) /\
  (forall r,
     job_timed_out (clock w) r = true <->
     exists t started,
       transcription r = Some t /\ in_progress (status t) = true /\
       startedAt t = Some started /\
       (clock w - started > 10 * 60 * 1000)%Z) /\
  (forall r, job_timed_out (clock w) r = false -> expire_record (clock w) r = r) /\
  (forall r t, job_timed_out (clock w) r = true -> transcription r = Some t ->
     transcription (expire_record (clock w) r)
       = Some (finalizeError t "Cleared - timed out")) /\
  (List.length (filter (job_timed_out (clock w)) (recordings w))
   <= List.length (filter job_in_progress (recordings w)))%nat.
Proof.
  intro Hnd. cbv zeta.
  unfold clearTimedOutTranscriptions, bind, get_recordings.
  destruct (clearTimedOut_loop_spec (recordings w) [] 0%nat w eq_refl Hnd)
    as (Hout & Hstore & _).
  cbv zeta in Hout, Hstore.
  split; [exact Hout |]. split; [exact Hstore |].
  split; [| split; [| split]].
  - intro r. unfold job_timed_out.
    destruct (transcription r) as [t |].
    + destruct (in_progress (status t)) eqn:Hp.
      * destruct (startedAt t) as [started |] eqn:Hst.
        -- split.
           ++ intro H. apply Z.ltb_lt in H. unfold timeoutMs in H.
              exists t, started.
              split; [reflexivity |]. split; [exact Hp |].
              split; [exact Hst | lia].
           ++ intros (t' & s' & Ht & _ & Hs & Hlt).
              inversion Ht; subst t'. rewrite Hst in Hs. inversion Hs; subst.
              apply Z.ltb_lt. unfold timeoutMs. lia.
        -- split; [discriminate |].
           intros (t' & s' & Ht & _ & Hs & _). inversion Ht; subst t'.
           rewrite Hst in Hs. discriminate.
      * split; [discriminate |].
        intros (t' & s' & Ht & Hp' & _). inversion Ht; subst.
        rewrite Hp in Hp'. discriminate.
    + split; [discriminate |]. intros (t' & s' & Ht & _). discriminate.
  - intros r Hr. unfold expire_record. rewrite Hr.
    destruct (transcription r); reflexivity.
  - intros r t Hr Ht. unfold expire_record. rewrite Ht, Hr. reflexivity.
  - apply filter_length_le. apply job_timed_out_in_progress.
Qed.

Lemma clearTimedOut_exact_witness :
  let w := sample_world [recording_in_progress; recording_done; recording_undated]
             700000 in
  fst (clearTimedOutTranscriptions w) = Ok 1%nat /\
  recordings (snd (clearTimedOutTranscriptions w))
    = [expire_record 700000 recording_in_progress; recording_done;
       recording_undated].
Proof.
  cbv zeta.
  assert (Hnd : NoDup (map id (recordings
            (sample_world [recording_in_progress; recording_done; recording_undated]
               700000)))).
  { simpl. repeat constructor; simpl; intuition discriminate. }
  destruct (clearTimedOut_exact _ Hnd) as (Hout & Hstore & _).
  split; [exact Hout | exact Hstore].
Defined.

Lemma clearAll_loop_idle all : forall clearedCount w,
  (forall r, In r all -> job_in_progress r = false) ->
  clearAll_loop all clearedCount w = (Ok clearedCount, w).
Proof.
  induction all as [| r rest IH]; intros n w Hall; [reflexivity |].
  cbn [clearAll_loop].
  pose proof (Hall r (or_introl eq_refl)) as Hr. unfold job_in_progress in Hr.
  destruct (transcription r) as [t |].
  - rewrite Hr. apply IH. intros; apply Hall; now right.
  - apply IH. intros; apply Hall; now right.
Qed.

Lemma clearTimedOut_loop_idle all : forall clearedCount w,
  (forall r, In r all -> job_in_progress r = false) ->
  clearTimedOut_loop all clearedCount w = (Ok clearedCount, w).
Proof.
  induction all as [| r rest IH]; intros n w Hall; [reflexivity |].
  cbn [clearTimedOut_loop].
  pose proof (Hall r (or_introl eq_refl)) as Hr. unfold job_in_progress in Hr.
  destruct (transcription r) as [t |].
  - rewrite Hr. apply IH. intros; apply Hall; now right.
  - apply IH. intros; apply Hall; now right.
Qed.

Lemma clear_record_idle r : job_in_progress (clear_record r) = false.
Proof.
  unfold clear_record, job_in_progress.
  destruct (transcription r) as [t |] eqn:Ht; [| now rewrite Ht].
  destruct (in_progress (status t)) eqn:Hp; [reflexivity |].
  now rewrite Ht.
Qed.

Section Quiescent.

Variable net : Network.

Lemma resumePolling_idle recording w :
  job_in_progress recording = false ->
  resumePolling net recording w = (Ok tt, w).
Proof.
  unfold job_in_progress, resumePolling.
  destruct (transcription recording) as [t |]; [| reflexivity].
  intros ->. reflexivity.
Qed.

(** X12. After [clearAllInProgressTranscriptions] (on a store with distinct
    ids) nothing is left to resume or to clear: from then on, at any later
    time and under any settings, [resumePolling] on each stored recording
    returns without effect, and both clear operations return 0 and leave
    the world as it is. *)
Theorem clearAll_quiesces (w : World) :
  NoDup (map id (recordings w)) ->
  let cleared := recordings (snd (clearAllInProgressTranscriptions w)) in
  forall w',
    recordings w' = cleared ->
    (forall r, In r (recordings w') -> resumePolling net r w' = (Ok tt, w')) /\
    clearAllInProgressTranscriptions w' = (Ok 0%nat, w') /\
    clearTimedOutTranscriptions w' = (Ok 0%nat, w').
Proof.
  intros Hnd cleared w' Hw'.
  assert (Hidle : forall r, In r (recordings w') -> job_in_progress r = false).
  { intros r Hin. rewrite Hw' in Hin. subst cleared.
    destruct (clearAll_loop_spec (recordings w) [] 0%nat w eq_refl Hnd)
      as (_ & Hstore & _).
    unfold clearAllInProgressTranscriptions, bind, get_recordings in Hin.
    cbv zeta in Hstore. simpl in Hstore, Hin. rewrite Hstore in Hin.
    apply in_map_iff in Hin. destruct Hin as (r0 & <- & _).
    apply clear_record_idle. }
  split; [| split].
  - intros r Hin. apply resumePolling_idle, Hidle, Hin.
  - unfold clearAllInProgressTranscriptions, bind, get_recordings.
    apply clearAll_loop_idle, Hidle.
  - unfold clearTimedOutTranscriptions, bind, get_recordings.
    apply clearTimedOut_loop_idle, Hidle.
Qed.

End Quiescent.

Lemma clearAll_quiesces_witness :
  let w := sample_world [recording_in_progress; recording_done; recording_undated]
             5000 in
  let w' := snd (clearAllInProgressTranscriptions w) in
  (forall r, In r (recordings w') -> resumePolling net_stuck r w' = (Ok tt, w')) /\
  clearAllInProgressTranscriptions w' = (Ok 0%nat, w') /\
  clearTimedOutTranscriptions w' = (Ok 0%nat, w').
Proof.
  cbv zeta.
  assert (Hnd : NoDup (map id (recordings
            (sample_world [recording_in_progress; recording_done; recording_undated]
               5000)))).
  { simpl. repeat constructor; simpl; intuition discriminate. }
  exact (clearAll_quiesces net_stuck _ Hnd _ eq_refl).
Defined.

(** ** A recording that is gone *)

Section Missing.

Variable net : Network.

(** X13. [checkStatus] of the manager never rejects: whatever the adapter
    returns, and even when the recording is no longer stored (the store's
    "not found" error is caught and only logged), it returns normally. *)
Theorem checkStatus_never_rejects (recording : Recording) (w : World) :
  fst (checkStatus net recording w) = Ok tt.
Proof.
  unfold checkStatus, bind. rewrite getAdapter_state.
  destruct (getAdapter_value w) as ([adapter |] & -> & _); [| reflexivity].
  cbv beta iota.
  destruct (transcription recording) as [t |]; [| reflexivity].
  destruct (jobId t) as [jid |]; [| reflexivity].
  destruct (jid =? ""); [reflexivity |].
  unfold try_catch, bind. rewrite adapter_checkStatus_run.
  unfold Date_now, recordings_update. cbv beta iota.
  destruct (existsb _ _); reflexivity.
Qed.

(** X14. Resuming a job whose recording is no longer stored: with an adapter
    configured and the job not expired, [resumePolling] sends one poll and
    then rejects with the store's "not found" error (the write fails, and so
    does the write of the [catch]); the store stays as it was and no further
    poll is made. *)
Theorem resumePolling_unknown_recording (recording : Recording)
    (t : TranscriptionData) (jid : string) (adapter : AssemblyAIAdapter)
    (w : World) :
  fst (getAdapter w) = Ok (Some adapter) ->
  transcription recording = Some t ->
  in_progress (status t) = true ->
  jobId t = Some jid -> jid <> "" ->
  (forall started, startedAt t = Some started ->
     (clock w - started <= 10 * 60 * 1000)%Z) ->
  existsb (has_id (id recording)) (recordings w) = false ->
  resumePolling net recording w =
    (Throw (ErrorObj ("Recording with id " ++ id recording ++ " not found")),
     log (EvFetch (GetTranscript (apiKey adapter) jid)) w).
Proof.
  intros Ha Ht Hp Hj Hne Hfresh Hin.
  assert (Hpoll : pollUntilComplete net recording w =
    (Throw (ErrorObj ("Recording with id " ++ id recording ++ " not found")),
     log (EvFetch (GetTranscript (apiKey adapter) jid)) w)).
  { unfold pollUntilComplete, bind. rewrite getAdapter_state, Ha.
    cbv beta iota. rewrite Ht, Hj.
    apply String.eqb_neq in Hne. rewrite Hne.
    change maxAttempts with (S 119).
    change (pollLoop net adapter recording t jid (S 119) w)
      with (bind (pollAttempt net adapter recording t jid)
              (fun step => match step with
                           | Return => ret tt
                           | Continue => pollLoop net adapter recording t jid 119
                           end) w).
    unfold bind. rewrite pollAttempt_missing by exact Hin. reflexivity. }
  unfold resumePolling. rewrite Ht, Hp. cbn [negb]. cbv beta iota.
  rewrite Hj, (truthy_Some jid Hne). cbn [negb]. cbv beta iota.
  destruct (startedAt t) as [started |]; [| exact Hpoll].
  unfold bind, Date_now. cbv beta iota.
  specialize (Hfresh started eq_refl).
  assert (H : (timeoutMs <? clock w - started)%Z = false).
  { apply Z.ltb_ge. unfold timeoutMs. lia. }
  rewrite H. exact Hpoll.
Qed.

End Missing.

Lemma resumePolling_unknown_recording_witness :
  let w := sample_world [recording_done] 1000 in
  resumePolling net_stuck recording_in_progress w =
    (Throw (ErrorObj "Recording with id r2 not found"),
     log (EvFetch (GetTranscript "key" "j1")) w).
Proof.
  cbv zeta.
  apply (resumePolling_unknown_recording net_stuck recording_in_progress
           (sample_job StProcessing (Some 0%Z)) "j1"
           (new_AssemblyAIAdapter "key") (sample_world [recording_done] 1000)).
  - reflexivity.
  - reflexivity.
  - reflexivity.
  - reflexivity.
  - discriminate.
  - intros started H. inversion H. simpl. lia.
  - reflexivity.
Defined.

(** ** The automatic cleanup *)

Lemma includes_In ids x : includes ids x = true <-> In x ids.
Proof.
  unfold includes. rewrite existsb_exists. split.
  - intros (y & Hin & Heq). apply String.eqb_eq in Heq. now subst.
  - intro H. exists x. split; [exact H | apply String.eqb_refl].
Qed.

Lemma includes_false ids x : includes ids x = false <-> ~ In x ids.
Proof.
  rewrite <- includes_In. destruct (includes ids x); split; intro H;
    try discriminate; try reflexivity; try (intro; discriminate).
  exfalso. apply H. reflexivity.
Qed.

Lemma Set_add_In x y s : In x (Set_add y s) <-> x = y \/ In x s.
Proof.
  unfold Set_add. destruct (includes s y) eqn:E.
  - apply includes_In in E. split; [auto |]. intros [-> | H]; auto.
  - rewrite in_app_iff. simpl. intuition.
Qed.

Lemma Set_add_NoDup y s : NoDup s -> NoDup (Set_add y s).
Proof.
  intro H. unfold Set_add. destruct (includes s y) eqn:E; [exact H |].
  apply includes_false in E.
  apply NoDup_app; [exact H | repeat constructor; intros [] |].
  intros x Hin [<- | []]. exact (E Hin).
Qed.

Lemma forEach_add_In p all : forall s x,
  In x (forEach_add p all s) <->
  In x s \/ exists r, In r all /\ p r = true /\ id r = x.
Proof.
  unfold forEach_add.
  induction all as [| r all IH]; intros s x; simpl.
  - split; [auto |]. intros [H | (r & [] & _)]. exact H.
  - rewrite IH. destruct (p r) eqn:Hp.
    + rewrite Set_add_In. split.
      * intros [[-> | H] | (r0 & Hin & Hp0 & Hid)]; eauto 6.
      * intros [H | (r0 & [<- | Hin] & Hp0 & Hid)]; eauto 6.
    + split.
      * intros [H | (r0 & Hin & Hp0 & Hid)]; eauto 6.
      * intros [H | (r0 & [<- | Hin] & Hp0 & Hid)]; eauto 6.
        rewrite Hp in Hp0. discriminate.
Qed.

Lemma forEach_add_NoDup p all : forall s,
  NoDup s -> NoDup (forEach_add p all s).
Proof.
  unfold forEach_add.
  induction all as [| r all IH]; intros s H; simpl; [exact H |].
  apply IH. destruct (p r); [apply Set_add_NoDup, H | exact H].
Qed.

Lemma insertNewest_perm r l : Permutation (insertNewest r l) (r :: l).
Proof.
  induction l as [| x l IH]; simpl; [reflexivity |].
  destruct (createdAt x <=? createdAt r)%Z; [reflexivity |].
  rewrite IH. apply perm_swap.
Qed.

Lemma sortNewest_perm l : Permutation (sortNewest l) l.
Proof.
  induction l as [| r l IH]; simpl; [reflexivity |].
  rewrite insertNewest_perm. now constructor.
Qed.

Lemma insertByKey_perm r l : Permutation (insertByKey r l) (r :: l).
Proof.
  induction l as [| x l IH]; simpl; [reflexivity |].
  destruct (id r <=? id x)%string; [reflexivity |].
  rewrite IH. apply perm_swap.
Qed.

Lemma keyOrder_perm l : Permutation (keyOrder l) l.
Proof.
  induction l as [| r l IH]; simpl; [reflexivity |].
  rewrite insertByKey_perm. now constructor.
Qed.

Lemma getAll_perm rs : Permutation (sortNewest (keyOrder rs)) rs.
Proof. rewrite sortNewest_perm. apply keyOrder_perm. Qed.

Lemma insertNewest_sorted r l :
  newestFirst l -> newestFirst (insertNewest r l).
Proof.
  induction 1 as [| x l Hx Hl IH]; simpl.
  - constructor; [intros y [] | constructor].
  - destruct (Z.leb_spec (createdAt x) (createdAt r)).
    + constructor; [| constructor; assumption].
      intros y [<- | Hy]; [assumption |]. specialize (Hx y Hy). lia.
    + constructor; [| exact IH].
      intros y Hy.
      apply (Permutation_in _ (insertNewest_perm r l)) in Hy.
      destruct Hy as [<- | Hy]; [lia | auto].
Qed.

Lemma sortNewest_sorted l : newestFirst (sortNewest l).
Proof.
  induction l as [| r l IH]; simpl; [constructor |].
  apply insertNewest_sorted, IH.
Qed.

Lemma total_size_perm (l l' : list Recording) :
  Permutation l l' ->
  fold_right (fun r total => (total + size r)%Z) 0%Z l
    = fold_right (fun r total => (total + size r)%Z) 0%Z l'.
Proof.
  induction 1 as [| x l l' _ IH | x y l | l l' l'' _ IH1 _ IH2]; simpl;
    try lia; congruence.
Qed.

(** X15. [db.getAllRecordings] returns every stored recording exactly once,
    ordered newest first; [recordings.load] puts that list into the store,
    and [db.getTotalStorageSize] is the sum of the sizes whatever the
    order. *)
Theorem getAllRecordings_sorted (w : World) :
  exists all,
    getAllRecordings w = (Ok all, w) /\
    Permutation all (recordings w) /\ newestFirst all /\
    recordings_load w = (Ok tt, with_recordings all w) /\
    getTotalStorageSize w
      = (Ok (fold_right (fun r total => (total + size r)%Z) 0%Z (recordings w)), w).
Proof.
  exists (sortNewest (keyOrder (recordings w))).
  split; [reflexivity |].
  split; [apply getAll_perm |].
  split; [apply sortNewest_sorted |].
  split; [reflexivity |].
  unfold getTotalStorageSize, bind, getAllRecordings, ret. f_equal. f_equal.
  rewrite <- fold_left_rev_right.
  apply total_size_perm.
  rewrite <- Permutation_rev. apply getAll_perm.
Qed.

Section CleanupFacts.

Variable daysBefore : Z -> Z -> Z.

(** Which ids the cleanup marks. *)
Lemma toDelete_In now all s x :
  In x (getRecordingsToDeleteIds daysBefore now all s) <->
  (exists days r, rule_on (autoDeleteAfterDays s) days /\ In r all /\
                  (createdAt r < daysBefore now days)%Z /\ id r = x) \/
  (exists r, autoDeleteAfterDownload s = true /\ In r all /\
             isDownloaded r = true /\ id r = x) \/
  (exists n r, rule_on (keepOnlyLastN s) n /\
               In r (skipn (Z.to_nat n) (sortNewest all)) /\ id r = x).
Proof.
  unfold getRecordingsToDeleteIds, rule_on. cbv zeta.
  set (s1 := match autoDeleteAfterDays s with
             | Some days =>
                 if (0 <? days)%Z
                 then forEach_add (fun r => (createdAt r <? daysBefore now days)%Z)
                        all []
                 else []
             | None => [] end).
  assert (H1 : In x s1 <->
    exists days r, (autoDeleteAfterDays s = Some days /\ (0 < days)%Z) /\
                   In r all /\ (createdAt r < daysBefore now days)%Z /\ id r = x).
  { subst s1. destruct (autoDeleteAfterDays s) as [days |].
    - destruct (Z.ltb_spec 0 days).
      + rewrite forEach_add_In. split.
        * intros [[] | (r & Hin & Hlt & Hid)]. apply Z.ltb_lt in Hlt. eauto 8.
        * intros (d & r & [Hd _] & Hin & Hlt & Hid). inversion Hd; subst d.
          right. exists r. rewrite <- Z.ltb_lt in Hlt. auto.
      + split; [intros [] |].
        intros (d & r & [Hd Hpos] & _). inversion Hd; subst. lia.
    - split; [intros [] |]. intros (d & r & [Hd _] & _). discriminate. }
  set (s2 := if autoDeleteAfterDownload s then forEach_add isDownloaded all s1
             else s1).
  assert (H2 : In x s2 <-> In x s1 \/
    exists r, autoDeleteAfterDownload s = true /\ In r all /\
              isDownloaded r = true /\ id r = x).
  { subst s2. destruct (autoDeleteAfterDownload s).
    - rewrite forEach_add_In. split.
      + intros [H | (r & Hin & Hd & Hid)]; eauto 8.
      + intros [H | (r & _ & Hin & Hd & Hid)]; eauto 8.
    - split; [auto |]. intros [H | (r & Hf & _)]; [exact H | discriminate]. }
  clearbody s1 s2.
  destruct (keepOnlyLastN s) as [n |].
  - destruct (Z.ltb_spec 0 n).
    + rewrite forEach_add_In, H2, H1. split.
      * intros [[H0 | H0] | (r & Hin & _ & Hid)]; eauto 8.
      * intros [H0 | [H0 | (m & r & [Hm _] & Hin & Hid)]]; auto.
        inversion Hm; subst m. right. eauto.
    + rewrite H2, H1. split.
      * intros [H0 | H0]; auto.
      * intros [H0 | [H0 | (m & r & [Hm Hpos] & _)]]; auto.
        inversion Hm; subst. lia.
  - rewrite H2, H1. split.
    + intros [H0 | H0]; auto.
    + intros [H0 | [H0 | (m & r & [Hm _] & _)]]; auto. discriminate.
Qed.

Lemma toDelete_NoDup now all s :
  NoDup (getRecordingsToDeleteIds daysBefore now all s).
Proof.
  unfold getRecordingsToDeleteIds. cbv zeta.
  assert (H1 : NoDup (match autoDeleteAfterDays s with
             | Some days =>
                 if (0 <? days)%Z
                 then forEach_add (fun r => (createdAt r <? daysBefore now days)%Z)
                        all []
                 else []
             | None => [] end)).
  { destruct (autoDeleteAfterDays s) as [days |]; [| constructor].
    destruct (0 <? days)%Z; [| constructor].
    apply forEach_add_NoDup. constructor. }
  set (s1 := match autoDeleteAfterDays s with Some _ => _ | None => _ end) in *.
  clearbody s1.
  assert (H2 : NoDup (if autoDeleteAfterDownload s
                      then forEach_add isDownloaded all s1 else s1)).
  { destruct (autoDeleteAfterDownload s); [apply forEach_add_NoDup |]; exact H1. }
  set (s2 := if autoDeleteAfterDownload s then _ else _) in *. clearbody s2.
  destruct (keepOnlyLastN s) as [n |]; [| exact H2].
  destruct (0 <? n)%Z; [apply forEach_add_NoDup |]; exact H2.
Qed.

Lemma toDelete_stored now all s x :
  In x (getRecordingsToDeleteIds daysBefore now all s) -> In x (map id all).
Proof.
  rewrite toDelete_In.
  intros [(d & r & _ & Hin & _ & <-) | [(r & _ & Hin & _ & <-)
                                       | (n & r & _ & Hin & <-)]];
    apply in_map; auto.
  apply (Permutation_in _ (sortNewest_perm all)).
  rewrite <- (firstn_skipn (Z.to_nat n) (sortNewest all)).
  apply in_or_app. right. exact Hin.
Qed.

(** What [runAutoCleanup] does to the world. *)
Lemma runAutoCleanup_run s w :
  let toDelete := getRecordingsToDeleteIds daysBefore (clock w)
                    (sortNewest (keyOrder (recordings w))) s in
  runAutoCleanup daysBefore s w =
    (Ok (List.length toDelete),
     with_recordings
       (filter (fun r => negb (includes toDelete (id r))) (recordings w)) w).
Proof.
  cbv zeta. unfold runAutoCleanup, bind, getAllRecordings, Date_now, ret.
  destruct (getRecordingsToDeleteIds daysBefore (clock w) _ s) as [| x l] eqn:E.
  - simpl. f_equal.
    transitivity (with_recordings (recordings w) w); [destruct w; reflexivity |].
    unfold with_recordings. f_equal. clear E.
    generalize (recordings w). intro rs.
    induction rs as [| r rs IH]; simpl; [reflexivity |].
    f_equal. exact IH.
  - reflexivity.
Qed.

End CleanupFacts.

Lemma filter_keeps_distinct_ids (keep : Recording -> bool) (rs : list Recording) :
  NoDup (map id rs) -> NoDup (map id (filter keep rs)).
Proof.
  intro Hnd. induction rs as [| r rs IH]; simpl; [constructor |].
  simpl in Hnd. inversion Hnd as [| ? ? Hfresh Hrest]; subst.
  destruct (keep r); simpl; [| exact (IH Hrest)].
  constructor; [| exact (IH Hrest)].
  intro Hin. apply Hfresh. apply in_map_iff in Hin.
  destruct Hin as (y & Hy & Hiny). apply filter_In in Hiny.
  apply in_map_iff. exists y. tauto.
Qed.

Lemma NoDup_app_disjoint {A} (l1 l2 : list A) :
  NoDup (l1 ++ l2) -> forall a, In a l1 -> In a l2 -> False.
Proof.
  induction l1 as [| x l1 IH]; simpl; intros H a H1 H2; [exact H1 |].
  inversion H as [| ? ? Hx Hl]; subst.
  destruct H1 as [<- | H1]; [| eapply IH; eassumption].
  apply Hx. apply in_or_app. now right.
Qed.

Lemma marked_length (td : list string) (rs : list Recording) :
  NoDup (map id rs) -> NoDup td -> incl td (map id rs) ->
  List.length (filter (fun r => includes td (id r)) rs) = List.length td.
Proof.
  intros Hrs Htd Hincl.
  rewrite <- (length_map id).
  apply Permutation_length, NoDup_Permutation;
    [apply filter_keeps_distinct_ids, Hrs | exact Htd |].
  intro x. rewrite in_map_iff. split.
  - intros (r & <- & Hin). apply filter_In in Hin.
    apply includes_In, Hin.
  - intro Hx. pose proof (Hincl x Hx) as Hin. apply in_map_iff in Hin.
    destruct Hin as (r & <- & Hr). exists r. split; [reflexivity |].
    apply filter_In. split; [exact Hr | apply includes_In, Hx].
Qed.

Lemma filter_partition_length {A} (p : A -> bool) (l : list A) :
  (List.length (filter p l) + List.length (filter (fun x => negb (p x)) l)
   = List.length l)%nat.
Proof.
  induction l as [| x l IH]; [reflexivity |]. simpl.
  destruct (p x); simpl; lia.
Qed.

Lemma newestFirst_split l : newestFirst l -> forall k a b,
  In a (firstn k l) -> In b (skipn k l) -> (createdAt b <= createdAt a)%Z.
Proof.
  induction 1 as [| r l Hr Hl IH]; intros k a b Ha Hb.
  - destruct k; destruct Ha.
  - destruct k as [| k]; [destruct Ha |]. simpl in Ha, Hb.
    destruct Ha as [<- | Ha].
    + apply Hr. rewrite <- (firstn_skipn k l). apply in_or_app. now right.
    + eapply IH; eassumption.
Qed.

Section CleanupRules.

Variable daysBefore : Z -> Z -> Z.

(** X16. With every rule off, the cleanup deletes nothing and returns 0.
    A rule is off when its setting is [null] or not positive, so
    [keepOnlyLastN = 0] keeps everything rather than nothing, and so does
    [autoDeleteAfterDays = 0]. *)
Theorem runAutoCleanup_disabled (s : StorageSettings) (w : World) :
  rule_off (autoDeleteAfterDays s) ->
  autoDeleteAfterDownload s = false ->
  rule_off (keepOnlyLastN s) ->
  runAutoCleanup daysBefore s w = (Ok 0%nat, w) /\
  fst (getRecordingsToDelete daysBefore s w) = Ok [].
Proof.
  intros Hdays Hdown Hkeep.
  assert (Hnone : forall now all,
            getRecordingsToDeleteIds daysBefore now all s = []).
  { intros now all. unfold getRecordingsToDeleteIds. cbv zeta.
    unfold rule_off in *. rewrite Hdown.
    destruct (autoDeleteAfterDays s) as [d |], (keepOnlyLastN s) as [n |];
      repeat match goal with
             | |- context [(0 <? ?x)%Z] =>
                 destruct (Z.ltb_spec 0 x); [lia |]
             end; reflexivity. }
  split.
  - rewrite runAutoCleanup_run. cbv zeta. rewrite Hnone. simpl. f_equal.
    transitivity (with_recordings (recordings w) w); [| destruct w; reflexivity].
    unfold with_recordings. f_equal.
    generalize (recordings w). intro rs.
    induction rs as [| r rs IH]; simpl; [reflexivity |]. f_equal. exact IH.
  - unfold getRecordingsToDelete, bind, getAllRecordings, Date_now, ret.
    cbn [fst]. rewrite Hnone. f_equal.
    generalize (sortNewest (keyOrder (recordings w))). intro rs.
    induction rs as [| r rs IH]; simpl; [reflexivity | exact IH].
Qed.

(** X17. On a store with distinct ids, [runAutoCleanup] returns exactly the
    number of recordings it removed; the recordings that remain are those of
    the old store, unchanged and in their order; and the recordings that
    [getRecordingsToDelete] previews are exactly the ones that
    [runAutoCleanup] removes. *)
Theorem runAutoCleanup_count (s : StorageSettings) (w : World) :
  NoDup (map id (recordings w)) ->
  let w' := snd (runAutoCleanup daysBefore s w) in
  exists deleted keep,
    fst (runAutoCleanup daysBefore s w) = Ok deleted /\
    recordings w' = filter keep (recordings w) /\
    (List.length (recordings w') + deleted = List.length (recordings w))%nat /\
    exists preview,
      fst (getRecordingsToDelete daysBefore s w) = Ok preview /\
      List.length preview = deleted /\
      forall r, In r preview <-> In r (recordings w) /\ ~ In r (recordings w').
Proof.
  intro Hnd. cbv zeta. rewrite runAutoCleanup_run. cbv zeta.
  set (all := sortNewest (keyOrder (recordings w))).
  set (td := getRecordingsToDeleteIds daysBefore (clock w) all s).
  assert (Hperm : Permutation all (recordings w)) by apply getAll_perm.
  assert (Htd : NoDup td) by apply toDelete_NoDup.
  assert (Hincl : incl td (map id (recordings w))).
  { intros x Hx. apply toDelete_stored in Hx.
    eapply Permutation_in; [apply Permutation_map, Hperm | exact Hx]. }
  assert (Hall : NoDup (map id all)).
  { eapply Permutation_NoDup; [apply Permutation_map; symmetry; exact Hperm |].
    exact Hnd. }
  assert (Hincl' : incl td (map id all)).
  { intros x Hx. apply toDelete_stored in Hx. exact Hx. }
  exists (List.length td), (fun r => negb (includes td (id r))).
  split; [reflexivity |]. split; [reflexivity |]. split.
  - simpl. rewrite <- (marked_length td (recordings w) Hnd Htd Hincl).
    rewrite Nat.add_comm. apply filter_partition_length.
  - exists (filter (fun r => includes td (id r)) all).
    split; [reflexivity |].
    split; [apply marked_length; assumption |].
    intro r. simpl. rewrite !filter_In. split.
    + intros [Hin Hinc]. split; [eapply Permutation_in; eassumption |].
      intros [_ Hneg]. rewrite Hinc in Hneg. discriminate.
    + intros [Hin Hnot]. split.
      * eapply Permutation_in; [symmetry; exact Hperm | exact Hin].
      * destruct (includes td (id r)) eqn:E; [reflexivity |].
        exfalso. apply Hnot. split; [exact Hin | reflexivity].
Qed.

(** X18. With [keepOnlyLastN = n > 0] (distinct ids), at most [n] recordings
    remain after the cleanup, each of them is among the [n] newest of the
    store and so at least as new as every recording beyond the [n]-th; and
    when the other two rules are off, the recordings that remain are exactly
    the [n] newest. *)
Theorem runAutoCleanup_keeps_newest (s : StorageSettings) (w : World) (n : Z) :
  rule_on (keepOnlyLastN s) n ->
  NoDup (map id (recordings w)) ->
  let w' := snd (runAutoCleanup daysBefore s w) in
  let sorted := sortNewest (keyOrder (recordings w)) in
  (Z.of_nat (List.length (recordings w')) <= n)%Z /\
  (forall r, In r (recordings w') -> In r (firstn (Z.to_nat n) sorted)) /\
  (forall r x, In r (recordings w') -> In x (skipn (Z.to_nat n) sorted) ->
     (createdAt x <= createdAt r)%Z) /\
  (rule_off (autoDeleteAfterDays s) -> autoDeleteAfterDownload s = false ->
   forall r, In r (recordings w') <-> In r (firstn (Z.to_nat n) sorted)).
Proof.
  intros Hon Hnd. cbv zeta. rewrite runAutoCleanup_run. cbv zeta. simpl.
  set (all := sortNewest (keyOrder (recordings w))).
  set (td := getRecordingsToDeleteIds daysBefore (clock w) all s).
  assert (Hperm : Permutation all (recordings w)) by apply getAll_perm.
  assert (Hsorted : sortNewest all = all).
  { subst all. generalize (keyOrder (recordings w)). intro l.
    assert (H : forall m, newestFirst m -> sortNewest m = m).
    { induction 1 as [| r m Hr Hm IH]; [reflexivity |]. simpl. rewrite IH.
      destruct m as [| x m]; [reflexivity |]. simpl.
      destruct (Z.leb_spec (createdAt x) (createdAt r)); [reflexivity |].
      specialize (Hr x (or_introl eq_refl)). lia. }
    apply H, sortNewest_sorted. }
  assert (Hkept : forall r,
            In r (filter (fun r => negb (includes td (id r))) (recordings w)) ->
            In r (firstn (Z.to_nat n) all)).
  { intros r Hin. apply filter_In in Hin. destruct Hin as [Hin Hneg].
    apply negb_true_iff, includes_false in Hneg.
    assert (Hr : In r all)
      by (eapply Permutation_in; [symmetry; exact Hperm | exact Hin]).
    rewrite <- (firstn_skipn (Z.to_nat n) all) in Hr.
    apply in_app_or in Hr. destruct Hr as [Hr | Hr]; [exact Hr |].
    exfalso. apply Hneg. subst td. apply toDelete_In.
    right. right. exists n, r. rewrite Hsorted. auto. }
  split; [| split; [exact Hkept | split]].
  - assert (Hlen : (List.length (filter (fun r => negb (includes td (id r)))
                                  (recordings w))
                    <= List.length (firstn (Z.to_nat n) all))%nat).
    { apply NoDup_incl_length; [| exact Hkept].
      apply (NoDup_map_inv id). apply filter_keeps_distinct_ids, Hnd. }
    rewrite length_firstn in Hlen. destruct Hon as [_ Hpos]. lia.
  - intros r x Hr Hx.
    apply (newestFirst_split all (sortNewest_sorted _) (Z.to_nat n)); auto.
  - intros Hdays Hdown r. split; [apply Hkept |].
    intro Hr. apply filter_In. split.
    + eapply Permutation_in; [exact Hperm |].
      rewrite <- (firstn_skipn (Z.to_nat n) all). apply in_or_app. now left.
    + apply negb_true_iff, includes_false. subst td. rewrite toDelete_In.
      intros [(d & x & [Hd Hpos] & _) | [(x & Hf & _) | (m & x & [Hm' _] & Hx & Hid)]].
      * unfold rule_off in Hdays. rewrite Hd in Hdays. lia.
      * rewrite Hdown in Hf. discriminate.
      * rewrite Hsorted in Hx.
        assert (Hm : m = n).
        { destruct Hon as [Hn _]. rewrite Hn in Hm'. now inversion Hm'. }
        subst m.
        assert (Hall : NoDup (map id all)).
        { eapply Permutation_NoDup;
            [apply Permutation_map; symmetry; exact Hperm | exact Hnd]. }
        rewrite <- (firstn_skipn (Z.to_nat n) all), map_app in Hall.
        apply (NoDup_app_disjoint _ _ Hall (id r)); [apply in_map, Hr |].
        rewrite <- Hid. apply in_map, Hx.
Qed.

(** X19. After the cleanup, every rule that is on holds of the store: with
    [autoDeleteAfterDownload] no stored recording is downloaded, and with
    [autoDeleteAfterDays = days > 0] no stored recording was created before
    the cutoff date. *)
Theorem runAutoCleanup_rules_hold (s : StorageSettings) (w : World) :
  let w' := snd (runAutoCleanup daysBefore s w) in
  (autoDeleteAfterDownload s = true ->
   forall r, In r (recordings w') -> isDownloaded r = false) /\
  (forall days, rule_on (autoDeleteAfterDays s) days ->
   forall r, In r (recordings w') ->
     (daysBefore (clock w) days <= createdAt r)%Z).
Proof.
  cbv zeta. rewrite runAutoCleanup_run. cbv zeta. simpl.
  set (all := sortNewest (keyOrder (recordings w))).
  set (td := getRecordingsToDeleteIds daysBefore (clock w) all s).
  assert (Hperm : Permutation all (recordings w)) by apply getAll_perm.
  split.
  - intros Hdown r Hin. apply filter_In in Hin. destruct Hin as [Hin Hneg].
    apply negb_true_iff, includes_false in Hneg.
    destruct (isDownloaded r) eqn:E; [| reflexivity].
    exfalso. apply Hneg. subst td. apply toDelete_In.
    right. left. exists r. repeat split; auto.
    eapply Permutation_in; [symmetry; exact Hperm | exact Hin].
  - intros days Hon r Hin. apply filter_In in Hin. destruct Hin as [Hin Hneg].
    apply negb_true_iff, includes_false in Hneg.
    destruct (Z.le_gt_cases (daysBefore (clock w) days) (createdAt r));
      [assumption |].
    exfalso. apply Hneg. subst td. apply toDelete_In.
    left. exists days, r. repeat split; auto; try apply Hon.
    eapply Permutation_in; [symmetry; exact Hperm | exact Hin].
Qed.

End CleanupRules.

Lemma sample_store_NoDup :
  NoDup (map id (recordings (sample_world sample_store 100))).
Proof. simpl. repeat constructor; simpl; intuition discriminate. Defined.

Lemma runAutoCleanup_disabled_witness :
  let w := sample_world sample_store 100 in
  runAutoCleanup plain_daysBefore keep_zero w = (Ok 0%nat, w) /\
  fst (getRecordingsToDelete plain_daysBefore keep_zero w) = Ok [].
Proof.
  cbv zeta.
  apply (runAutoCleanup_disabled plain_daysBefore keep_zero
           (sample_world sample_store 100)).
  - simpl. lia.
  - reflexivity.
  - simpl. lia.
Defined.

Lemma runAutoCleanup_count_witness :
  let w := sample_world sample_store 100 in
  let w' := snd (runAutoCleanup plain_daysBefore keep_two w) in
  exists deleted keep,
    fst (runAutoCleanup plain_daysBefore keep_two w) = Ok deleted /\
    recordings w' = filter keep (recordings w) /\
    (List.length (recordings w') + deleted = 3)%nat /\
    exists preview,
      fst (getRecordingsToDelete plain_daysBefore keep_two w) = Ok preview /\
      List.length preview = deleted /\
      forall r, In r preview <-> In r (recordings w) /\ ~ In r (recordings w').
Proof.
  cbv zeta.
  exact (runAutoCleanup_count plain_daysBefore keep_two
           (sample_world sample_store 100) sample_store_NoDup).
Defined.

Lemma runAutoCleanup_keeps_newest_witness :
  let w := sample_world sample_store 100 in
  let w' := snd (runAutoCleanup plain_daysBefore keep_two w) in
  recordings w' = [dated_recording "b" 30 false; dated_recording "c" 20 false] /\
  (Z.of_nat (List.length (recordings w')) <= 2)%Z.
Proof.
  cbv zeta. split; [reflexivity |].
  apply (runAutoCleanup_keeps_newest plain_daysBefore keep_two
           (sample_world sample_store 100) 2).
  - split; [reflexivity | lia].
  - exact sample_store_NoDup.
Defined.

(** ** File names and codecs *)

Lemma split_dots_nonempty s : split_dots s <> [].
Proof.
  destruct s as [| c rest]; simpl; [discriminate |].
  destruct (c =? ".")%char; [discriminate |].
  destruct (split_dots rest); discriminate.
Qed.

Lemma split_dots_without s : without "." s = true -> split_dots s = [s].
Proof.
  induction s as [| c rest IH]; simpl; [reflexivity |].
  destruct (c =? ".")%char; simpl; [discriminate |].
  intro H. now rewrite IH.
Qed.

Lemma split_dots_app a b :
  without "." a = true ->
  split_dots (a ++ String "." b) = a :: split_dots b.
Proof.
  induction a as [| c rest IH]; simpl; [reflexivity |].
  destruct (c =? ".")%char; simpl; [discriminate |].
  intro H. now rewrite IH.
Qed.

Lemma last_split_dots_without s :
  without "." (last (split_dots s) "webm") = true.
Proof.
  induction s as [| c rest IH]; simpl; [reflexivity |].
  destruct (c =? ".")%char eqn:E.
  - destruct (split_dots rest) eqn:Es; [now apply split_dots_nonempty in Es |].
    exact IH.
  - destruct (split_dots rest) as [| piece pieces] eqn:Es;
      [now apply split_dots_nonempty in Es |].
    destruct pieces as [| p ps]; [| exact IH].
    simpl in *. now rewrite E, IH.
Qed.

(** X20. [getExtension] of the download helpers: a name without a dot gets
    "webm"; a name [base.ext] whose [ext] has no dot gets [ext] (which is
    empty for a name that ends in a dot); and what it returns never contains
    a dot. *)
Theorem getExtension_last_piece (name : string) :
  (without "." name = true -> getExtension name = "webm") /\
  (forall base ext, name = base ++ "." ++ ext -> without "." ext = true ->
     getExtension name = ext) /\
  without "." (getExtension name) = true.
Proof.
  split; [| split].
  - intro H. unfold getExtension. now rewrite split_dots_without.
  - intros base ext -> Hext. unfold getExtension.
    change (base ++ "." ++ ext) with (base ++ String "." ext).
    assert (H : forall b, exists pieces,
              split_dots (b ++ String "." ext) = (pieces ++ [ext])%list /\
              pieces <> []).
    { induction b as [| c rest IH].
      - exists [EmptyString]. simpl. rewrite split_dots_without by exact Hext.
        split; [reflexivity | discriminate].
      - destruct IH as (pieces & Hp & Hne). simpl.
        destruct (c =? ".")%char.
        + exists (EmptyString :: pieces). rewrite Hp. split;
            [reflexivity | discriminate].
        + rewrite Hp.
          destruct pieces as [| p ps]; [contradiction |].
          exists (String c p :: ps). split; [reflexivity | discriminate]. }
    destruct (H base) as (pieces & -> & Hne).
    rewrite last_last. rewrite length_app. simpl.
    destruct pieces; [contradiction |]. simpl.
    destruct (List.length pieces + 1)%nat eqn:E; [lia | reflexivity].
  - unfold getExtension.
    destruct (1 <? List.length (split_dots name))%nat; [| reflexivity].
    apply last_split_dots_without.
Qed.

Lemma getMimeType_webm config : getFileExtension (getMimeType config) = "webm".
Proof.
  unfold getMimeType, videoCodecs. cbv zeta.
  destruct (videoCodec config) as [v |]; [| reflexivity].
  cbn [find value codec_mimeType].
  destruct ("vp9" =? v); [reflexivity |].
  destruct ("vp8" =? v); [reflexivity |].
  destruct ("h264" =? v); reflexivity.
Qed.

Lemma replace_without s :
  without "." (replace_colons_dots s) = true /\
  without ":" (replace_colons_dots s) = true.
Proof.
  induction s as [| c rest [IH1 IH2]]; simpl; [auto |].
  rewrite IH1, IH2.
  destruct (c =? ":")%char eqn:E1; simpl; [auto |].
  destruct (c =? ".")%char eqn:E2; simpl; [auto |].
  rewrite ?E1, ?E2. auto.
Qed.

Lemma without_substring c s : forall n m,
  without c s = true -> without c (substring n m s) = true.
Proof.
  induction s as [| x rest IH]; intros n m H; destruct n, m; simpl in *;
    try reflexivity.
  - apply andb_prop in H. destruct H as [H1 H2].
    rewrite H1. simpl. now apply IH.
  - apply andb_prop in H. destruct H as [_ H2]. now apply (IH n 0%nat).
  - apply andb_prop in H. destruct H as [_ H2]. now apply IH.
Qed.

Lemma string_app_assoc (a b c : string) : (a ++ b) ++ c = a ++ (b ++ c).
Proof. induction a as [| x a IH]; simpl; [reflexivity | now rewrite IH]. Qed.

Lemma without_app c a b :
  without c (a ++ b) = without c a && without c b.
Proof.
  induction a as [| x rest IH]; simpl; [reflexivity |].
  rewrite IH. now rewrite andb_assoc.
Qed.

(** X21. Whatever the configuration - any codec, or none, in either mode -
    the MIME type of a recording maps to the extension "webm". A recording
    built by [createRecording] therefore is named
    [recording-<timestamp>.webm], where the timestamp contains neither a dot
    nor a colon; the download helpers read its extension back as "webm"; and
    it starts without a transcription and not downloaded. *)
Theorem createRecording_webm (now : Z) (iso uuid : string) (b : Blob)
    (config : RecordingConfig) (seconds : Z) :
  let r := createRecording now iso uuid b config seconds in
  getFileExtension (getMimeType config) = "webm" /\
  (exists timestamp,
     filename r = "recording-" ++ timestamp ++ ".webm" /\
     without "." timestamp = true /\ without ":" timestamp = true) /\
  without ":" (filename r) = true /\
  getExtension (filename r) = "webm" /\
  transcription r = None /\ isDownloaded r = false /\ id r = uuid.
Proof.
  cbv zeta. unfold createRecording. cbv zeta. cbn [filename transcription
    isDownloaded id].
  rewrite getMimeType_webm.
  destruct (replace_without iso) as [Hdot Hcolon].
  assert (Hts : without "." (drop_last 5 (replace_colons_dots iso)) = true /\
                without ":" (drop_last 5 (replace_colons_dots iso)) = true).
  { unfold drop_last. split; apply without_substring; assumption. }
  destruct Hts as [Hd Hc].
  split; [reflexivity |].
  split; [eexists; split; [reflexivity | auto] |].
  split.
  - rewrite !without_app. rewrite Hc. reflexivity.
  - split; [| auto].
    unfold getExtension.
    change ("recording-" ++ drop_last 5 (replace_colons_dots iso) ++ "." ++ "webm")
      with ("recording-" ++ (drop_last 5 (replace_colons_dots iso)
                               ++ String "." "webm")).
    rewrite <- string_app_assoc.
    rewrite split_dots_app by (rewrite without_app; now rewrite Hd).
    reflexivity.
Qed.

Section CodecDefaults.

Variable MediaRecorder_isTypeSupported : option (string -> bool).

Let supported := checkCodecSupport MediaRecorder_isTypeSupported.

(** X22. The default codecs follow the order of the tables: the default is
    the first codec of the table that the browser supports, so it is a
    supported one whenever any codec of the table is; when none is (or there
    is no [MediaRecorder] at all) the default is still "opus" for audio and
    "vp8" for video. *)
Theorem default_codec_first_supported :
  let audio := getDefaultSupportedAudioCodec MediaRecorder_isTypeSupported in
  let video := getDefaultSupportedVideoCodec MediaRecorder_isTypeSupported in
  (exists before c after,
     audioCodecs = (before ++ c :: after)%list /\ value c = audio /\
     (forall x, In x before -> supported (codec_mimeType x) = false) /\
     ((exists x, In x audioCodecs /\ supported (codec_mimeType x) = true) ->
      supported (codec_mimeType c) = true)) /\
  (exists before c after,
     videoCodecs = (before ++ c :: after)%list /\ value c = video /\
     ((exists x, In x videoCodecs /\ supported (codec_mimeType x) = true) ->
      supported (codec_mimeType c) = true /\
      forall x, In x before -> supported (codec_mimeType x) = false)) /\
  (getSupportedAudioCodecs MediaRecorder_isTypeSupported = [] -> audio = "opus") /\
  (getSupportedVideoCodecs MediaRecorder_isTypeSupported = [] -> video = "vp8").
Proof.
  cbv zeta.
  unfold getDefaultSupportedAudioCodec, getDefaultSupportedVideoCodec,
    getSupportedAudioCodecs, getSupportedVideoCodecs, audioCodecs, videoCodecs.
  cbn [filter codec_mimeType]. fold supported.
  split; [| split; [| split]].
  - destruct (supported "audio/webm;codecs=opus") eqn:E1.
    + eexists [], _, _. split; [reflexivity |]. split; [reflexivity |].
      split; [intros x [] | auto].
    + destruct (supported "audio/mp4;codecs=mp4a.40.2") eqn:E2.
      * eexists [_], _, _. split; [reflexivity |]. split; [reflexivity |].
        split; [intros x [<- | []]; exact E1 | auto].
      * eexists [], _, _. split; [reflexivity |]. split; [reflexivity |].
        split; [intros x [] |].
        intros (x & [<- | [<- | []]] & Hx); simpl in Hx; congruence.
  - destruct (supported "video/webm;codecs=vp9,opus") eqn:E1.
    + eexists [], _, _. split; [reflexivity |]. split; [reflexivity |].
      intros _. split; [exact E1 | intros x []].
    + destruct (supported "video/webm;codecs=vp8,opus") eqn:E2.
      * eexists [_], _, _. split; [reflexivity |]. split; [reflexivity |].
        intros _. split; [exact E2 | intros x [<- | []]; exact E1].
      * destruct (supported "video/webm;codecs=h264,opus") eqn:E3.
        -- eexists [_; _], _, _. split; [reflexivity |]. split; [reflexivity |].
           intros _. split; [exact E3 |].
           intros x [<- | [<- | []]]; assumption.
        -- eexists [_], _, _. split; [reflexivity |]. split; [reflexivity |].
           intros (x & [<- | [<- | [<- | []]]] & Hx); simpl in Hx; congruence.
  - destruct (supported "audio/webm;codecs=opus"); [discriminate |].
    destruct (supported "audio/mp4;codecs=mp4a.40.2"); [discriminate |].
    reflexivity.
  - destruct (supported "video/webm;codecs=vp9,opus"); [discriminate |].
    destruct (supported "video/webm;codecs=vp8,opus"); [discriminate |].
    destruct (supported "video/webm;codecs=h264,opus"); [discriminate |].
    reflexivity.
Qed.

End CodecDefaults.

(** ** Relative times and dates *)

(** X23. [formatRelativeTime] in terms of the elapsed milliseconds: below one
    minute (and for a date in the future) "Just now"; below one hour the
    whole minutes, "1 minute ago" in the singular and "n minutes ago"
    otherwise; below 24 hours the whole hours likewise; from 24 to below 48
    hours "Yesterday", whatever the calendar day; below seven days "n days
    ago"; from seven days on the date as [formatDate] prints it. *)
Theorem formatRelativeTime_ranges (now time : Z) (date : DateParts) :
  let diff := (now - time)%Z in
  let out := formatRelativeTime now time date in
  ((diff < 60000)%Z -> out = "Just now") /\
  ((60000 <= diff < 3600000)%Z ->
     out = String_of_Z (diff / 60000) ++ " minute"
             ++ (if (diff <? 120000)%Z then "" else "s") ++ " ago") /\
  ((3600000 <= diff < 86400000)%Z ->
     out = String_of_Z (diff / 3600000) ++ " hour"
             ++ (if (diff <? 7200000)%Z then "" else "s") ++ " ago") /\
  ((86400000 <= diff < 172800000)%Z -> out = "Yesterday") /\
  ((172800000 <= diff < 604800000)%Z ->
     out = String_of_Z (diff / 86400000) ++ " days ago") /\
  ((604800000 <= diff)%Z -> out = formatDate date).
Proof.
  cbv zeta. unfold formatRelativeTime, js_floor_div. cbv zeta.
  set (diff := (now - time)%Z).
  assert (Hm : (diff / 1000 / 60 = diff / 60000)%Z)
    by (rewrite Z.div_div by lia; reflexivity).
  assert (Hh : (diff / 1000 / 60 / 60 = diff / 3600000)%Z)
    by (rewrite !Z.div_div by lia; reflexivity).
  assert (Hd : (diff / 1000 / 60 / 60 / 24 = diff / 86400000)%Z)
    by (rewrite !Z.div_div by lia; reflexivity).
  rewrite Hd, Hh, Hm.
  assert (Hlt : forall a b c, (0 < c)%Z ->
            ((a / c <? b)%Z = (a <? b * c)%Z)).
  { intros a b c Hc.
    destruct (Z.ltb_spec (a / c) b); destruct (Z.ltb_spec a (b * c)); try reflexivity.
    - exfalso. assert (b <= a / c)%Z by (apply Z.div_le_lower_bound; lia). lia.
    - exfalso. assert (a / c < b)%Z by (apply Z.div_lt_upper_bound; lia). lia. }
  rewrite (Hlt diff 60%Z 1000%Z), (Hlt diff 60%Z 60000%Z),
    (Hlt diff 24%Z 3600000%Z), (Hlt diff 7%Z 86400000%Z) by lia.
  change (60 * 1000)%Z with 60000%Z. change (60 * 60000)%Z with 3600000%Z.
  change (24 * 3600000)%Z with 86400000%Z. change (7 * 86400000)%Z with 604800000%Z.
  assert (Hone : forall c, (0 < c)%Z -> (c <= diff)%Z ->
            negb (diff / c =? 1)%Z = negb (diff <? 2 * c)%Z).
  { intros c Hc Hle. f_equal.
    assert (1 <= diff / c)%Z by (apply Z.div_le_lower_bound; lia).
    destruct (Z.eqb_spec (diff / c) 1); destruct (Z.ltb_spec diff (2 * c));
      try reflexivity.
    - exfalso. assert (2 <= diff / c)%Z by (apply Z.div_le_lower_bound; lia). lia.
    - exfalso. assert (diff / c < 2)%Z by (apply Z.div_lt_upper_bound; lia). lia. }
  repeat split; intro H.
  - destruct (Z.ltb_spec diff 60000); [reflexivity | lia].
  - destruct (Z.ltb_spec diff 60000); [lia |].
    destruct (Z.ltb_spec diff 3600000); [| lia].
    rewrite (Hone 60000%Z) by lia. change (2 * 60000)%Z with 120000%Z.
    destruct (diff <? 120000)%Z; reflexivity.
  - destruct (Z.ltb_spec diff 60000); [lia |].
    destruct (Z.ltb_spec diff 3600000); [lia |].
    destruct (Z.ltb_spec diff 86400000); [| lia].
    rewrite (Hone 3600000%Z) by lia. change (2 * 3600000)%Z with 7200000%Z.
    destruct (diff <? 7200000)%Z; reflexivity.
  - destruct (Z.ltb_spec diff 60000); [lia |].
    destruct (Z.ltb_spec diff 3600000); [lia |].
    destruct (Z.ltb_spec diff 86400000); [lia |].
    assert (Hq : (diff / 86400000 = 1)%Z).
    { assert (1 <= diff / 86400000)%Z by (apply Z.div_le_lower_bound; lia).
      assert (diff / 86400000 < 2)%Z by (apply Z.div_lt_upper_bound; lia). lia. }
    rewrite Hq. reflexivity.
  - destruct (Z.ltb_spec diff 60000); [lia |].
    destruct (Z.ltb_spec diff 3600000); [lia |].
    destruct (Z.ltb_spec diff 86400000); [lia |].
    assert (Hq : (2 <= diff / 86400000)%Z) by (apply Z.div_le_lower_bound; lia).
    destruct (Z.eqb_spec (diff / 86400000) 1); [lia |].
    destruct (Z.ltb_spec diff 604800000); [reflexivity | lia].
  - destruct (Z.ltb_spec diff 60000); [lia |].
    destruct (Z.ltb_spec diff 3600000); [lia |].
    destruct (Z.ltb_spec diff 86400000); [lia |].
    assert (Hq : (7 <= diff / 86400000)%Z) by (apply Z.div_le_lower_bound; lia).
    destruct (Z.eqb_spec (diff / 86400000) 1); [lia |].
    destruct (Z.ltb_spec diff 604800000); [lia | reflexivity].
Qed.

(** X24. [formatDate] prints a twelve-hour clock: for an hour of the day from
    0 to 23 the hour shown lies between 1 and 12, "PM" is shown exactly from
    noon on, and the hour of the day can be read back from the two (midnight
    is 12 AM, noon is 12 PM); the minutes are shown with two digits; and the
    month is one of the twelve names, never [undefined], for a month index
    below 12. *)
Theorem formatDate_twelve_hour (date : DateParts) :
  (0 <= getHours date < 24)%Z ->
  (0 <= getMinutes date < 60)%Z ->
  (getMonth date < 12)%nat ->
  exists month shown ampm,
    formatDate date
      = month ++ " " ++ String_of_Z (getDate date) ++ ", "
          ++ String_of_Z (getFullYear date) ++ " at "
          ++ String_of_Z shown ++ ":" ++ two_digits (getMinutes date)
          ++ " " ++ ampm /\
    In month months /\
    (1 <= shown <= 12)%Z /\
    (ampm = "PM" /\ (12 <= getHours date)%Z \/
     ampm = "AM" /\ (getHours date < 12)%Z) /\
    getHours date
      = (shown mod 12 + (if (ampm =? "PM")%string then 12 else 0))%Z.
Proof.
  intros Hh Hm Hmonth. unfold formatDate, pad, js_rem. cbv zeta.
  rewrite (pad_field (getMinutes date)) by exact Hm.
  rewrite Z.rem_mod_nonneg by lia.
  exists (nth (getMonth date) months "undefined").
  pose proof (Z.mod_pos_bound (getHours date) 12 ltac:(lia)) as Hmod.
  assert (Hdiv : getHours date = (12 * (getHours date / 12)
                                  + getHours date mod 12)%Z)
    by (apply Z.div_mod; lia).
  destruct (Z.leb_spec 12 (getHours date)) as [Hpm | Ham].
  - assert (Hq : (getHours date / 12 = 1)%Z).
    { assert (1 <= getHours date / 12)%Z by (apply Z.div_le_lower_bound; lia).
      assert (getHours date / 12 < 2)%Z by (apply Z.div_lt_upper_bound; lia).
      lia. }
    destruct (Z.eqb_spec (getHours date mod 12) 0) as [H0 | Hn].
    + exists 12%Z, "PM". split; [reflexivity |].
      split; [apply nth_In; exact Hmonth |].
      split; [lia |]. split; [left; split; [reflexivity | lia] |].
      simpl. lia.
    + exists (getHours date mod 12)%Z, "PM". split; [reflexivity |].
      split; [apply nth_In; exact Hmonth |].
      split; [lia |]. split; [left; split; [reflexivity | lia] |].
      simpl. rewrite Z.mod_mod by lia. lia.
  - assert (Hq : (getHours date / 12 = 0)%Z) by (apply Z.div_small; lia).
    destruct (Z.eqb_spec (getHours date mod 12) 0) as [H0 | Hn].
    + exists 12%Z, "AM". split; [reflexivity |].
      split; [apply nth_In; exact Hmonth |].
      split; [lia |]. split; [right; split; [reflexivity | lia] |].
      simpl. lia.
    + exists (getHours date mod 12)%Z, "AM". split; [reflexivity |].
      split; [apply nth_In; exact Hmonth |].
      split; [lia |]. split; [right; split; [reflexivity | lia] |].
      simpl. rewrite Z.mod_mod by lia. lia.
Qed.

Lemma formatDate_twelve_hour_witness :
  formatDate {| getMonth := 2; getDate := 5; getFullYear := 2024;
                getHours := 0; getMinutes := 7 |}
    = "Mar 5, 2024 at 12:07 AM" /\
  exists month shown ampm,
    formatDate {| getMonth := 2; getDate := 5; getFullYear := 2024;
                  getHours := 0; getMinutes := 7 |}
      = month ++ " " ++ String_of_Z 5 ++ ", " ++ String_of_Z 2024 ++ " at "
          ++ String_of_Z shown ++ ":" ++ two_digits 7 ++ " " ++ ampm /\
    In month months /\
    (1 <= shown <= 12)%Z /\
    (ampm = "PM" /\ (12 <= 0)%Z \/ ampm = "AM" /\ (0 < 12)%Z) /\
    0%Z = (shown mod 12 + (if (ampm =? "PM")%string then 12 else 0))%Z.
Proof.
  split; [reflexivity |].
  apply (formatDate_twelve_hour
           {| getMonth := 2; getDate := 5; getFullYear := 2024;
              getHours := 0; getMinutes := 7 |}); simpl; lia.
Defined.

(** ** Rejections *)

Section NeverRejects.

Variable net : Network.

Lemma pollLoop_stored adapter recording t jid remaining : forall w,
  existsb (has_id (id recording)) (recordings w) = true ->
  fst (pollLoop net adapter recording t jid remaining w) = Ok tt.
Proof.
  induction remaining as [| k IH]; intros w Hin.
  - simpl. unfold recordings_update. now rewrite Hin.
  - cbn [pollLoop]. unfold bind. rewrite pollAttempt_run by exact Hin.
    cbv zeta. destruct (is_terminal _); [reflexivity |].
    apply IH. simpl. rewrite existsb_store_update. exact Hin.
Qed.

Lemma pollUntilComplete_stored recording w :
  existsb (has_id (id recording)) (recordings w) = true ->
  fst (pollUntilComplete net recording w) = Ok tt.
Proof.
  intro Hin. unfold pollUntilComplete, bind. rewrite getAdapter_state.
  destruct (getAdapter_value w) as ([adapter |] & -> & _); [| reflexivity].
  cbv beta iota.
  destruct (transcription recording) as [t |]; [| reflexivity].
  destruct (jobId t) as [jid |]; [| reflexivity].
  destruct (jid =? ""); [reflexivity |].
  apply pollLoop_stored, Hin.
Qed.

Lemma clearAll_loop_stored all : forall clearedCount w,
  (forall r, In r all -> existsb (has_id (id r)) (recordings w) = true) ->
  exists n, fst (clearAll_loop all clearedCount w) = Ok n.
Proof.
  induction all as [| r rest IH]; intros n w Hall; cbn [clearAll_loop].
  - eexists. reflexivity.
  - assert (Hrest : forall w', map id (recordings w') = map id (recordings w) ->
              forall x, In x rest -> existsb (has_id (id x)) (recordings w') = true).
    { intros w' Hids x Hx. specialize (Hall x (or_intror Hx)).
      rewrite existsb_exists in *. destruct Hall as (y & Hy & Hid).
      apply (in_map id) in Hy. rewrite <- Hids in Hy. apply in_map_iff in Hy.
      destruct Hy as (z & Hz & Hin). exists z. split; [exact Hin |].
      unfold has_id in *. now rewrite Hz. }
    destruct (transcription r) as [t |]; [| apply IH, Hrest; reflexivity].
    destruct (in_progress (status t)); [| apply IH, Hrest; reflexivity].
    unfold bind, recordings_update. rewrite (Hall r (or_introl eq_refl)).
    apply IH, Hrest. simpl. apply map_id_store_update.
Qed.

Lemma clearTimedOut_loop_stored all : forall clearedCount w,
  (forall r, In r all -> existsb (has_id (id r)) (recordings w) = true) ->
  exists n, fst (clearTimedOut_loop all clearedCount w) = Ok n.
Proof.
  induction all as [| r rest IH]; intros n w Hall; cbn [clearTimedOut_loop].
  - eexists. reflexivity.
  - assert (Hrest : forall w', map id (recordings w') = map id (recordings w) ->
              forall x, In x rest -> existsb (has_id (id x)) (recordings w') = true).
    { intros w' Hids x Hx. specialize (Hall x (or_intror Hx)).
      rewrite existsb_exists in *. destruct Hall as (y & Hy & Hid).
      apply (in_map id) in Hy. rewrite <- Hids in Hy. apply in_map_iff in Hy.
      destruct Hy as (z & Hz & Hin). exists z. split; [exact Hin |].
      unfold has_id in *. now rewrite Hz. }
    destruct (transcription r) as [t |]; [| apply IH, Hrest; reflexivity].
    destruct (in_progress (status t)); [| apply IH, Hrest; reflexivity].
    destruct (startedAt t) as [started |]; [| apply IH, Hrest; reflexivity].
    unfold bind at 1, Date_now. cbv beta iota.
    destruct (timeoutMs <? clock w - started)%Z;
      [| apply IH, Hrest; reflexivity].
    unfold bind, recordings_update. rewrite (Hall r (or_introl eq_refl)).
    apply IH, Hrest. simpl. apply map_id_store_update.
Qed.

(** X25. The manager rejects only for a recording that is not stored: on a
    recording whose id is in the store, [transcribe], [retryTranscription]
    and [resumePolling] return normally whatever the network does, and the
    two clear operations always return normally. *)
Theorem manager_rejects_only_unknown (recording : Recording)
    (options : option TranscriptionOptions) (w : World) :
  (existsb (has_id (id recording)) (recordings w) = true ->
   fst (transcribe net recording options w) = Ok tt /\
   fst (retryTranscription net recording options w) = Ok tt /\
   fst (resumePolling net recording w) = Ok tt) /\
  (exists n, fst (clearAllInProgressTranscriptions w) = Ok n) /\
  (exists n, fst (clearTimedOutTranscriptions w) = Ok n).
Proof.
  assert (Hself : forall r, In r (recordings w) ->
                    existsb (has_id (id r)) (recordings w) = true)
    by (intros; now apply In_existsb).
  split; [| split].
  - intro Hin.
    assert (Htr : fst (transcribe net recording options w) = Ok tt).
    { unfold transcribe, bind. rewrite getAdapter_state.
      destruct (getAdapter_value w) as ([adapter |] & -> & _); [| reflexivity].
      cbv beta iota. unfold Date_now at 1. cbv beta iota.
      unfold recordings_update at 1. rewrite Hin. unfold try_catch.
      match goal with |- context [adapter_transcribe net adapter ?b ?o ?w1] =>
        pose proof (adapter_transcribe_requests_only net adapter b o w1)
          as (Hr & _);
        destruct (adapter_transcribe_never_fails net adapter b o w1) as (res & Hres);
        destruct (adapter_transcribe net adapter b o w1) as [out w2]
      end.
      simpl in Hres, Hr. subst out.
      unfold Date_now. cbv beta iota.
      assert (Hin2 : existsb (has_id (id recording)) (recordings w2) = true).
      { rewrite Hr. simpl. rewrite existsb_store_update. exact Hin. }
      unfold recordings_update. rewrite Hin2.
      destruct (status_eqb (res_status res) StProcessing && truthy (res_jobId res));
        [| reflexivity].
      unfold get_recordings. cbv beta iota.
      destruct (find _ _); reflexivity. }
    split; [exact Htr |]. split; [exact Htr |].
    unfold resumePolling.
    destruct (transcription recording) as [t |]; [| reflexivity].
    destruct (negb (in_progress (status t))); [reflexivity |].
    destruct (negb (truthy (jobId t))); [reflexivity |].
    destruct (startedAt t) as [started |];
      [| apply pollUntilComplete_stored, Hin].
    unfold bind, Date_now. cbv beta iota.
    destruct (timeoutMs <? clock w - started)%Z;
      [| apply pollUntilComplete_stored, Hin].
    unfold recordings_update. now rewrite Hin.
  - unfold clearAllInProgressTranscriptions, bind, get_recordings.
    apply clearAll_loop_stored, Hself.
  - unfold clearTimedOutTranscriptions, bind, get_recordings.
    apply clearTimedOut_loop_stored, Hself.
Qed.

End NeverRejects.

(** ** Live transcript *)

Lemma collect_results_spec results : forall interim final,
  collect_results results interim final =
    (interim ++ String.concat ""
                  (map result_transcript
                     (filter (fun r => negb (isFinal r)) results)),
     final ++ String.concat ""
                (map (fun r => result_transcript r ++ " ")
                   (filter isFinal results))).
Proof.
  assert (Hcons : forall x l, String.concat "" (x :: l) = x ++ String.concat "" l).
  { intros x [| y l]; simpl; [| reflexivity].
    induction x as [| c x IH]; simpl; [reflexivity | now rewrite <- IH]. }
  assert (Hnil : forall s, s ++ "" = s).
  { induction s as [| c s IH]; simpl; [reflexivity | now rewrite IH]. }
  induction results as [| r rest IH]; intros interim final.
  - simpl. now rewrite !Hnil.
  - cbn [collect_results filter map]. destruct (isFinal r); cbn [negb map].
    + rewrite IH, Hcons. now rewrite <- !string_app_assoc.
    + rewrite IH, Hcons. now rewrite <- !string_app_assoc.
Qed.

(** X26. The [onresult] handler of the live recognition only ever appends
    to the stored transcript: the new transcript is the old one followed by
    the final results from [resultIndex] on, each followed by a space, in
    their order; the text handed to the listener is the new transcript
    followed by the interim results; and an event without a final result
    leaves the stored transcript as it is. *)
Theorem onresult_appends (results : list SpeechResult) (resultIndex : nat)
    (transcript : string) :
  let fresh := skipn resultIndex results in
  let finals := String.concat ""
                  (map (fun r => result_transcript r ++ " ")
                     (filter isFinal fresh)) in
  let interims := String.concat ""
                    (map result_transcript
                       (filter (fun r => negb (isFinal r)) fresh)) in
  onresult results resultIndex transcript
    = (transcript ++ finals, (transcript ++ finals) ++ interims) /\
  (forallb (fun r => negb (isFinal r)) fresh = true ->
   fst (onresult results resultIndex transcript) = transcript).
Proof.
  cbv zeta. unfold onresult. rewrite collect_results_spec. simpl append.
  assert (Hnil : forall s, s ++ "" = s).
  { induction s as [| c s IH]; simpl; [reflexivity | now rewrite IH]. }
  split.
  - destruct (String.eqb_spec
                (String.concat ""
                   (map (fun r => result_transcript r ++ " ")
                      (filter isFinal (skipn resultIndex results)))) "")
      as [-> | _]; [now rewrite Hnil | reflexivity].
  - intro Hall.
    assert (Hnone : filter isFinal (skipn resultIndex results) = []).
    { induction (skipn resultIndex results) as [| r l IH]; [reflexivity |].
      simpl in *. apply andb_prop in Hall. destruct Hall as [Hr Hl].
      destruct (isFinal r); [discriminate | auto]. }
    rewrite Hnone. reflexivity.
Qed.

(** ** The recorded duration *)

Lemma pause_resume_spec pauses : forall this,
  mediaRecorder this = Some Recording_ ->
  (forall p r, In (p, r) pauses -> (0 < p)%Z) ->
  let this' := pause_resume pauses this in
  mediaRecorder this' = Some Recording_ /\
  startTime this' = startTime this /\
  totalPausedDuration this'
    = (totalPausedDuration this + paused_total pauses)%Z.
Proof.
  induction pauses as [| [p r] rest IH]; intros this Hrec Hpos; cbv zeta.
  - simpl. split; [exact Hrec |]. split; [reflexivity | lia].
  - cbn [pause_resume paused_total].
    assert (Hp : (0 < p)%Z) by (apply (Hpos p r); now left).
    assert (Hstep : recorder_resume r (recorder_pause p this)
                    = {| mediaRecorder := Some Recording_;
                         startTime := startTime this; pausedTime := 0;
                         totalPausedDuration :=
                           (totalPausedDuration this + (r - p))%Z |}).
    { unfold recorder_pause. rewrite Hrec. unfold recorder_resume. simpl.
      destruct (Z.ltb_spec 0 p); [reflexivity | lia]. }
    rewrite Hstep.
    destruct (IH {| mediaRecorder := Some Recording_;
                    startTime := startTime this; pausedTime := 0;
                    totalPausedDuration :=
                      (totalPausedDuration this + (r - p))%Z |} eq_refl)
      as (H1 & H2 & H3).
    { intros p' r' Hin. apply (Hpos p' r'). now right. }
    cbv zeta in H1, H2, H3. simpl in H2, H3.
    rewrite H1, H2, H3. split; [reflexivity |]. split; [reflexivity | lia].
Qed.

(** X27. The recorder does not count the pauses: after a start at [t0] and
    any number of pauses, each ended by a resume, the recorder is recording
    again and its duration at time [now] is the whole seconds of the time
    since [t0] less the time spent in the pauses. A second [pause()] while
    paused, or a [resume()] while recording, changes nothing. *)
Theorem recorder_duration_excludes_pauses (t0 now : Z) (pauses : list (Z * Z)) :
  t0 <> 0%Z ->
  (forall p r, In (p, r) pauses -> (0 < p)%Z) ->
  let this := pause_resume pauses (recorder_started t0) in
  mediaRecorder this = Some Recording_ /\
  getDuration now this = ((now - t0 - paused_total pauses) / 1000)%Z /\
  (forall r, recorder_resume r this = this) /\
  (forall p p', recorder_pause p' (recorder_pause p this) = recorder_pause p this).
Proof.
  intros Ht0 Hpos. cbv zeta.
  destruct (pause_resume_spec pauses (recorder_started t0) eq_refl Hpos)
    as (Hrec & Hstart & Htotal).
  cbv zeta in Hrec, Hstart, Htotal. simpl in Hstart, Htotal.
  split; [exact Hrec |]. split; [| split].
  - unfold getDuration, js_floor_div. rewrite Hstart, Htotal.
    destruct (Z.eqb_spec t0 0); [contradiction | reflexivity].
  - intro r. unfold recorder_resume. now rewrite Hrec.
  - intros p p'. unfold recorder_pause. rewrite Hrec. reflexivity.
Qed.

Lemma recorder_duration_excludes_pauses_witness :
  let this := pause_resume [(5000, 8000); (20000, 21500)]%Z
                (recorder_started 1000) in
  mediaRecorder this = Some Recording_ /\
  getDuration 31000 this = 25%Z.
Proof.
  cbv zeta.
  destruct (recorder_duration_excludes_pauses 1000 31000
              [(5000, 8000); (20000, 21500)]%Z) as (H1 & H2 & _).
  - discriminate.
  - intros p r [H | [H | []]]; inversion H; lia.
  - split; [exact H1 | exact H2].
Defined.

(** ** A resumed job ends *)

Section EndsTerminal.

Variable net : Network.

Lemma pollLoop_ends_terminal adapter recording t jid remaining : forall w,
  existsb (has_id (id recording)) (recordings w) = true ->
  exists final,
    stored (id recording) (snd (pollLoop net adapter recording t jid remaining w))
      = Some final /\
    is_terminal (status final) = true /\ jobId final = jobId t.
Proof.
  induction remaining as [| k IH]; intros w Hin.
  - simpl. unfold recordings_update. rewrite Hin. cbn [snd].
    eexists. split; [apply stored_write, Hin |]. split; reflexivity.
  - cbn [pollLoop]. unfold bind. rewrite pollAttempt_run by exact Hin.
    cbv zeta. destruct (is_terminal _) eqn:Hterm.
    + cbn [snd]. eexists. split; [apply stored_write; exact Hin |].
      split; [exact Hterm | reflexivity].
    + apply IH. simpl. rewrite existsb_store_update. exact Hin.
Qed.

Lemma pollUntilComplete_ends_terminal recording t jid adapter w :
  fst (getAdapter w) = Ok (Some adapter) ->
  transcription recording = Some t ->
  jobId t = Some jid -> jid <> "" ->
  existsb (has_id (id recording)) (recordings w) = true ->
  exists final,
    stored (id recording) (snd (pollUntilComplete net recording w)) = Some final /\
    is_terminal (status final) = true /\ jobId final = Some jid.
Proof.
  intros Ha Ht Hj Hne Hin.
  unfold pollUntilComplete, bind. rewrite getAdapter_state, Ha.
  cbv beta iota. rewrite Ht, Hj.
  apply String.eqb_neq in Hne. rewrite Hne.
  rewrite <- Hj. apply pollLoop_ends_terminal, Hin.
Qed.

(** X28. A resumed job ends. With an adapter configured and the recording
    stored, [resumePolling] on a job that is [processing] or [pending] and
    has a job id resolves normally, whatever the network answers; and when it
    has resolved, the stored job is [completed] or [error], still under its
    job id - expired at once, settled by an answer of the provider, or timed
    out after the last poll. *)
Theorem resumePolling_ends_terminal (recording : Recording)
    (t : TranscriptionData) (jid : string) (adapter : AssemblyAIAdapter)
    (w : World) :
  fst (getAdapter w) = Ok (Some adapter) ->
  existsb (has_id (id recording)) (recordings w) = true ->
  transcription recording = Some t ->
  in_progress (status t) = true ->
  jobId t = Some jid -> jid <> "" ->
  fst (resumePolling net recording w) = Ok tt /\
  exists final,
    stored (id recording) (snd (resumePolling net recording w)) = Some final /\
    is_terminal (status final) = true /\ jobId final = Some jid.
Proof.
  intros Ha Hin Ht Hp Hj Hne.
  assert (Hpoll :
    fst (pollUntilComplete net recording w) = Ok tt /\
    exists final,
      stored (id recording) (snd (pollUntilComplete net recording w))
        = Some final /\
      is_terminal (status final) = true /\ jobId final = Some jid).
  { split; [apply pollUntilComplete_stored, Hin |].
    exact (pollUntilComplete_ends_terminal recording t jid adapter w
             Ha Ht Hj Hne Hin). }
  unfold resumePolling. rewrite Ht, Hp. cbn [negb]. cbv beta iota.
  rewrite Hj, (truthy_Some jid Hne). cbn [negb]. cbv beta iota.
  destruct (startedAt t) as [started |]; [| exact Hpoll].
  unfold bind, Date_now. cbv beta iota.
  destruct (timeoutMs <? clock w - started)%Z; [| exact Hpoll].
  unfold recordings_update. rewrite Hin. cbn [fst snd].
  split; [reflexivity |].
  eexists. split; [apply stored_write, Hin |]. split; [reflexivity | exact Hj].
Qed.

End EndsTerminal.

Lemma resumePolling_ends_terminal_witness :
  let w := sample_world [recording_in_progress] 1000 in
  fst (resumePolling net_partial recording_in_progress w) = Ok tt /\
  exists final,
    stored "r2" (snd (resumePolling net_partial recording_in_progress w))
      = Some final /\
    is_terminal (status final) = true /\ jobId final = Some "j1".
Proof.
  cbv zeta.
  apply (resumePolling_ends_terminal net_partial recording_in_progress
           (sample_job StProcessing (Some 0%Z)) "j1"
           (new_AssemblyAIAdapter "key")
           (sample_world [recording_in_progress] 1000)).
  - reflexivity.
  - reflexivity.
  - reflexivity.
  - reflexivity.
  - reflexivity.
  - discriminate.
Defined.

(** ** Deleting recordings *)

(** X29. [recordings.deleteMultiple] removes exactly the recordings whose id
    is listed and keeps the others as they are, in their order; deleting one
    id is deleting the list of that id; deleting in two batches is deleting
    both at once; and afterwards a write to a deleted id rejects with the
    store's "not found" error and changes nothing. *)
Theorem deleteMultiple_removes_listed (ids more : list string) (w : World) :
  let w' := snd (recordings_deleteMultiple ids w) in
  (forall r, In r (recordings w') <-> In r (recordings w) /\ ~ In (id r) ids) /\
  (forall i, recordings_deleteMultiple [i] w = recordings_delete i w) /\
  recordings_deleteMultiple more w' = recordings_deleteMultiple (ids ++ more) w /\
  (forall i t, In i ids ->
     recordings_update i t w' =
       (Throw (ErrorObj ("Recording with id " ++ i ++ " not found")), w')).
Proof.
  cbv zeta. unfold recordings_deleteMultiple, recordings_delete. cbn [snd].
  split; [| split; [| split]].
  - intro r. simpl. rewrite filter_In, negb_true_iff, includes_false. tauto.
  - intro i. f_equal. unfold with_recordings. f_equal.
    apply filter_ext. intro r. unfold includes. simpl.
    now rewrite orb_false_r.
  - unfold with_recordings. simpl. f_equal. f_equal.
    generalize (recordings w). intro rs.
    assert (Happ : forall x,
              includes (ids ++ more) x = includes ids x || includes more x)
      by (intro x; apply existsb_app).
    induction rs as [| r rs IH]; [reflexivity |].
    cbn [filter]. rewrite Happ.
    destruct (includes ids (id r)); cbn [negb orb filter]; [exact IH |].
    destruct (includes more (id r)); cbn [negb]; [exact IH | now rewrite IH].
  - intros i t Hi. unfold recordings_update.
    assert (Hgone : existsb (has_id i)
              (recordings (with_recordings
                 (filter (fun r => negb (includes ids (id r))) (recordings w)) w))
              = false).
    { simpl. destruct (existsb _ _) eqn:E; [| reflexivity].
      apply existsb_exists in E. destruct E as (r & Hr & Hid).
      apply filter_In in Hr. destruct Hr as [_ Hneg].
      apply negb_true_iff, includes_false in Hneg.
      unfold has_id in Hid. apply String.eqb_eq in Hid. subst i.
      contradiction. }
    rewrite Hgone. reflexivity.
Qed.

(** ** Durations *)

(** X30. [formatDuration] on a whole number of seconds that is not negative:
    the hours, minutes and seconds it prints recompose to the duration; from
    one hour on it prints [H:MM:SS], below [M:SS], the minutes (after hours)
    and the seconds always with two digits. *)
Theorem formatDuration_fields (seconds : Z) :
  (0 <= seconds)%Z ->
  exists h m s,
    seconds = (h * 3600 + m * 60 + s)%Z /\
    (0 <= h)%Z /\ (0 <= m < 60)%Z /\ (0 <= s < 60)%Z /\
    formatDuration seconds =
      (if (0 <? h)%Z
       then String_of_Z h ++ ":" ++ two_digits m ++ ":" ++ two_digits s
       else String_of_Z m ++ ":" ++ two_digits s).
Proof.
  intro H. unfold formatDuration, pad, js_floor_div, js_rem. cbv zeta.
  rewrite !Z.rem_mod_nonneg by lia.
  pose proof (Z.mod_pos_bound seconds 3600 ltac:(lia)) as H3600.
  pose proof (Z.mod_pos_bound seconds 60 ltac:(lia)) as H60.
  assert (Hm : (0 <= seconds mod 3600 / 60 < 60)%Z).
  { split; [apply Z.div_pos; lia | apply Z.div_lt_upper_bound; lia]. }
  exists (seconds / 3600)%Z, (seconds mod 3600 / 60)%Z, (seconds mod 60)%Z.
  split.
  - pose proof (Z.div_mod seconds 3600 ltac:(lia)) as E1.
    pose proof (Z.div_mod (seconds mod 3600) 60 ltac:(lia)) as E2.
    pose proof (Z.mod_pos_bound (seconds mod 3600) 60 ltac:(lia)) as Hs.
    assert (E3 : ((seconds mod 3600) mod 60 = seconds mod 60)%Z).
    { apply (Z.mod_unique_pos seconds 60
               (60 * (seconds / 3600) + seconds mod 3600 / 60)); lia. }
    lia.
  - split; [apply Z.div_pos; lia |]. split; [exact Hm |]. split; [exact H60 |].
    rewrite !pad_field by assumption. reflexivity.
Qed.

Lemma formatDuration_fields_witness :
  formatDuration 3725 = "1:02:05" /\
  exists h m s,
    3725%Z = (h * 3600 + m * 60 + s)%Z /\
    (0 <= h)%Z /\ (0 <= m < 60)%Z /\ (0 <= s < 60)%Z /\
    formatDuration 3725 =
      (if (0 <? h)%Z
       then String_of_Z h ++ ":" ++ two_digits m ++ ":" ++ two_digits s
       else String_of_Z m ++ ":" ++ two_digits s).
Proof.
  split; [reflexivity |].
  apply (formatDuration_fields 3725). lia.
Defined.
